(** * Radon transform and filtered backprojection (hw5/radon.py)

    A shallow embedding of [rampfilter], [radon], [fbp], [get_operators] and
    [test_adjoint].  Tensors are modelled as a shape together with the
    row-major sequence of their elements; the torch and numpy operations the
    source calls are modelled from their documented semantics, each with the
    shape checks it performs, so that a call that raises in Python returns
    [Err] here.

    Floating-point numbers are idealised as real numbers ([R]); integer sizes
    are natural numbers.  Device placement ([.to(device)]) and dtype changes
    ([.double()], [.float()]) are the identity in this model.

    Two results of the source are decided by single-precision rounding: the
    ceiling of the logarithm in line 79 and the comparison with 1 in line
    91.  The properties below do not rest on the exact outcome there: the
    padded length is described for image sizes up to [2^20], and the circle
    mask only as the tensor [reconstruction_circle] that the operator
    stores. *)

From Stdlib Require Import Reals Lra Lia List Bool Arith ZArith QArith Qround.
Import ListNotations.
Close Scope Q_scope.

(** ** Python exceptions and the error monad *)

Inductive error : Type :=
| ValueError
| RuntimeError
| IndexError
| ZeroDivisionError.

Inductive result (A : Type) : Type :=
| Ok (a : A)
| Err (e : error).

Arguments Ok {A} a.
Arguments Err {A} e.

Definition bind {A B : Type} (r : result A) (k : A -> result B) : result B :=
  match r with
  | Ok a => k a
  | Err e => Err e
  end.

Notation "x <- c ;; k" := (bind c (fun x => k))
  (at level 61, c at next level, right associativity).

Definition guard (b : bool) (e : error) : result unit :=
  if b then Ok tt else Err e.

(** ** Tensors *)

Module Torch.

Record tensor (A : Type) : Type := Tensor {
  shape : list nat;
  flat : nat -> A
}.

Arguments Tensor {A} shape flat.
Arguments shape {A} t.
Arguments flat {A} t.

Definition numel (s : list nat) : nat := fold_right Nat.mul 1 s.

(** Row-major offset of a multi-index. *)
Fixpoint ravel (s idx : list nat) : nat :=
  match s, idx with
  | _ :: s', i :: idx' => i * numel s' + ravel s' idx'
  | _, _ => 0
  end.

(** The multi-index of a row-major offset. *)
Fixpoint unravel (s : list nat) (k : nat) : list nat :=
  match s with
  | [] => []
  | _ :: s' => k / numel s' :: unravel s' (k mod numel s')
  end.

Definition get {A : Type} (t : tensor A) (idx : list nat) : A :=
  flat t (ravel (shape t) idx).

Definition build {A : Type} (s : list nat) (f : list nat -> A) : tensor A :=
  Tensor s (fun k => f (unravel s k)).

Definition tmap {A B : Type} (f : A -> B) (t : tensor A) : tensor B :=
  Tensor (shape t) (fun k => f (flat t k)).

Definition in_bounds (idx s : list nat) : Prop := Forall2 lt idx s.

Definition list_eqb (a b : list nat) : bool :=
  if list_eq_dec Nat.eq_dec a b then true else false.

(** *** Reshaping: [reshape], [view], [unsqueeze], indexing with [None] *)

Inductive dim : Type :=
| D (n : nat)
| Infer.          (* the -1 of [reshape(-1, ...)] *)

Definition known (d : dim) : nat :=
  match d with D n => n | Infer => 1 end.

Definition is_infer (d : dim) : bool :=
  match d with D _ => false | Infer => true end.

Definition infer_shape (n : nat) (dims : list dim) : result (list nat) :=
  let k := numel (map known dims) in
  match length (filter is_infer dims) with
  | 0 => _ <- guard (n =? k) RuntimeError ;; Ok (map known dims)
  | 1 =>
      _ <- guard (negb (k =? 0)) RuntimeError ;;
      _ <- guard (n mod k =? 0) RuntimeError ;;
      Ok (map (fun d => match d with D m => m | Infer => n / k end) dims)
  | _ => Err RuntimeError
  end.

(** [reshape] and [view] keep the row-major element sequence. Every tensor
    the source views is freshly produced and contiguous, where the two
    coincide. *)
Definition reshape {A : Type} (t : tensor A) (dims : list dim) : result (tensor A) :=
  s <- infer_shape (numel (shape t)) dims ;;
  Ok (Tensor s (flat t)).

Definition view {A : Type} (t : tensor A) (dims : list dim) : result (tensor A) :=
  reshape t dims.

Definition insert_at {A : Type} (d : nat) (x : A) (l : list A) : list A :=
  firstn d l ++ x :: skipn d l.

Definition remove_at {A : Type} (d : nat) (l : list A) : list A :=
  firstn d l ++ skipn (S d) l.

(** [t.unsqueeze(d)]; [t[None]] is [unsqueeze t 0] and [t[:, None]] on a 1-D
    tensor is [unsqueeze t 1]. *)
Definition unsqueeze {A : Type} (t : tensor A) (d : nat) : tensor A :=
  Tensor (insert_at d 1 (shape t)) (flat t).

(** *** Creation *)

Open Scope R_scope.

(** [torch.linspace(start, end, steps)]. *)
Definition linspace (start stop : R) (steps : nat) : tensor R :=
  Tensor [steps]
    (fun k => match steps with
              | 1%nat => start
              | _ => start + INR k * ((stop - start) / (INR steps - 1))
              end).

Definition zeros_like {A : Type} (t : tensor A) : tensor R :=
  Tensor (shape t) (fun _ => 0).

Definition ones_like {A : Type} (t : tensor A) : tensor R :=
  Tensor (shape t) (fun _ => 1).

(** [torch.meshgrid(a, b)] with the default 'ij' indexing. *)
Definition meshgrid {A : Type} (a b : tensor A) : result (tensor A * tensor A) :=
  match shape a, shape b with
  | [p], [q] =>
      Ok (build [p; q] (fun idx => get a [nth 0 idx 0%nat]),
          build [p; q] (fun idx => get b [nth 1 idx 0%nat]))
  | _, _ => Err RuntimeError
  end.

(** *** Broadcasting element-wise operations *)

Definition bdim (d1 d2 : nat) : option nat :=
  if (d1 =? 1)%nat then Some d2
  else if (d2 =? 1)%nat then Some d1
  else if (d1 =? d2)%nat then Some d1
  else None.

(** Shapes are aligned at their last dimension: the lists are reversed. *)
Fixpoint broadcast_rev (s1 s2 : list nat) : option (list nat) :=
  match s1, s2 with
  | [], s => Some s
  | s, [] => Some s
  | d1 :: r1, d2 :: r2 =>
      match bdim d1 d2, broadcast_rev r1 r2 with
      | Some d, Some r => Some (d :: r)
      | _, _ => None
      end
  end.

Definition broadcast_shapes (s1 s2 : list nat) : option (list nat) :=
  option_map (@rev nat) (broadcast_rev (rev s1) (rev s2)).

Fixpoint bidx_rev (s idx : list nat) : list nat :=
  match s, idx with
  | d :: s', i :: idx' => (if (d =? 1)%nat then 0%nat else i) :: bidx_rev s' idx'
  | _, _ => []
  end.

(** The index an operand of shape [s] is read at for the result index [idx]. *)
Definition bidx (s idx : list nat) : list nat :=
  rev (bidx_rev (rev s) (rev idx)).

Definition map2 {A B C : Type} (f : A -> B -> C) (a : tensor A) (b : tensor B)
  : result (tensor C) :=
  match broadcast_shapes (shape a) (shape b) with
  | Some s =>
      Ok (build s (fun idx => f (get a (bidx (shape a) idx)) (get b (bidx (shape b) idx))))
  | None => Err RuntimeError
  end.

Definition mul := map2 Rmult.
Definition add := map2 Rplus.
Definition sub := map2 Rminus.

Definition cos (t : tensor R) : tensor R := tmap Rtrigo_def.cos t.
Definition sin (t : tensor R) : tensor R := tmap Rtrigo_def.sin t.
Definition neg (t : tensor R) : tensor R := tmap Ropp t.
Definition square (t : tensor R) : tensor R := tmap (fun x => x * x) t.
Definition mul_scalar (t : tensor R) (c : R) : tensor R := tmap (fun x => x * c) t.
Definition div_scalar (t : tensor R) (c : R) : tensor R := tmap (fun x => x / c) t.

Definition Rleb (x y : R) : bool := if Rle_dec x y then true else false.

(** [t <= c], in exact arithmetic. On single-precision tensors the outcome
    can differ for elements within rounding distance of [c]; properties that
    depend on the outcome are stated through the tensor of booleans the
    comparison returned. *)
Definition le_scalar (t : tensor R) (c : R) : tensor bool :=
  tmap (fun x => Rleb x c) t.

Definition Reqb (x y : R) : bool := if Req_dec_T x y then true else false.

Definition eq_scalar (t : tensor R) (c : R) : tensor bool :=
  tmap (fun x => Reqb x c) t.

(** [t.double()] of a boolean tensor. *)
Definition double_of_bool (t : tensor bool) : tensor R :=
  tmap (fun b : bool => if b then 1 else 0) t.

Definition unsqueeze_last {A : Type} (t : tensor A) : tensor A :=
  unsqueeze t (length (shape t)).

(** *** Joining *)

Definition all_shapes (s : list nat) {A : Type} (ts : list (tensor A)) : bool :=
  forallb (fun t => list_eqb (shape t) s) ts.

(** [torch.stack(ts, -1)]. *)
Definition stack_last {A : Type} (ts : list (tensor A)) : result (tensor A) :=
  match ts with
  | [] => Err RuntimeError
  | t0 :: _ =>
      _ <- guard (all_shapes (shape t0) ts) RuntimeError ;;
      Ok (build (shape t0 ++ [length ts])
            (fun idx => get (nth (last idx 0%nat) ts t0) (removelast idx)))
  end.

(** [torch.cat((a, b), dim=-1)]. *)
Definition cat_last {A : Type} (a b : tensor A) : result (tensor A) :=
  match rev (shape a), rev (shape b) with
  | la :: ra, lb :: rb =>
      _ <- guard (list_eqb ra rb) RuntimeError ;;
      Ok (build (rev ra ++ [(la + lb)%nat])
            (fun idx =>
               let l := last idx 0%nat in
               if (l <? la)%nat then get a idx
               else get b (removelast idx ++ [(l - la)%nat])))
  | _, _ => Err RuntimeError
  end.

(** [t.repeat(reps)]. *)
Definition repeat {A : Type} (t : tensor A) (reps : list nat) : result (tensor A) :=
  let extra := (length reps - length (shape t))%nat in
  _ <- guard (length (shape t) <=? length reps)%nat RuntimeError ;;
  let s := List.repeat 1%nat extra ++ shape t in
  Ok (build (map (fun p => (fst p * snd p)%nat) (combine reps s))
        (fun idx =>
           get t (skipn extra (map (fun p => (fst p mod snd p)%nat) (combine idx s))))).

(** *** Reductions and permutations *)

Fixpoint rsum (n : nat) (f : nat -> R) : R :=
  match n with
  | O => 0
  | S k => rsum k f + f k
  end.

(** [t.sum(d)]. *)
Definition sum_dim (t : tensor R) (d : nat) : result (tensor R) :=
  _ <- guard (d <? length (shape t))%nat IndexError ;;
  Ok (build (remove_at d (shape t))
        (fun idx => rsum (nth d (shape t) 0%nat) (fun k => get t (insert_at d k idx)))).

(** [torch.sum(t)]. *)
Definition sum_all (t : tensor R) : R := rsum (numel (shape t)) (flat t).

Fixpoint index_of (d : nat) (p : list nat) : nat :=
  match p with
  | [] => 0%nat
  | x :: p' => if (x =? d)%nat then 0%nat else S (index_of d p')
  end.

Definition is_perm (p : list nat) : bool :=
  forallb (fun d => existsb (Nat.eqb d) p) (seq 0 (length p)).

(** [t.permute(p)]: dimension [i] of the result is dimension [p_i] of [t]. *)
Definition permute {A : Type} (t : tensor A) (p : list nat) : result (tensor A) :=
  _ <- guard ((length p =? length (shape t))%nat && is_perm p) RuntimeError ;;
  Ok (build (map (fun d => nth d (shape t) 0%nat) p)
        (fun idx => get t (map (fun d => nth (index_of d p) idx 0%nat)
                               (seq 0 (length p))))).

(** *** Padding, slicing and masked assignment *)

(** [torch.nn.functional.pad(t, [l1, r1, l2, r2], mode='constant', value=v)]:
    the last dimension is padded by [(l1, r1)], the one before by [(l2, r2)]. *)
Definition pad2 {A : Type} (t : tensor A) (l1 r1 l2 r2 : nat) (v : A) : result (tensor A) :=
  match rev (shape t) with
  | d1 :: d2 :: r =>
      let k := length r in
      Ok (build (rev r ++ [(l2 + d2 + r2)%nat; (l1 + d1 + r1)%nat])
            (fun idx =>
               let i := nth k idx 0%nat in
               let j := nth (S k) idx 0%nat in
               if ((l2 <=? i) && (i <? l2 + d2) && (l1 <=? j) && (j <? l1 + d1))%nat
               then get t (firstn k idx ++ [(i - l2)%nat; (j - l1)%nat])
               else v))
  | _ => Err RuntimeError
  end.

Fixpoint set_nth (d : nat) (x : nat) (l : list nat) : list nat :=
  match l, d with
  | [], _ => []
  | _ :: l', O => x :: l'
  | y :: l', S d' => y :: set_nth d' x l'
  end.

(** The slice [t[..., :len, ...]] along dimension [d]. *)
Definition narrow {A : Type} (t : tensor A) (d len : nat) : result (tensor A) :=
  _ <- guard (d <? length (shape t))%nat IndexError ;;
  Ok (build (set_nth d (Nat.min len (nth d (shape t) 0%nat)) (shape t))
        (fun idx => get t idx)).

(** [t[mask] = v] for a boolean mask of the shape of [t]. *)
Definition masked_fill {A : Type} (t : tensor A) (mask : tensor bool) (v : A)
  : result (tensor A) :=
  _ <- guard (list_eqb (shape mask) (shape t)) IndexError ;;
  Ok (Tensor (shape t) (fun k => if flat mask k then v else flat t k)).

(** *** Discrete Fourier transform along one dimension *)

Definition complex : Type := (R * R)%type.

Definition twiddle (k m n : nat) : R := 2 * PI * INR k * INR m / INR n.

(** [torch.fft.fft(t, dim=d)] of a real tensor:
    [X_k = sum_m x_m exp(-2 pi i k m / n)]. The transform raises on a tensor
    without elements (an empty batch, for one). *)
Definition fft (t : tensor R) (d : nat) : result (tensor complex) :=
  _ <- guard (d <? length (shape t))%nat IndexError ;;
  let n := nth d (shape t) 0%nat in
  _ <- guard (0 <? n)%nat RuntimeError ;;
  _ <- guard (negb (numel (shape t) =? 0)%nat) RuntimeError ;;
  Ok (build (shape t)
        (fun idx =>
           let k := nth d idx 0%nat in
           (rsum n (fun m => get t (set_nth d m idx) * Rtrigo_def.cos (twiddle k m n)),
            - rsum n (fun m => get t (set_nth d m idx) * Rtrigo_def.sin (twiddle k m n))))).

(** [torch.fft.ifft(t, dim=d)]:
    [x_m = (1/n) sum_k X_k exp(2 pi i k m / n)]. *)
Definition ifft (t : tensor complex) (d : nat) : result (tensor complex) :=
  _ <- guard (d <? length (shape t))%nat IndexError ;;
  let n := nth d (shape t) 0%nat in
  _ <- guard (0 <? n)%nat RuntimeError ;;
  _ <- guard (negb (numel (shape t) =? 0)%nat) RuntimeError ;;
  Ok (build (shape t)
        (fun idx =>
           let m := nth d idx 0%nat in
           (rsum n (fun k => fst (get t (set_nth d k idx)) * Rtrigo_def.cos (twiddle k m n)
                             - snd (get t (set_nth d k idx)) * Rtrigo_def.sin (twiddle k m n)) / INR n,
            rsum n (fun k => fst (get t (set_nth d k idx)) * Rtrigo_def.sin (twiddle k m n)
                             + snd (get t (set_nth d k idx)) * Rtrigo_def.cos (twiddle k m n)) / INR n))).

Definition real (t : tensor complex) : tensor R := tmap fst t.

Definition cmul_real (z : complex) (r : R) : complex := (fst z * r, snd z * r).

(** *** Sampling grids *)

(** [linspace_from_neg_one] of torch's affine grid generator, with
    [align_corners=True]. *)
Definition linspace_from_neg_one (steps k : nat) : R :=
  match steps with
  | O | 1%nat => 0
  | _ => flat (linspace (-1) 1 steps) k
  end.

(** [torch.nn.functional.affine_grid(theta, torch.Size([n, c, h, w]),
    align_corners=True)]. *)
Definition affine_grid (theta : tensor R) (n c h w : nat) : result (tensor R) :=
  match shape theta with
  | [tn; 2%nat; 3%nat] =>
      _ <- guard (negb ((n =? 0) || (c =? 0) || (h =? 0) || (w =? 0))%nat) ValueError ;;
      _ <- guard (tn =? n)%nat RuntimeError ;;
      Ok (build [n; h; w; 2%nat]
            (fun idx =>
               match idx with
               | [a; i; j; k] =>
                   get theta [a; k; 0%nat] * linspace_from_neg_one w j
                   + get theta [a; k; 1%nat] * linspace_from_neg_one h i
                   + get theta [a; k; 2%nat] * 1
               | _ => 0
               end))
  | _ => Err ValueError
  end.

(** Pixel coordinate of a normalised coordinate, [align_corners=True]. *)
Definition unnormalize (coord : R) (size : nat) : R :=
  (coord + 1) / 2 * (INR size - 1).

(** Pixel value with zero padding outside the image. *)
Definition pixel (img : nat -> nat -> R) (h w : nat) (iy ix : Z) : R :=
  if ((0 <=? iy) && (iy <? Z.of_nat h) && (0 <=? ix) && (ix <? Z.of_nat w))%Z
  then img (Z.to_nat iy) (Z.to_nat ix)
  else 0.

(** Bilinear interpolation of [img] (of [h] rows and [w] columns) at the
    normalised point [(x, y)]. *)
Definition bilinear (img : nat -> nat -> R) (h w : nat) (x y : R) : R :=
  let ix := unnormalize x w in
  let iy := unnormalize y h in
  let ix0 := Zfloor ix in
  let iy0 := Zfloor iy in
  let ix1 := (ix0 + 1)%Z in
  let iy1 := (iy0 + 1)%Z in
  pixel img h w iy0 ix0 * ((IZR ix1 - ix) * (IZR iy1 - iy))
  + pixel img h w iy0 ix1 * ((ix - IZR ix0) * (IZR iy1 - iy))
  + pixel img h w iy1 ix0 * ((IZR ix1 - ix) * (iy - IZR iy0))
  + pixel img h w iy1 ix1 * ((ix - IZR ix0) * (iy - IZR iy0)).

(** [torch.nn.functional.grid_sample(input, grid, mode='bilinear',
    padding_mode='zeros', align_corners=True)] for 4-D input. *)
Definition grid_sample (input grid : tensor R) : result (tensor R) :=
  match shape input, shape grid with
  | [n; c; h; w], [ng; ho; wo; two] =>
      _ <- guard ((n =? ng) && (two =? 2) && (0 <? h) && (0 <? w))%nat RuntimeError ;;
      Ok (build [n; c; ho; wo]
            (fun idx =>
               match idx with
               | [b; ch; i; j] =>
                   bilinear (fun y x => get input [b; ch; y; x]) h w
                            (get grid [b; i; j; 0%nat]) (get grid [b; i; j; 1%nat])
               | _ => 0
               end))
  | _, _ => Err RuntimeError
  end.

End Torch.

Open Scope R_scope.

(** ** numpy arrays, as lists *)

Module Numpy.

(** [int(x)]: the conversion of a float to an integer truncates. *)
Definition to_int (x : Q) : Z := if Qle_bool 0 x then Qfloor x else Qceiling x.

(** [np.arange(start, stop, step, dtype=int)]. The bounds may be fractions
    (the source passes [size / 2 + 1]), here exact rationals. The array has
    [ceil((stop - start) / step)] elements; its first two are [start] and
    [start + step] converted to integers, and the others continue with the
    difference of these two. *)
Definition arange (start stop step : Q) : list Z :=
  let length := Z.to_nat (Qceiling ((stop - start) / step)) in
  let first := to_int start in
  let delta := (to_int (start + step) - first)%Z in
  map (fun k => (first + Z.of_nat k * delta)%Z) (seq 0 length).

Definition zeros (size : nat) : list R := List.repeat 0 size.

(** [f[i] = v]. *)
Definition setitem (f : list R) (i : nat) (v : R) : result (list R) :=
  _ <- guard (i <? length f)%nat IndexError ;;
  Ok (firstn i f ++ v :: skipn (S i) f).

(** [f[1::2] = vals]: the odd positions take the values in order; a single
    value is broadcast. *)
Definition setitem_odd (f : list R) (vals : list R) : result (list R) :=
  let slots := (length f / 2)%nat in
  _ <- guard ((length vals =? slots) || (length vals =? 1))%nat ValueError ;;
  Ok (map (fun i => if Nat.odd i
                    then nth (if (length vals =? 1)%nat then 0%nat else (i / 2)%nat) vals 0
                    else nth i f 0)
          (seq 0 (length f))).

(** [np.real(np.fft.fft(f))]: the real part of
    [sum_m f_m exp(-2 pi i k m / n)]. *)
Definition real_fft (f : list R) : list R :=
  map (fun k => Torch.rsum (length f)
                  (fun m => nth m f 0 * cos (Torch.twiddle k m (length f))))
      (seq 0 (length f)).

(** [torch.tensor(a)] of a 1-D array. *)
Definition to_tensor (a : list R) : Torch.tensor R :=
  Torch.Tensor [length a] (fun k => nth k a 0).

End Numpy.

Import Torch.

(** ** The source: hw5/radon.py *)

(** [rampfilter], lines 12-18, in three steps: the index array [n]
    (lines 13-14), the real-space response [f] (lines 15-17) and the filter
    (line 18).

    [size / 2] is a float division in the source, a rational here. On an
    odd size of at least 3 the index array has one element more than [f]
    has odd positions, and line 17 raises. *)
Definition ramp_index (size : nat) : list Z :=
  let half := (inject_Z (Z.of_nat size) / 2)%Q in
  Numpy.arange 1 (half + 1) 2 ++ Numpy.arange (half - 1) 0 (-2).

Definition ramp_response (size : nat) : result (list R) :=
  let n := ramp_index size in
  let f := Numpy.zeros size in
  f <- Numpy.setitem f 0%nat 0.25 ;;
  Numpy.setitem_odd f (map (fun n_i => -1 / ((PI * IZR n_i) * (PI * IZR n_i))) n).

Definition rampfilter (size : nat) : result (tensor R) :=
  f <- ramp_response size ;;
  Ok (Numpy.to_tensor (map (fun v => 2 * v) (Numpy.real_fft f))).

(** The angles both constructors compute:
    [torch.linspace(0, np.pi-(np.pi/n_angles), n_angles)[:,None,None]];
    [np.pi/n_angles] raises for [n_angles = 0]. *)
Definition thetas_of (n_angles : nat) : tensor R :=
  unsqueeze (unsqueeze (linspace 0 (PI - PI / INR n_angles) n_angles) 1%nat) 2%nat.

Definition make_thetas (n_angles : nat) : result (tensor R) :=
  _ <- guard (negb (n_angles =? 0)%nat) ZeroDivisionError ;;
  Ok (thetas_of n_angles).

(** The class [radon], lines 22-56. *)
Module radon.

Record t : Type := Build {
  n_angles : nat;
  rotated : tensor R
}.

(** [radon.__init__], lines 33-42. *)
Definition init (n_angles image_size : nat) : result t :=
  thetas <- make_thetas n_angles ;;
  let cos_al := cos thetas in
  let sin_al := sin thetas in
  let zeros := zeros_like cos_al in
  stacked <- stack_last [cos_al; sin_al; zeros; neg sin_al; cos_al; zeros] ;;
  rotations <- reshape stacked [Infer; D 2%nat; D 3%nat] ;;
  grid <- affine_grid rotations n_angles 1%nat image_size image_size ;;
  rotated <- reshape grid [D 1%nat; Infer; D image_size; D 2%nat] ;;
  Ok (Build n_angles rotated).

(** [radon.forward], lines 53-56; unpacking [image.shape] into four names
    raises [ValueError] for any other rank. *)
Definition forward (self : t) (image : tensor R) : result (tensor R) :=
  match shape image with
  | [bsz; _; shape_size; _] =>
      grid <- repeat (rotated self) [bsz; 1; 1; 1]%nat ;;
      sampled <- grid_sample image grid ;;
      out_fl <- reshape sampled
                  [D bsz; D 1%nat; D (n_angles self); D shape_size; D shape_size] ;;
      summed <- sum_dim out_fl 3%nat ;;
      permute summed [0; 1; 3; 2]%nat
  | _ => Err ValueError
  end.

End radon.

(** The class [fbp], lines 59-122. *)
Module fbp.

Record t : Type := Build {
  image_size : nat;
  step_size : R;
  n_angles : nat;
  circle : bool;
  filtered : bool;
  pad_width : nat;
  filter : tensor R;
  grid : tensor R;
  reconstruction_circle : tensor bool
}.

(** [max(64, int(2 ** (2 * torch.tensor(det_count)).float().log2().ceil()))],
    with the exact logarithm. The source takes the logarithm in single
    precision: just above a power of two [2^k] it may round down to [k], the
    sooner the larger [k] is. Up to [det_count = 2^20] the logarithm of
    [2 * det_count] is more than one unit in the last place above the
    exponent below, so the rounded value has the same ceiling; the properties
    of the padded length are stated in that range. *)
Definition projection_size_padded (det_count : nat) : nat :=
  Nat.max 64 (2 ^ Nat.log2_up (2 * det_count))%nat.

(** [fbp.__init__], lines 70-91; [image_size/det_count] raises for
    [image_size = 0]. *)
Definition init (n_angles image_size : nat) (circle filtered : bool) : result t :=
  let det_count := image_size in
  _ <- guard (negb (det_count =? 0)%nat) ZeroDivisionError ;;
  let step_size := INR image_size / INR det_count in
  let pad_width := (projection_size_padded det_count - det_count)%nat in
  filter <- rampfilter (projection_size_padded det_count) ;;
  thetas <- make_thetas n_angles ;;
  grids <- meshgrid (linspace (-1) 1 image_size) (linspace (-1) 1 image_size) ;;
  let grid_y := fst grids in
  let grid_x := snd grids in
  gx_cos <- mul grid_x (cos thetas) ;;
  gy_sin <- mul grid_y (sin thetas) ;;
  rot <- sub gx_cos gy_sin ;;
  let tgrid := unsqueeze_last rot in
  y <- mul (ones_like tgrid)
           (unsqueeze (unsqueeze (unsqueeze (linspace (-1) 1 n_angles) 1%nat) 2%nat) 3%nat) ;;
  joined <- cat_last y tgrid ;;
  viewed <- view joined [D (n_angles * image_size)%nat; D image_size; D 2%nat] ;;
  let grid := unsqueeze viewed 0%nat in
  radius <- add (square grid_x) (square grid_y) ;;
  let reconstruction_circle := le_scalar radius 1 in
  Ok (Build image_size step_size n_angles circle filtered pad_width filter grid
        reconstruction_circle).

(** [fbp.forward], lines 103-122. The masked assignment of line 121 updates
    a tensor no one else holds, so it is modelled by its result. *)
Definition forward (self : t) (input : tensor R) : result (tensor R) :=
  match shape input with
  | [bsz; _; det_count; _] =>
      radon_filtered <-
        (if filtered self then
           padded_input <- pad2 input 0%nat 0%nat 0%nat (pad_width self) 0 ;;
           spectrum <- fft padded_input 2%nat ;;
           projection <- map2 cmul_real spectrum (unsqueeze (filter self) 1%nat) ;;
           back <- ifft projection 2%nat ;;
           narrow (real back) 2%nat det_count
         else Ok input) ;;
      grid <- repeat (grid self) [bsz; 1; 1; 1]%nat ;;
      reconstructed <- grid_sample radon_filtered grid ;;
      reconstructed <- view reconstructed
                         [D bsz; D (n_angles self); D 1%nat;
                          D (image_size self); D (image_size self)] ;;
      reconstructed <- sum_dim reconstructed 1%nat ;;
      let reconstructed := div_scalar reconstructed (step_size self) in
      reconstructed <-
        (if circle self then
           mask <- repeat (reconstruction_circle self) [bsz; 1; 1; 1]%nat ;;
           let reconstructed_circle := double_of_bool mask in
           masked_fill reconstructed (eq_scalar reconstructed_circle 0) 0
         else Ok reconstructed) ;;
      Ok (div_scalar (mul_scalar reconstructed PI) (INR (2 * n_angles self)))
  | _ => Err ValueError
  end.

End fbp.

(** [get_operators], lines 125-141; [filtered] keeps its default. *)
Definition get_operators (n_angles image_size : nat) (circle : bool)
  : result (radon.t * fbp.t) :=
  radon_op <- radon.init n_angles image_size ;;
  fbp_op <- fbp.init n_angles image_size circle true ;;
  Ok (radon_op, fbp_op).

(** [test_adjoint], lines 143-161, with the sizes and the two random tensors
    as arguments; the final division of two Python floats raises when the
    denominator is zero. *)
Definition adjoint_ratio (n_angles image_size : nat) (x y : tensor R) : result R :=
  radon_op <- radon.init n_angles image_size ;;
  fbp_op <- fbp.init n_angles image_size false false ;;
  ax <- radon.forward radon_op x ;;
  prod_l <- mul ax y ;;
  let leftside := sum_all prod_l in
  aty <- fbp.forward fbp_op y ;;
  prod_r <- mul x aty ;;
  let rightside := sum_all prod_r in
  _ <- guard (negb (Reqb rightside 0)) ZeroDivisionError ;;
  Ok (leftside / rightside).

Definition test_adjoint (x y : tensor R) : result R :=
  adjoint_ratio 50%nat 100%nat x y.

(** The index array in the words of the specification: the ascending odd
    integers [1, 3, ..., size/2], then the descending odd integers
    [size/2 - 1, ..., 1]. *)
Definition odds_upto (m : Z) : list Z :=
  filter Z.odd (map Z.of_nat (seq 1 (Z.to_nat m))).

Definition ramp_index_spec (size : nat) : list Z :=
  let half := (Z.of_nat size / 2)%Z in
  odds_upto half ++ rev (odds_upto (half - 1)).

(** ** What the operators compute, pixel by pixel *)

(** The sinogram value the forward operator computes at detector [j] and
    angle [a]: the sum over [i] of the image interpolated at the rotated
    grid point. *)
Definition radon_value (n h w : nat) (img : nat -> nat -> R) (j a : nat) : R :=
  rsum h (fun i =>
    bilinear img h w
      (Rtrigo_def.cos (INR a * PI / INR n) * linspace_from_neg_one h j
       + Rtrigo_def.sin (INR a * PI / INR n) * linspace_from_neg_one h i + 0 * 1)
      (- Rtrigo_def.sin (INR a * PI / INR n) * linspace_from_neg_one h j
       + Rtrigo_def.cos (INR a * PI / INR n) * linspace_from_neg_one h i + 0 * 1)).

(** The angle-summed accumulation of the backward operator at pixel
    [(i, j)]: the (filtered) sinogram interpolated, for every angle, at the
    backward grid point. *)
Definition backprojection (n h det ang : nat) (sino : nat -> nat -> R) (i j : nat) : R :=
  rsum n (fun a =>
    bilinear sino det ang
      (1 * flat (linspace (-1) 1 n) a)
      (flat (linspace (-1) 1 h) j * Rtrigo_def.cos (INR a * PI / INR n)
       - flat (linspace (-1) 1 h) i * Rtrigo_def.sin (INR a * PI / INR n))).

(** The inner product [sum(forward(x) * y)] for one angle. *)
Definition inner_one (b h : nat) (x y : tensor R) : R :=
  rsum b (fun b0 => rsum h (fun j =>
    rsum h (fun i => get x [b0; 0%nat; i; j]) * get y [b0; 0%nat; j; 0%nat])).

(** The ramp filter as the specification words it, for one [size]: the
    response [f] has [f_0 = 0.25], [f_i = -1 / (pi n)^2] at the odd
    positions, with [n] read from [ramp_index_spec] in order, and 0 at the
    other positions; the filter is twice the real part of the transform of
    [f]. *)
Definition rampfilter_as_specified (size : nat) : Prop :=
  exists f t,
    ramp_response size = Ok f /\
    rampfilter size = Ok t /\
    shape t = [size] /\
    length f = size /\
    nth 0 f 0 = 0.25 /\
    (forall i, (i < size)%nat -> Nat.odd i = true ->
       nth i f 0 = -1 / ((PI * IZR (nth (i / 2) (ramp_index_spec size) 0%Z))
                         * (PI * IZR (nth (i / 2) (ramp_index_spec size) 0%Z)))) /\
    (forall i, (0 < i < size)%nat -> Nat.even i = true -> nth i f 0 = 0) /\
    (forall k, (k < size)%nat ->
       flat t k
       = 2 * rsum size (fun m => nth m f 0 * Rtrigo_def.cos (twiddle k m size))).

(** The inner product [sum(forward(x) * y)] for the two angles 0 and
    [pi / 2]. *)
Definition inner_two (b h : nat) (x y : tensor R) : R :=
  rsum b (fun b0 => rsum h (fun j =>
    rsum h (fun i => get x [b0; 0%nat; i; j]) * get y [b0; 0%nat; j; 0%nat]
    + rsum h (fun i => get x [b0; 0%nat; (h - 1 - j)%nat; i])
      * get y [b0; 0%nat; j; 1%nat])).

(** The filtering of lines 107-110 for one detector column [col] of [det]
    samples: the column is zero-padded to [p] samples, transformed,
    multiplied by the filter [flt], transformed back, and the real part is
    read at position [i]. *)
Definition padded_value (det : nat) (col : nat -> R) (m : nat) : R :=
  if (m <? det)%nat then col m else 0.

Definition filtered_value (p : nat) (flt : nat -> R) (det : nat) (col : nat -> R)
    (i : nat) : R :=
  rsum p (fun k =>
    rsum p (fun m => padded_value det col m * Rtrigo_def.cos (twiddle k m p)) * flt k
    * Rtrigo_def.cos (twiddle k i p)
    - - rsum p (fun m => padded_value det col m * Rtrigo_def.sin (twiddle k m p)) * flt k
      * Rtrigo_def.sin (twiddle k i p))
  / INR p.

(** The sinogram that the backward operator interpolates for batch item
    [b0]: the input itself, or its filtered columns in filtered mode, padded
    by the operator's stored [pad_width] and multiplied by its stored
    [filter]. *)
Definition fbp_sinogram (op : fbp.t) (input : tensor R) (b0 : nat) (y x : nat) : R :=
  if fbp.filtered op
  then filtered_value (fbp.image_size op + fbp.pad_width op)
         (flat (fbp.filter op)) (fbp.image_size op)
         (fun m => get input [b0; 0%nat; m; x]) y
  else get input [b0; 0%nat; y; x].

(** Linear interpolation of column [k] of a sinogram along the detector
    axis, at the normalised detector position [t]. *)
Definition column_lerp (sino : nat -> nat -> R) (det ang k : nat) (t : R) : R :=
  let iy := unnormalize t det in
  pixel sino det ang (Zfloor iy) (Z.of_nat k) * (IZR (Zfloor iy + 1) - iy)
  + pixel sino det ang (Zfloor iy + 1) (Z.of_nat k) * (iy - IZR (Zfloor iy)).

(** * Properties *)

(** ** Index arithmetic *)

Lemma ravel_lt s : forall idx, in_bounds idx s -> (ravel s idx < numel s)%nat.
Proof.
  induction s as [|d s IH]; intros idx Hb; inversion Hb; subst; simpl.
  - lia.
  - specialize (IH _ H3). nia.
Qed.

Lemma unravel_ravel s : forall idx, in_bounds idx s -> unravel s (ravel s idx) = idx.
Proof.
  induction s as [|d s IH]; intros idx Hb; inversion Hb; subst.
  - reflexivity.
  - pose proof (ravel_lt _ _ H3) as Hlt.
    cbn [ravel unravel].
    rewrite Nat.div_add_l, Nat.div_small, Nat.add_0_r by lia.
    rewrite Nat.add_comm, Nat.Div0.mod_add, Nat.mod_small by lia.
    now rewrite IH.
Qed.

Lemma get_build {A : Type} s (f : list nat -> A) idx :
  in_bounds idx s -> get (build s f) idx = f idx.
Proof.
  intros Hb. unfold get, build. cbn [shape flat]. now rewrite unravel_ravel.
Qed.

Lemma list_eqb_refl a : list_eqb a a = true.
Proof. unfold list_eqb. destruct (list_eq_dec Nat.eq_dec a a); congruence. Qed.


(** ** Finite sums *)

Lemma rsum_ext n f g :
  (forall k, (k < n)%nat -> f k = g k) -> rsum n f = rsum n g.
Proof.
  induction n as [|n IH]; intros H; simpl; [reflexivity|].
  rewrite IH by (intros; apply H; lia). rewrite H by lia. reflexivity.
Qed.

Lemma rsum_scal n f c : rsum n (fun k => f k * c) = rsum n f * c.
Proof. induction n as [|n IH]; simpl; [ring|]. rewrite IH. ring. Qed.

Lemma rsum_plus n f g : rsum n (fun k => f k + g k) = rsum n f + rsum n g.
Proof. induction n as [|n IH]; simpl; [ring|]. rewrite IH. ring. Qed.

Lemma rsum_zero n f : (forall k, (k < n)%nat -> f k = 0) -> rsum n f = 0.
Proof.
  induction n as [|n IH]; intros H; simpl; [reflexivity|].
  rewrite IH by (intros; apply H; lia). rewrite H by lia. ring.
Qed.

Lemma rsum_swap n m (f : nat -> nat -> R) :
  rsum n (fun i => rsum m (fun j => f i j)) = rsum m (fun j => rsum n (fun i => f i j)).
Proof.
  induction n as [|n IH]; simpl.
  - symmetry. now apply rsum_zero.
  - rewrite IH, <- rsum_plus. reflexivity.
Qed.

Lemma rsum_app a m (f : nat -> R) :
  rsum (a + m) f = rsum a f + rsum m (fun j => f (a + j)%nat).
Proof.
  induction m as [|m IH].
  - rewrite Nat.add_0_r. simpl. ring.
  - rewrite Nat.add_succ_r. simpl. rewrite IH. ring.
Qed.

Lemma rsum_prod n m (f : nat -> R) :
  rsum (n * m) f = rsum n (fun i => rsum m (fun j => f (i * m + j)%nat)).
Proof.
  induction n as [|n IH]; [reflexivity|].
  replace (S n * m)%nat with (n * m + m)%nat by lia.
  rewrite rsum_app, IH. reflexivity.
Qed.

(** ** The ramp filter *)

(** The two halves of the index array on an even size [2 hf]: [size / 2] is
    the integer [hf]. *)
Lemma arange_up hf :
  Numpy.arange 1 (inject_Z (Z.of_nat (2 * hf)) / 2 + 1) 2
  = map (fun k => (1 + Z.of_nat k * 2)%Z) (seq 0 ((hf + 1) / 2)).
Proof.
  assert (Hs : Z.of_nat (2 * hf) = (2 * Z.of_nat hf)%Z) by lia.
  revert Hs. generalize (Z.of_nat (2 * hf)). intros s ->.
  unfold Numpy.arange.
  set (a := Z.of_nat hf). assert (Ha : (0 <= a)%Z) by lia.
  assert (Hlen : Z.to_nat (Qceiling ((inject_Z (2 * a) / 2 + 1 - 1) / 2))
                 = ((hf + 1) / 2)%nat).
  { apply Nat2Z.inj. rewrite Nat2Z.inj_div, Nat2Z.inj_add.
    change (Z.of_nat 1) with 1%Z. change (Z.of_nat 2) with 2%Z. fold a.
    clearbody a.
    unfold Qceiling, Qfloor, Qdiv, Qminus, Qplus, Qmult, Qinv, Qopp, inject_Z.
    cbn [Qnum Qden Z.opp Pos.mul].
    rewrite Z2Nat.id; Z.div_mod_to_equations; lia. }
  rewrite Hlen.
  change (Numpy.to_int 1) with 1%Z. change (Numpy.to_int (1 + 2)) with 3%Z.
  reflexivity.
Qed.

Lemma arange_down hf :
  Numpy.arange (inject_Z (Z.of_nat (2 * hf)) / 2 - 1) 0 (-2)
  = map (fun k => (Z.of_nat hf - 1 + Z.of_nat k * -2)%Z) (seq 0 (hf / 2)).
Proof.
  assert (Hs : Z.of_nat (2 * hf) = (2 * Z.of_nat hf)%Z) by lia.
  revert Hs. generalize (Z.of_nat (2 * hf)). intros s ->.
  unfold Numpy.arange.
  set (a := Z.of_nat hf). assert (Ha : (0 <= a)%Z) by lia.
  assert (Hlen : Z.to_nat (Qceiling ((0 - (inject_Z (2 * a) / 2 - 1)) / -2)) = (hf / 2)%nat).
  { apply Nat2Z.inj. rewrite Nat2Z.inj_div. change (Z.of_nat 2) with 2%Z. fold a.
    clearbody a.
    unfold Qceiling, Qfloor, Qdiv, Qminus, Qplus, Qmult, Qinv, Qopp, inject_Z.
    cbn [Qnum Qden Z.opp Pos.mul].
    rewrite Z2Nat.id; Z.div_mod_to_equations; lia. }
  assert (Hfirst : Numpy.to_int (inject_Z (2 * a) / 2 - 1) = (a - 1)%Z).
  { clearbody a.
    unfold Numpy.to_int, Qceiling, Qfloor, Qle_bool, Qdiv, Qminus, Qplus, Qmult, Qinv,
      Qopp, inject_Z.
    cbn [Qnum Qden Z.opp Pos.mul].
    destruct (_ <=? _)%Z; Z.div_mod_to_equations; lia. }
  assert (Hnext : Numpy.to_int (inject_Z (2 * a) / 2 - 1 + -2) = (a - 3)%Z).
  { clearbody a.
    unfold Numpy.to_int, Qceiling, Qfloor, Qle_bool, Qdiv, Qminus, Qplus, Qmult, Qinv,
      Qopp, inject_Z.
    cbn [Qnum Qden Z.opp Pos.mul].
    destruct (_ <=? _)%Z; Z.div_mod_to_equations; lia. }
  rewrite Hlen, Hfirst, Hnext. apply map_ext. intros k. lia.
Qed.

Lemma odds_upto_even q :
  odds_upto (2 * Z.of_nat q) = map (fun k => (1 + Z.of_nat k * 2)%Z) (seq 0 q).
Proof.
  unfold odds_upto.
  replace (Z.to_nat (2 * Z.of_nat q)) with (q + q)%nat by lia.
  induction q as [|q IH]; [reflexivity|].
  replace (S q + S q)%nat with (q + q + 2)%nat by lia.
  rewrite seq_app, map_app, filter_app, IH.
  replace (seq 0 (S q)) with (seq 0 (q + 1)) by (f_equal; lia).
  rewrite seq_app, map_app. f_equal.
  cbn [seq map filter Nat.add].
  replace (Z.odd (Z.of_nat (S (q + q)))) with true
    by (symmetry; rewrite Z.odd_spec; exists (Z.of_nat q); lia).
  replace (Z.odd (Z.of_nat (S (S (q + q))))) with false
    by (symmetry; rewrite <- Z.negb_even, Bool.negb_false_iff, Z.even_spec;
        exists (Z.of_nat q + 1)%Z; lia).
  f_equal. lia.
Qed.

Lemma odds_upto_pred q :
  odds_upto (2 * Z.of_nat q - 1) = odds_upto (2 * Z.of_nat q).
Proof.
  destruct q as [|q]; [reflexivity|].
  unfold odds_upto.
  replace (Z.to_nat (2 * Z.of_nat (S q))) with (Z.to_nat (2 * Z.of_nat (S q) - 1) + 1)%nat by lia.
  rewrite seq_app, map_app, filter_app. cbn [seq map filter].
  replace (Z.odd (Z.of_nat (1 + Z.to_nat (2 * Z.of_nat (S q) - 1)))) with false
    by (symmetry; rewrite <- Z.negb_even, Bool.negb_false_iff, Z.even_spec;
        exists (Z.of_nat (S q)); lia).
  now rewrite app_nil_r.
Qed.

Lemma rev_odds q :
  rev (map (fun k => (1 + Z.of_nat k * 2)%Z) (seq 0 q))
  = map (fun k => (2 * Z.of_nat q - 1 + Z.of_nat k * -2)%Z) (seq 0 q).
Proof.
  induction q as [|q IH]; [reflexivity|].
  replace (S q) with (q + 1)%nat at 1 by lia.
  rewrite seq_app, map_app, rev_app_distr, IH. cbn [seq map rev app Nat.add].
  f_equal; [lia|].
  rewrite <- seq_shift, map_map. apply map_ext. intros; lia.
Qed.

(** On sizes divisible by four the source's index array is the one the
    specification words describe. *)
Lemma ramp_index_even hf :
  ramp_index (2 * hf)
  = map (fun k => (1 + Z.of_nat k * 2)%Z) (seq 0 ((hf + 1) / 2))
    ++ map (fun k => (Z.of_nat hf - 1 + Z.of_nat k * -2)%Z) (seq 0 (hf / 2)).
Proof. unfold ramp_index. now rewrite arange_up, arange_down. Qed.

Lemma ramp_index_mul4_halves q :
  ramp_index (4 * q)
  = map (fun k => (1 + Z.of_nat k * 2)%Z) (seq 0 q)
    ++ map (fun k => (2 * Z.of_nat q - 1 + Z.of_nat k * -2)%Z) (seq 0 q).
Proof.
  replace (4 * q)%nat with (2 * (2 * q))%nat by lia. rewrite ramp_index_even.
  replace ((2 * q + 1) / 2)%nat with q
    by (apply (Nat.div_unique _ 2 q 1); lia).
  replace (2 * q / 2)%nat with q
    by (apply (Nat.div_unique _ 2 q 0); lia).
  f_equal. apply map_ext. intros k. lia.
Qed.

Lemma ramp_index_mul4 q : ramp_index (4 * q) = ramp_index_spec (4 * q).
Proof.
  rewrite ramp_index_mul4_halves. unfold ramp_index_spec.
  replace (Z.of_nat (4 * q) / 2)%Z with (2 * Z.of_nat q)%Z
    by (replace (Z.of_nat (4 * q)) with (2 * Z.of_nat q * 2)%Z by lia;
        now rewrite Z.div_mul by lia).
  now rewrite odds_upto_pred, odds_upto_even, rev_odds.
Qed.

Lemma ramp_index_length_mul4 q : length (ramp_index (4 * q)) = (2 * q)%nat.
Proof.
  rewrite ramp_index_mul4_halves, length_app, !length_map, !length_seq. lia.
Qed.

Lemma nth_map_seq {A : Type} (g : nat -> A) n i d :
  (i < n)%nat -> nth i (map g (seq 0 n)) d = g i.
Proof.
  intros Hi. rewrite (nth_indep _ d (g 0%nat)) by now rewrite length_map, length_seq.
  rewrite map_nth, seq_nth by assumption. reflexivity.
Qed.

Lemma ramp_response_ok q :
  (1 <= q)%nat ->
  exists f,
    ramp_response (4 * q) = Ok f /\
    length f = (4 * q)%nat /\
    nth 0 f 0 = 0.25 /\
    (forall i, (i < 4 * q)%nat -> Nat.odd i = true ->
       nth i f 0 = -1 / ((PI * IZR (nth (i / 2) (ramp_index (4 * q)) 0%Z))
                         * (PI * IZR (nth (i / 2) (ramp_index (4 * q)) 0%Z)))) /\
    (forall i, (0 < i < 4 * q)%nat -> Nat.even i = true -> nth i f 0 = 0).
Proof.
  intros Hq. unfold ramp_response, Numpy.setitem, Numpy.zeros.
  rewrite repeat_length.
  replace (0 <? 4 * q)%nat with true by (symmetry; apply Nat.ltb_lt; lia).
  cbn [guard bind firstn app]. unfold Numpy.setitem_odd.
  assert (Hlen : length (0.25 :: skipn 1 (List.repeat 0 (4 * q))) = (4 * q)%nat).
  { cbn [length]. rewrite length_skipn, repeat_length. lia. }
  rewrite Hlen, length_map, ramp_index_length_mul4.
  replace (4 * q / 2)%nat with (2 * q)%nat
    by (replace (4 * q)%nat with (2 * q * 2)%nat by lia; now rewrite Nat.div_mul).
  rewrite Nat.eqb_refl. cbn [orb guard bind].
  replace (2 * q =? 1)%nat with false by (symmetry; apply Nat.eqb_neq; lia).
  eexists. split; [reflexivity|]. split; [now rewrite length_map, length_seq|].
  split; [|split].
  - rewrite nth_map_seq by lia. reflexivity.
  - intros i Hi Hodd. rewrite nth_map_seq, Hodd by assumption.
    assert (Hi2 : (i / 2 < 2 * q)%nat) by (apply Nat.Div0.div_lt_upper_bound; lia).
    rewrite (nth_indep _ 0 ((fun n_i => -1 / (PI * IZR n_i * (PI * IZR n_i))) 0%Z))
      by now rewrite length_map, ramp_index_length_mul4.
    exact (map_nth (fun n_i => -1 / (PI * IZR n_i * (PI * IZR n_i))) _ 0%Z (i / 2)).
  - intros i Hi Hev. rewrite nth_map_seq by lia.
    rewrite <- Nat.negb_even, Hev. cbn [negb].
    destruct i as [|i]; [lia|]. cbn [nth].
    destruct q as [|q]; [lia|].
    replace (4 * S q)%nat with (S (4 * q + 3)) by lia. cbn [List.repeat skipn].
    apply nth_repeat.
Qed.

Lemma rampfilter_ok q :
  (1 <= q)%nat ->
  exists f t,
    ramp_response (4 * q) = Ok f /\
    rampfilter (4 * q) = Ok t /\
    shape t = [(4 * q)%nat] /\
    forall k, (k < 4 * q)%nat ->
      flat t k = 2 * rsum (4 * q) (fun m => nth m f 0 * Rtrigo_def.cos (twiddle k m (4 * q))).
Proof.
  intros Hq. destruct (ramp_response_ok q Hq) as (f & Hf & Hlen & _).
  exists f. eexists. unfold rampfilter. rewrite Hf. cbn [bind].
  split; [reflexivity|]. split; [reflexivity|]. split.
  - unfold Numpy.to_tensor, Numpy.real_fft. cbn [shape].
    now rewrite !length_map, length_seq, Hlen.
  - intros k Hk. unfold Numpy.to_tensor, Numpy.real_fft. cbn [flat].
    rewrite map_map, Hlen, nth_map_seq by assumption. reflexivity.
Qed.

(** ** The padded detector length *)

Lemma padded_pow2 det :
  (1 <= det)%nat ->
  exists k, fbp.projection_size_padded det = (2 ^ k)%nat.
Proof.
  intros _. unfold fbp.projection_size_padded.
  destruct (Nat.max_spec 64 (2 ^ Nat.log2_up (2 * det))) as [[_ ->]|[_ ->]].
  - eexists; reflexivity.
  - exists 6%nat. reflexivity.
Qed.

Lemma padded_mul4 det :
  exists q, (1 <= q)%nat /\ fbp.projection_size_padded det = (4 * q)%nat.
Proof.
  unfold fbp.projection_size_padded.
  destruct (Nat.max_spec 64 (2 ^ Nat.log2_up (2 * det))) as [[Hlt ->]|[_ ->]].
  - remember (Nat.log2_up (2 * det)) as l eqn:El. clear El.
    destruct l as [|[|l]]; cbn in Hlt; try lia.
    exists (2 ^ l)%nat. split.
    + pose proof (Nat.pow_nonzero 2 l). lia.
    + rewrite !Nat.pow_succ_r'. lia.
  - exists 16%nat. split; [lia | reflexivity].
Qed.

Lemma padded_ge det :
  (1 <= det)%nat ->
  (2 * det <= fbp.projection_size_padded det)%nat /\
  (64 <= fbp.projection_size_padded det)%nat.
Proof.
  intros Hd. unfold fbp.projection_size_padded.
  pose proof (Nat.log2_up_spec (2 * det) ltac:(lia)) as [_ Hup]. lia.
Qed.

(** ** Symbolic evaluation of the tensor operations *)

Ltac bounds := unfold in_bounds; repeat (constructor; try lia).

Ltac list_step :=
  cbn [bind guard shape flat length firstn skipn app nth combine map fst snd
       rev remove_at insert_at set_nth last removelast List.repeat
       filter is_infer known seq index_of existsb forallb andb orb negb].

Lemma ltb_true a b : (a < b)%nat -> (a <? b)%nat = true.
Proof. apply Nat.ltb_lt. Qed.

Lemma get_reshaped {A : Type} (t : tensor A) s idx idx0 :
  ravel s idx = ravel (shape t) idx0 ->
  get (Tensor s (flat t)) idx = get t idx0.
Proof. intros H. unfold get. cbn [shape flat]. now rewrite H. Qed.

Lemma filter_infer_D s : filter is_infer (map D s) = [].
Proof. induction s; auto. Qed.

Lemma known_D s : map known (map D s) = s.
Proof. rewrite map_map. apply map_id. Qed.

Lemma infer_shape_known m s :
  m = numel s -> infer_shape m (map D s) = Ok s.
Proof.
  intros ->. unfold infer_shape.
  rewrite filter_infer_D, known_D. cbn [length]. now rewrite Nat.eqb_refl.
Qed.

Lemma infer_shape_mismatch m s :
  m <> numel s -> infer_shape m (map D s) = Err RuntimeError.
Proof.
  intros Hne. unfold infer_shape.
  rewrite filter_infer_D, known_D. cbn [length].
  replace (m =? numel s)%nat with false by (symmetry; now apply Nat.eqb_neq).
  reflexivity.
Qed.

Lemma repeat4_spec {A : Type} (t : tensor A) d1 d2 d3 b :
  shape t = [1; d1; d2; d3]%nat ->
  exists r, repeat t [b; 1; 1; 1]%nat = Ok r /\
    shape r = [b; d1; d2; d3] /\
    forall b0 i j k, (b0 < b)%nat -> (i < d1)%nat -> (j < d2)%nat -> (k < d3)%nat ->
      get r [b0; i; j; k] = get t [0; i; j; k]%nat.
Proof.
  intros Hs. unfold repeat. rewrite Hs. list_step. cbn [Nat.leb Nat.sub].
  list_step.
  eexists. split; [reflexivity|]. split.
  - cbn [shape build]. now rewrite !Nat.mul_1_l, Nat.mul_1_r.
  - intros b0 i j k Hb Hi Hj Hk. rewrite get_build by bounds.
    list_step. rewrite Nat.mod_1_r, !Nat.mod_small by assumption. reflexivity.
Qed.

Lemma repeat2_spec {A : Type} (t : tensor A) d1 d2 b :
  shape t = [d1; d2] ->
  exists r, repeat t [b; 1; 1; 1]%nat = Ok r /\
    shape r = [b; 1%nat; d1; d2] /\
    forall b0 i j, (b0 < b)%nat -> (i < d1)%nat -> (j < d2)%nat ->
      get r [b0; 0%nat; i; j] = get t [i; j].
Proof.
  intros Hs. unfold repeat. rewrite Hs. list_step. cbn [Nat.leb Nat.sub].
  list_step.
  eexists. split; [reflexivity|]. split.
  - cbn [shape build]. now rewrite !Nat.mul_1_l, Nat.mul_1_r.
  - intros b0 i j Hb Hi Hj. rewrite get_build by bounds.
    list_step. rewrite !Nat.mod_small by assumption. reflexivity.
Qed.

Lemma grid_sample_spec (input grid : tensor R) n c h w ho wo :
  shape input = [n; c; h; w] -> shape grid = [n; ho; wo; 2%nat] ->
  (1 <= h)%nat -> (1 <= w)%nat ->
  exists r, grid_sample input grid = Ok r /\
    shape r = [n; c; ho; wo] /\
    forall b ch i j, (b < n)%nat -> (ch < c)%nat -> (i < ho)%nat -> (j < wo)%nat ->
      get r [b; ch; i; j] =
      bilinear (fun y x => get input [b; ch; y; x]) h w
               (get grid [b; i; j; 0%nat]) (get grid [b; i; j; 1%nat]).
Proof.
  intros Hi Hg Hh Hw. unfold grid_sample. rewrite Hi, Hg.
  rewrite Nat.eqb_refl, !ltb_true by lia.
  list_step. cbn [Nat.eqb]. list_step.
  eexists. split; [reflexivity|]. split; [reflexivity|].
  intros. rewrite get_build by bounds. reflexivity.
Qed.

Lemma grid_sample_empty (input grid : tensor R) n c h w :
  shape input = [n; c; h; w] -> (h = 0 \/ w = 0)%nat ->
  grid_sample input grid = Err RuntimeError.
Proof.
  intros Hi Hz. unfold grid_sample. rewrite Hi.
  destruct (shape grid) as [|ng [|ho [|wo [|two [|]]]]]; try reflexivity.
  replace ((n =? ng) && (two =? 2) && (0 <? h) && (0 <? w))%nat with false; [reflexivity|].
  symmetry. destruct Hz; subst; cbn [Nat.ltb Nat.leb]; 
    rewrite ?andb_false_r; reflexivity.
Qed.

Lemma sum_dim5_3_spec (t : tensor R) d0 d1 d2 d3 d4 :
  shape t = [d0; d1; d2; d3; d4] ->
  exists r, sum_dim t 3 = Ok r /\
    shape r = [d0; d1; d2; d4] /\
    forall i0 i1 i2 i4, (i0 < d0)%nat -> (i1 < d1)%nat -> (i2 < d2)%nat -> (i4 < d4)%nat ->
      get r [i0; i1; i2; i4] = rsum d3 (fun k => get t [i0; i1; i2; k; i4]).
Proof.
  intros Hs. unfold sum_dim. rewrite Hs. list_step. cbn [Nat.ltb Nat.leb]. list_step.
  eexists. split; [reflexivity|]. split; [reflexivity|].
  intros. rewrite get_build by bounds. reflexivity.
Qed.

Lemma sum_dim5_1_spec (t : tensor R) d0 d1 d2 d3 d4 :
  shape t = [d0; d1; d2; d3; d4] ->
  exists r, sum_dim t 1 = Ok r /\
    shape r = [d0; d2; d3; d4] /\
    forall i0 i2 i3 i4, (i0 < d0)%nat -> (i2 < d2)%nat -> (i3 < d3)%nat -> (i4 < d4)%nat ->
      get r [i0; i2; i3; i4] = rsum d1 (fun k => get t [i0; k; i2; i3; i4]).
Proof.
  intros Hs. unfold sum_dim. rewrite Hs. list_step. cbn [Nat.ltb Nat.leb]. list_step.
  eexists. split; [reflexivity|]. split; [reflexivity|].
  intros. rewrite get_build by bounds. reflexivity.
Qed.

Lemma permute_0132_spec {A : Type} (t : tensor A) d0 d1 d2 d3 :
  shape t = [d0; d1; d2; d3] ->
  exists r, permute t [0; 1; 3; 2]%nat = Ok r /\
    shape r = [d0; d1; d3; d2] /\
    forall i0 i1 i2 i3, (i0 < d0)%nat -> (i1 < d1)%nat -> (i2 < d2)%nat -> (i3 < d3)%nat ->
      get r [i0; i1; i3; i2] = get t [i0; i1; i2; i3].
Proof.
  intros Hs. unfold permute. rewrite Hs.
  replace (((length [0; 1; 3; 2] =? length [d0; d1; d2; d3]) && is_perm [0; 1; 3; 2])%nat)
    with true by reflexivity.
  list_step.
  eexists. split; [reflexivity|]. split; [reflexivity|].
  intros. rewrite get_build by bounds. reflexivity.
Qed.

Lemma bdim_refl d : bdim d d = Some d.
Proof.
  unfold bdim. rewrite Nat.eqb_refl. destruct (d =? 1)%nat; reflexivity.
Qed.

Lemma bdim_1_r d : bdim d 1 = Some d.
Proof.
  unfold bdim. destruct (d =? 1)%nat eqn:E; [|reflexivity].
  apply Nat.eqb_eq in E. now subst.
Qed.

Lemma bdim_1_l d : bdim 1 d = Some d.
Proof. reflexivity. Qed.

Lemma bsel d i : (i < d)%nat -> (if (d =? 1)%nat then 0%nat else i) = i.
Proof.
  intros Hi. destruct (d =? 1)%nat eqn:E; [|reflexivity].
  apply Nat.eqb_eq in E. lia.
Qed.

Lemma map2_spec {A B C : Type} (f : A -> B -> C) a b s :
  broadcast_shapes (shape a) (shape b) = Some s ->
  map2 f a b = Ok (build s (fun idx => f (get a (bidx (shape a) idx))
                                         (get b (bidx (shape b) idx)))).
Proof. intros H. unfold map2. now rewrite H. Qed.

Ltac bcast :=
  unfold broadcast_shapes, bidx;
  cbn [rev app broadcast_rev bidx_rev option_map];
  rewrite ?bdim_refl, ?bdim_1_r, ?bdim_1_l;
  cbn [rev app broadcast_rev bidx_rev option_map].

(** Equal shapes of rank 2 and 4. *)
Lemma map2_same2 {A B C : Type} (f : A -> B -> C) a b d0 d1 :
  shape a = [d0; d1] -> shape b = [d0; d1] ->
  exists r, map2 f a b = Ok r /\ shape r = [d0; d1] /\
    forall i j, (i < d0)%nat -> (j < d1)%nat ->
      get r [i; j] = f (get a [i; j]) (get b [i; j]).
Proof.
  intros Ha Hb. eexists. split; [|split].
  - apply map2_spec. rewrite Ha, Hb. bcast. reflexivity.
  - reflexivity.
  - intros i j Hi Hj. rewrite get_build by bounds. rewrite Ha, Hb. bcast.
    now rewrite !bsel by assumption.
Qed.

Lemma map2_same4 {A B C : Type} (f : A -> B -> C) a b d0 d1 d2 d3 :
  shape a = [d0; d1; d2; d3] -> shape b = [d0; d1; d2; d3] ->
  exists r, map2 f a b = Ok r /\ shape r = [d0; d1; d2; d3] /\
    forall i j k l, (i < d0)%nat -> (j < d1)%nat -> (k < d2)%nat -> (l < d3)%nat ->
      get r [i; j; k; l] = f (get a [i; j; k; l]) (get b [i; j; k; l]).
Proof.
  intros Ha Hb. eexists. split; [|split].
  - apply map2_spec. rewrite Ha, Hb. bcast. reflexivity.
  - reflexivity.
  - intros i j k l Hi Hj Hk Hl. rewrite get_build by bounds. rewrite Ha, Hb. bcast.
    now rewrite !bsel by assumption.
Qed.

(** [(h, w)] against [(n, 1, 1)]. *)
Lemma map2_2_3 {A B C : Type} (f : A -> B -> C) a b n h w :
  shape a = [h; w] -> shape b = [n; 1; 1]%nat ->
  exists r, map2 f a b = Ok r /\ shape r = [n; h; w] /\
    forall k i j, (k < n)%nat -> (i < h)%nat -> (j < w)%nat ->
      get r [k; i; j] = f (get a [i; j]) (get b [k; 0; 0]%nat).
Proof.
  intros Ha Hb. eexists. split; [|split].
  - apply map2_spec. rewrite Ha, Hb. bcast. reflexivity.
  - reflexivity.
  - intros k i j Hk Hi Hj. rewrite get_build by bounds. rewrite Ha, Hb. bcast.
    now rewrite !bsel by assumption.
Qed.

Lemma map2_3_3 {A B C : Type} (f : A -> B -> C) a b n h w :
  shape a = [n; h; w] -> shape b = [n; h; w] ->
  exists r, map2 f a b = Ok r /\ shape r = [n; h; w] /\
    forall k i j, (k < n)%nat -> (i < h)%nat -> (j < w)%nat ->
      get r [k; i; j] = f (get a [k; i; j]) (get b [k; i; j]).
Proof.
  intros Ha Hb. eexists. split; [|split].
  - apply map2_spec. rewrite Ha, Hb. bcast. reflexivity.
  - reflexivity.
  - intros k i j Hk Hi Hj. rewrite get_build by bounds. rewrite Ha, Hb. bcast.
    now rewrite !bsel by assumption.
Qed.

(** [(n, h, w, 1)] against [(n, 1, 1, 1)]. *)
Lemma map2_4_4 {A B C : Type} (f : A -> B -> C) a b n h w :
  shape a = [n; h; w; 1%nat] -> shape b = [n; 1; 1; 1]%nat ->
  exists r, map2 f a b = Ok r /\ shape r = [n; h; w; 1%nat] /\
    forall k i j, (k < n)%nat -> (i < h)%nat -> (j < w)%nat ->
      get r [k; i; j; 0%nat] = f (get a [k; i; j; 0%nat]) (get b [k; 0; 0; 0]%nat).
Proof.
  intros Ha Hb. eexists. split; [|split].
  - apply map2_spec. rewrite Ha, Hb. bcast. reflexivity.
  - reflexivity.
  - intros k i j Hk Hi Hj. rewrite get_build by bounds. rewrite Ha, Hb. bcast.
    now rewrite !bsel by assumption.
Qed.

(** [(b, c, d, a)] against [(p, 1)]: the detector axis must agree. *)
Lemma map2_4_2 {A B C : Type} (f : A -> B -> C) x y b c d a :
  shape x = [b; c; d; a] -> shape y = [d; 1%nat] ->
  exists r, map2 f x y = Ok r /\ shape r = [b; c; d; a].
Proof.
  intros Ha Hb. eexists. split.
  - apply map2_spec. rewrite Ha, Hb. bcast. reflexivity.
  - reflexivity.
Qed.

Lemma map2_4_2_mismatch {A B C : Type} (f : A -> B -> C) x y b c d a p :
  shape x = [b; c; d; a] -> shape y = [p; 1%nat] ->
  d <> p -> d <> 1%nat -> p <> 1%nat ->
  map2 f x y = Err RuntimeError.
Proof.
  intros Ha Hb Hdp Hd Hp. unfold map2. rewrite Ha, Hb. bcast.
  unfold bdim.
  replace (d =? 1)%nat with false by (symmetry; now apply Nat.eqb_neq).
  replace (p =? 1)%nat with false by (symmetry; now apply Nat.eqb_neq).
  replace (d =? p)%nat with false by (symmetry; now apply Nat.eqb_neq).
  reflexivity.
Qed.

Lemma stack6_spec {A : Type} (t0 t1 t2 t3 t4 t5 : tensor A) n :
  shape t0 = [n; 1; 1]%nat -> shape t1 = [n; 1; 1]%nat -> shape t2 = [n; 1; 1]%nat ->
  shape t3 = [n; 1; 1]%nat -> shape t4 = [n; 1; 1]%nat -> shape t5 = [n; 1; 1]%nat ->
  exists r, stack_last [t0; t1; t2; t3; t4; t5] = Ok r /\
    shape r = [n; 1; 1; 6]%nat /\
    forall a k, (a < n)%nat -> (k < 6)%nat ->
      get r [a; 0; 0; k]%nat = get (nth k [t0; t1; t2; t3; t4; t5] t0) [a; 0; 0]%nat.
Proof.
  intros H0 H1 H2 H3 H4 H5. unfold stack_last, all_shapes.
  cbn [forallb]. rewrite H0, H1, H2, H3, H4, H5, !list_eqb_refl. list_step.
  eexists. split; [reflexivity|]. split; [reflexivity|].
  intros a k Ha Hk. rewrite get_build by bounds. reflexivity.
Qed.

Lemma affine_grid_spec (theta : tensor R) n h w :
  shape theta = [n; 2; 3]%nat -> (1 <= n)%nat -> (1 <= h)%nat -> (1 <= w)%nat ->
  exists r, affine_grid theta n 1 h w = Ok r /\
    shape r = [n; h; w; 2%nat] /\
    forall a i j k, (a < n)%nat -> (i < h)%nat -> (j < w)%nat -> (k < 2)%nat ->
      get r [a; i; j; k] =
      get theta [a; k; 0%nat] * linspace_from_neg_one w j
      + get theta [a; k; 1%nat] * linspace_from_neg_one h i
      + get theta [a; k; 2%nat] * 1.
Proof.
  intros Hs Hn Hh Hw. unfold affine_grid. rewrite Hs.
  replace (negb ((n =? 0) || (1 =? 0) || (h =? 0) || (w =? 0))%nat) with true.
  2:{ symmetry. destruct n, h, w; try lia. reflexivity. }
  rewrite Nat.eqb_refl. list_step.
  eexists. split; [reflexivity|]. split; [reflexivity|].
  intros. rewrite get_build by bounds. reflexivity.
Qed.

Lemma meshgrid_spec {A : Type} (a b : tensor A) p q :
  shape a = [p] -> shape b = [q] ->
  exists ga gb, meshgrid a b = Ok (ga, gb) /\
    shape ga = [p; q] /\ shape gb = [p; q] /\
    forall i j, (i < p)%nat -> (j < q)%nat ->
      get ga [i; j] = flat a i /\ get gb [i; j] = flat b j.
Proof.
  intros Ha Hb. unfold meshgrid. rewrite Ha, Hb.
  do 2 eexists. split; [reflexivity|]. split; [reflexivity|]. split; [reflexivity|].
  intros i j Hi Hj. rewrite !get_build by bounds. list_step.
  unfold get. rewrite Ha, Hb. cbn [ravel numel fold_right].
  now rewrite !Nat.mul_1_r, !Nat.add_0_r.
Qed.

Lemma cat_last_spec {A : Type} (a b : tensor A) n h w :
  shape a = [n; h; w; 1%nat] -> shape b = [n; h; w; 1%nat] ->
  exists r, cat_last a b = Ok r /\
    shape r = [n; h; w; 2%nat] /\
    forall k i j, (k < n)%nat -> (i < h)%nat -> (j < w)%nat ->
      get r [k; i; j; 0%nat] = get a [k; i; j; 0%nat] /\
      get r [k; i; j; 1%nat] = get b [k; i; j; 0%nat].
Proof.
  intros Ha Hb. unfold cat_last. rewrite Ha, Hb. list_step.
  rewrite list_eqb_refl. list_step.
  eexists. split; [reflexivity|]. split; [reflexivity|].
  intros k i j Hk Hi Hj. rewrite !get_build by bounds. list_step. split; reflexivity.
Qed.

Lemma pad2_shape {A : Type} (t : tensor A) b c d a p (v : A) :
  shape t = [b; c; d; a] ->
  exists r, pad2 t 0 0 0 p v = Ok r /\ shape r = [b; c; (d + p)%nat; a].
Proof.
  intros Hs. unfold pad2. rewrite Hs. list_step.
  eexists. split; [reflexivity|]. cbn [shape build].
  now rewrite !Nat.add_0_l, Nat.add_0_r.
Qed.

Lemma numel4_pos b c d a :
  (1 <= b)%nat -> (1 <= c)%nat -> (1 <= d)%nat -> (1 <= a)%nat ->
  negb (numel [b; c; d; a] =? 0)%nat = true.
Proof.
  intros Hb Hc Hd Ha. apply negb_true_iff, Nat.eqb_neq. cbn [numel fold_right].
  apply Nat.neq_0_lt_0. repeat apply Nat.mul_pos_pos; lia.
Qed.

Lemma numel4_zero b c d a :
  (b = 0 \/ c = 0 \/ d = 0 \/ a = 0)%nat ->
  negb (numel [b; c; d; a] =? 0)%nat = false.
Proof.
  intros Hz. apply negb_false_iff, Nat.eqb_eq. cbn [numel fold_right].
  destruct Hz as [-> | [-> | [-> | ->]]]; lia.
Qed.

Lemma fft_shape (t : tensor R) b c d a :
  shape t = [b; c; d; a] ->
  (1 <= b)%nat -> (1 <= c)%nat -> (1 <= d)%nat -> (1 <= a)%nat ->
  exists r, fft t 2 = Ok r /\ shape r = [b; c; d; a].
Proof.
  intros Hs Hb Hc Hd Ha. unfold fft. rewrite Hs. list_step.
  rewrite !ltb_true by (cbn; lia). rewrite numel4_pos by assumption. list_step.
  eexists. split; reflexivity.
Qed.

Lemma fft_empty (t : tensor R) b c d a :
  shape t = [b; c; d; a] -> (b = 0 \/ c = 0 \/ d = 0 \/ a = 0)%nat ->
  fft t 2 = Err RuntimeError.
Proof.
  intros Hs Hz. unfold fft. rewrite Hs. list_step.
  change (2 <? 4)%nat with true. rewrite (numel4_zero b c d a Hz).
  destruct (0 <? d)%nat; reflexivity.
Qed.

Lemma ifft_shape (t : tensor complex) b c d a :
  shape t = [b; c; d; a] ->
  (1 <= b)%nat -> (1 <= c)%nat -> (1 <= d)%nat -> (1 <= a)%nat ->
  exists r, ifft t 2 = Ok r /\ shape r = [b; c; d; a].
Proof.
  intros Hs Hb Hc Hd Ha. unfold ifft. rewrite Hs. list_step.
  rewrite !ltb_true by (cbn; lia). rewrite numel4_pos by assumption. list_step.
  eexists. split; reflexivity.
Qed.

Lemma narrow_shape {A : Type} (t : tensor A) b c d a len :
  shape t = [b; c; d; a] -> (len <= d)%nat ->
  exists r, narrow t 2 len = Ok r /\ shape r = [b; c; len; a].
Proof.
  intros Hs Hl. unfold narrow. rewrite Hs. list_step.
  rewrite !ltb_true by (cbn; lia). list_step.
  eexists. split; [reflexivity|]. cbn [shape build]. now rewrite Nat.min_l.
Qed.

Lemma masked_fill_spec {A : Type} (t : tensor A) (mask : tensor bool) (v : A) :
  shape mask = shape t ->
  exists r, masked_fill t mask v = Ok r /\
    shape r = shape t /\
    forall idx, get r idx = if get mask idx then v else get t idx.
Proof.
  intros Hs. unfold masked_fill. rewrite Hs, list_eqb_refl. list_step.
  eexists. split; [reflexivity|]. split; [reflexivity|].
  intros idx. unfold get. cbn [shape flat]. now rewrite Hs.
Qed.

Lemma get_tmap {A B : Type} (f : A -> B) (t : tensor A) idx :
  get (tmap f t) idx = f (get t idx).
Proof. reflexivity. Qed.

(** ** The projection angles *)

Lemma linspace_theta n k :
  (1 <= n)%nat -> (k < n)%nat ->
  flat (linspace 0 (PI - PI / INR n) n) k = INR k * PI / INR n.
Proof.
  intros Hn Hk. cbn [linspace flat].
  destruct n as [|[|n]]; [lia| |].
  - replace k with 0%nat by lia. cbn [INR]. lra.
  - assert (Hn0 : INR (S (S n)) <> 0) by (apply not_0_INR; lia).
    assert (Hn1 : INR (S (S n)) - 1 <> 0).
    { rewrite S_INR. pose proof (pos_INR n). rewrite S_INR. lra. }
    field. split; assumption.
Qed.

Lemma make_thetas_ok n :
  (1 <= n)%nat -> make_thetas n = Ok (thetas_of n).
Proof. intros H. unfold make_thetas. destruct n; [lia|]. reflexivity. Qed.

Example make_thetas_zero : make_thetas 0 = Err ZeroDivisionError.
Proof. reflexivity. Qed.

Lemma shape_thetas n : shape (thetas_of n) = [n; 1; 1]%nat.
Proof. reflexivity. Qed.

Lemma get_thetas n a :
  (1 <= n)%nat -> (a < n)%nat ->
  get (thetas_of n) [a; 0; 0]%nat = INR a * PI / INR n.
Proof.
  intros Hn Ha. unfold get. rewrite shape_thetas.
  cbn [ravel numel fold_right].
  replace (a * (1 * (1 * 1)) + (0 * (1 * 1) + (0 * 1 + 0)))%nat with a by lia.
  change (flat (thetas_of n)) with (flat (linspace 0 (PI - PI / INR n) n)).
  now apply linspace_theta.
Qed.

(** ** The forward operator *)

Lemma infer_rotations n :
  infer_shape (numel [n; 1; 1; 6]%nat) [Infer; D 2; D 3] = Ok [n; 2; 3]%nat.
Proof.
  unfold infer_shape. list_step. cbn [numel fold_right].
  replace (n * (1 * (1 * (6 * 1))))%nat with (n * 6)%nat by lia.
  replace (1 * (2 * (3 * 1)))%nat with 6%nat by reflexivity.
  rewrite Nat.Div0.mod_mul, Nat.div_mul by lia. reflexivity.
Qed.

Lemma infer_rotated n h :
  (1 <= h)%nat ->
  infer_shape (numel [n; h; h; 2%nat]) [D 1; Infer; D h; D 2]
  = Ok [1%nat; (n * h)%nat; h; 2%nat].
Proof.
  intros Hh. unfold infer_shape. list_step. cbn [numel fold_right].
  replace (n * (h * (h * (2 * 1))))%nat with (n * h * (h * 2))%nat by lia.
  replace (1 * (1 * (h * (2 * 1))))%nat with (h * 2)%nat by lia.
  replace (h * 2 =? 0)%nat with false by (symmetry; apply Nat.eqb_neq; lia).
  rewrite Nat.Div0.mod_mul, Nat.div_mul by lia. reflexivity.
Qed.

Lemma radon_init_spec n h :
  (1 <= n)%nat -> (1 <= h)%nat ->
  exists op, radon.init n h = Ok op /\
    radon.n_angles op = n /\
    shape (radon.rotated op) = [1%nat; (n * h)%nat; h; 2%nat] /\
    forall a i j, (a < n)%nat -> (i < h)%nat -> (j < h)%nat ->
      get (radon.rotated op) [0%nat; (a * h + i)%nat; j; 0%nat]
      = Rtrigo_def.cos (INR a * PI / INR n) * linspace_from_neg_one h j
        + Rtrigo_def.sin (INR a * PI / INR n) * linspace_from_neg_one h i + 0 * 1 /\
      get (radon.rotated op) [0%nat; (a * h + i)%nat; j; 1%nat]
      = - Rtrigo_def.sin (INR a * PI / INR n) * linspace_from_neg_one h j
        + Rtrigo_def.cos (INR a * PI / INR n) * linspace_from_neg_one h i + 0 * 1.
Proof.
  intros Hn Hh. unfold radon.init. rewrite make_thetas_ok by assumption.
  cbn [bind].
  destruct (stack6_spec (cos (thetas_of n)) (sin (thetas_of n))
              (zeros_like (cos (thetas_of n))) (neg (sin (thetas_of n)))
              (cos (thetas_of n)) (zeros_like (cos (thetas_of n))) n)
    as (st & Hst & Hsts & Hstg); try reflexivity.
  rewrite Hst. cbn [bind]. unfold reshape at 1.
  rewrite Hsts, infer_rotations. cbn [bind].
  set (rot := Tensor [n; 2; 3]%nat (flat st)).
  assert (Hrot : forall a r c, (a < n)%nat -> (r < 2)%nat -> (c < 3)%nat ->
            get rot [a; r; c] = get st [a; 0%nat; 0%nat; (3 * r + c)%nat]).
  { intros a r c Ha Hr Hc. apply get_reshaped. rewrite Hsts.
    cbn [ravel numel fold_right]. lia. }
  destruct (affine_grid_spec rot n h h) as (g & Hg & Hgs & Hgg);
    try assumption; try reflexivity.
  rewrite Hg. cbn [bind]. unfold reshape. rewrite Hgs, infer_rotated by assumption.
  cbn [bind]. eexists. split; [reflexivity|]. cbn [radon.n_angles radon.rotated].
  split; [reflexivity|]. split; [reflexivity|].
  intros a i j Ha Hi Hj.
  assert (Hget : forall k, (k < 2)%nat ->
            get (Tensor [1%nat; (n * h)%nat; h; 2%nat] (flat g))
                [0%nat; (a * h + i)%nat; j; k] = get g [a; i; j; k]).
  { intros k Hk. apply get_reshaped. rewrite Hgs. cbn [ravel numel fold_right]. ring. }
  rewrite !Hget, !Hgg, !Hrot, !Hstg by lia.
  cbn [Nat.mul Nat.add nth]. unfold neg, cos, sin, zeros_like.
  rewrite !get_tmap, !get_thetas by assumption.
  split; reflexivity.
Qed.

Lemma reshape_known {A : Type} (t : tensor A) s :
  numel (shape t) = numel s -> reshape t (map D s) = Ok (Tensor s (flat t)).
Proof. intros H. unfold reshape. now rewrite infer_shape_known. Qed.

Lemma reshape_mismatch {A : Type} (t : tensor A) s :
  numel (shape t) <> numel s -> reshape t (map D s) = Err RuntimeError.
Proof. intros H. unfold reshape. now rewrite infer_shape_mismatch. Qed.

Lemma radon_forward_spec n h op image b w :
  (1 <= n)%nat -> (1 <= h)%nat -> (1 <= w)%nat ->
  radon.init n h = Ok op ->
  shape image = [b; 1%nat; h; w] ->
  exists out, radon.forward op image = Ok out /\
    shape out = [b; 1%nat; h; n] /\
    forall b0 j a, (b0 < b)%nat -> (j < h)%nat -> (a < n)%nat ->
      get out [b0; 0%nat; j; a]
      = radon_value n h w (fun y x => get image [b0; 0%nat; y; x]) j a.
Proof.
  intros Hn Hh Hw Hinit Himg.
  destruct (radon_init_spec n h Hn Hh) as (op' & Hop & Hna & Hrs & Hrg).
  rewrite Hinit in Hop. injection Hop as <-.
  unfold radon.forward. rewrite Himg.
  destruct (repeat4_spec (radon.rotated op) (n * h) h 2 b Hrs) as (g & Hg & Hgs & Hgg).
  rewrite Hg. cbn [bind].
  destruct (grid_sample_spec image g b 1 h w (n * h) h Himg Hgs Hh Hw)
    as (sm & Hsm & Hsms & Hsmg).
  rewrite Hsm, Hna. cbn [bind].
  change [D b; D 1%nat; D n; D h; D h] with (map D [b; 1%nat; n; h; h]).
  rewrite reshape_known by (rewrite Hsms; cbn [numel fold_right]; ring).
  cbn [bind].
  set (fl := Tensor [b; 1%nat; n; h; h] (flat sm)).
  destruct (sum_dim5_3_spec fl b 1 n h h eq_refl) as (sd & Hsd & Hsds & Hsdg).
  rewrite Hsd. cbn [bind].
  destruct (permute_0132_spec sd b 1 n h Hsds) as (out & Hout & Houts & Houtg).
  rewrite Hout. exists out. split; [reflexivity|]. split; [assumption|].
  intros b0 j a Hb0 Hj Ha.
  rewrite Houtg, Hsdg by lia. unfold radon_value.
  apply rsum_ext. intros i Hi.
  assert (Hfl : get fl [b0; 0%nat; a; i; j] = get sm [b0; 0%nat; (a * h + i)%nat; j]).
  { apply get_reshaped. rewrite Hsms. cbn [ravel numel fold_right]. ring. }
  assert (Hah : (a * h + i < n * h)%nat) by nia.
  rewrite Hfl, Hsmg, !Hgg by lia.
  destruct (Hrg a i j Ha Hi Hj) as [-> ->]. reflexivity.
Qed.

Lemma radon_forward_height_mismatch n h op image b ss w :
  (1 <= n)%nat -> (1 <= h)%nat -> (1 <= b)%nat ->
  radon.init n h = Ok op ->
  shape image = [b; 1%nat; ss; w] -> ss <> h ->
  radon.forward op image = Err RuntimeError.
Proof.
  intros Hn Hh Hb Hinit Himg Hss.
  destruct (radon_init_spec n h Hn Hh) as (op' & Hop & Hna & Hrs & Hrg).
  rewrite Hinit in Hop. injection Hop as <-.
  unfold radon.forward. rewrite Himg.
  destruct (repeat4_spec (radon.rotated op) (n * h) h 2 b Hrs) as (g & Hg & Hgs & Hgg).
  rewrite Hg. cbn [bind].
  destruct (Nat.eq_dec ss 0) as [->|Hss0];
    [now rewrite (grid_sample_empty image g b 1 0 w) by auto|].
  destruct (Nat.eq_dec w 0) as [->|Hw0];
    [now rewrite (grid_sample_empty image g b 1 ss 0) by auto|].
  destruct (grid_sample_spec image g b 1 ss w (n * h) h Himg Hgs)
    as (sm & Hsm & Hsms & Hsmg); try lia.
  rewrite Hsm, Hna. cbn [bind].
  change [D b; D 1%nat; D n; D ss; D ss] with (map D [b; 1%nat; n; ss; ss]).
  rewrite reshape_mismatch; [reflexivity|].
  rewrite Hsms. cbn [numel fold_right].
  assert (h * h <> ss * ss)%nat by nia.
  intros Heq. apply H.
  assert (Hbn : (b * n <> 0)%nat) by nia.
  apply (Nat.mul_cancel_l _ _ (b * n)%nat Hbn). lia.
Qed.

(** ** The backward operator *)

Lemma get_unsqueeze3 (t : tensor R) n a :
  shape t = [n] ->
  get (unsqueeze (unsqueeze (unsqueeze t 1%nat) 2%nat) 3%nat) [a; 0; 0; 0]%nat = flat t a.
Proof.
  intros Hs. unfold get, unsqueeze. cbn [shape flat]. rewrite Hs.
  cbn [insert_at firstn skipn app ravel numel fold_right]. f_equal. lia.
Qed.

Lemma fbp_init_spec n h circle filtered :
  (1 <= n)%nat -> (1 <= h)%nat ->
  exists op, fbp.init n h circle filtered = Ok op /\
    fbp.image_size op = h /\
    fbp.step_size op = INR h / INR h /\
    fbp.n_angles op = n /\
    fbp.circle op = circle /\
    fbp.filtered op = filtered /\
    fbp.pad_width op = (fbp.projection_size_padded h - h)%nat /\
    rampfilter (fbp.projection_size_padded h) = Ok (fbp.filter op) /\
    shape (fbp.filter op) = [fbp.projection_size_padded h] /\
    shape (fbp.grid op) = [1%nat; (n * h)%nat; h; 2%nat] /\
    (forall a i j, (a < n)%nat -> (i < h)%nat -> (j < h)%nat ->
       get (fbp.grid op) [0%nat; (a * h + i)%nat; j; 0%nat]
       = 1 * flat (linspace (-1) 1 n) a /\
       get (fbp.grid op) [0%nat; (a * h + i)%nat; j; 1%nat]
       = flat (linspace (-1) 1 h) j * Rtrigo_def.cos (INR a * PI / INR n)
         - flat (linspace (-1) 1 h) i * Rtrigo_def.sin (INR a * PI / INR n)) /\
    shape (fbp.reconstruction_circle op) = [h; h].
Proof.
  intros Hn Hh. unfold fbp.init.
  replace (negb (h =? 0)%nat) with true
    by (symmetry; apply negb_true_iff, Nat.eqb_neq; lia).
  cbn [guard bind].
  destruct (padded_mul4 h) as (q & Hq & HP).
  destruct (rampfilter_ok q Hq) as (f & flt & _ & Hflt & Hflts & _).
  rewrite <- HP in Hflt, Hflts. rewrite Hflt, make_thetas_ok by assumption.
  cbn [bind].
  set (lin := linspace (-1) 1 h).
  destruct (meshgrid_spec lin lin h h eq_refl eq_refl)
    as (gy & gx & Hmg & Hgys & Hgxs & Hgg).
  rewrite Hmg. cbn [bind fst snd].
  destruct (map2_2_3 Rmult gx (cos (thetas_of n)) n h h Hgxs eq_refl)
    as (xc & Hxc & Hxcs & Hxcg).
  unfold mul at 1. rewrite Hxc. cbn [bind].
  destruct (map2_2_3 Rmult gy (sin (thetas_of n)) n h h Hgys eq_refl)
    as (ys & Hys & Hyss & Hysg).
  unfold mul at 1. rewrite Hys. cbn [bind].
  destruct (map2_3_3 Rminus xc ys n h h Hxcs Hyss) as (rot & Hrot & Hrots & Hrotg).
  unfold sub. rewrite Hrot. cbn [bind].
  assert (Htgs : shape (unsqueeze_last rot) = [n; h; h; 1%nat]).
  { unfold unsqueeze_last, unsqueeze. cbn [shape]. now rewrite Hrots. }
  assert (Htgg : forall a i j, get (unsqueeze_last rot) [a; i; j; 0%nat] = get rot [a; i; j]).
  { intros a i j. unfold get. rewrite Htgs, Hrots. cbn [unsqueeze_last unsqueeze flat].
    f_equal; cbn [ravel numel fold_right]; lia. }
  set (tg := unsqueeze_last rot) in *.
  destruct (map2_4_4 Rmult (ones_like tg)
              (unsqueeze (unsqueeze (unsqueeze (linspace (-1) 1 n) 1%nat) 2%nat) 3%nat)
              n h h Htgs eq_refl) as (y & Hy & Hyshape & Hyg).
  unfold mul. rewrite Hy. cbn [bind].
  destruct (cat_last_spec y tg n h h Hyshape Htgs) as (jn & Hjn & Hjns & Hjng).
  rewrite Hjn. cbn [bind]. unfold view.
  change [D (n * h)%nat; D h; D 2%nat] with (map D [(n * h)%nat; h; 2%nat]).
  rewrite reshape_known by (rewrite Hjns; cbn [numel fold_right]; ring).
  cbn [bind].
  destruct (map2_same2 Rplus (square gx) (square gy) h h Hgxs Hgys)
    as (rad & Hrad & Hrads & Hradg).
  unfold add. rewrite Hrad. cbn [bind].
  eexists. split; [reflexivity|].
  cbn [fbp.image_size fbp.step_size fbp.n_angles fbp.circle fbp.filtered
       fbp.pad_width fbp.filter fbp.grid fbp.reconstruction_circle].
  repeat (split; [reflexivity || assumption|]).
  split.
  { intros a i j Ha Hi Hj.
    assert (Hget : forall k,
              get (unsqueeze (Tensor [(n * h)%nat; h; 2%nat] (flat jn)) 0)
                  [0%nat; (a * h + i)%nat; j; k] = get jn [a; i; j; k]).
    { intros k. unfold get, unsqueeze. cbn [shape flat]. rewrite Hjns.
      f_equal. cbn [insert_at firstn skipn app ravel numel fold_right]. ring. }
    rewrite !Hget. destruct (Hjng a i j Ha Hi Hj) as [-> ->].
    rewrite Hyg, Htgg, Hrotg, Hxcg, Hysg by assumption.
    destruct (Hgg i j Hi Hj) as [-> ->].
    unfold cos, sin. rewrite !get_tmap, get_thetas by assumption.
    rewrite (get_unsqueeze3 _ n) by reflexivity.
    split; reflexivity. }
  exact Hrads.
Qed.

Lemma padded_pad det :
  (1 <= det)%nat ->
  (det + (fbp.projection_size_padded det - det) = fbp.projection_size_padded det)%nat /\
  (32 <= fbp.projection_size_padded det - det)%nat.
Proof.
  intros Hd. destruct (padded_ge det Hd). lia.
Qed.

Lemma fbp_filter_stage n h circle op (input : tensor R) b c ang :
  (1 <= n)%nat -> (1 <= h)%nat ->
  fbp.init n h circle true = Ok op ->
  shape input = [b; c; h; ang] ->
  (1 <= b)%nat -> (1 <= c)%nat -> (1 <= ang)%nat ->
  exists rf,
    (padded_input <- pad2 input 0 0 0 (fbp.pad_width op) 0 ;;
     spectrum <- fft padded_input 2 ;;
     projection <- map2 cmul_real spectrum (unsqueeze (fbp.filter op) 1) ;;
     back <- ifft projection 2 ;;
     narrow (real back) 2 h) = Ok rf /\
    shape rf = [b; c; h; ang].
Proof.
  intros Hn Hh Hinit Hin Hb Hc Hang.
  destruct (fbp_init_spec n h circle true Hn Hh)
    as (op' & Hop & _ & _ & _ & _ & _ & Hpw & _ & Hfs & _).
  rewrite Hinit in Hop. injection Hop as <-.
  destruct (padded_pad h Hh) as [HP Hpad]. rewrite Hpw.
  set (P := fbp.projection_size_padded h) in *.
  destruct (pad2_shape input b c h ang (P - h) 0 Hin) as (pi & Hpi & Hpis).
  rewrite Hpi, HP in *. cbn [bind].
  destruct (fft_shape pi b c P ang Hpis Hb Hc ltac:(lia) Hang) as (sp & Hsp & Hsps).
  rewrite Hsp. cbn [bind].
  assert (Hfu : shape (unsqueeze (fbp.filter op) 1) = [P; 1%nat]).
  { unfold unsqueeze. cbn [shape]. now rewrite Hfs. }
  destruct (map2_4_2 cmul_real sp (unsqueeze (fbp.filter op) 1) b c P ang Hsps Hfu)
    as (pr & Hpr & Hprs).
  rewrite Hpr. cbn [bind].
  destruct (ifft_shape pr b c P ang Hprs Hb Hc ltac:(lia) Hang) as (bk & Hbk & Hbks).
  rewrite Hbk. cbn [bind].
  destruct (narrow_shape (real bk) b c P ang h Hbks ltac:(lia)) as (rf & Hrf & Hrfs).
  rewrite Hrf. now exists rf.
Qed.

(** On a sinogram without elements the filtering stops at the transform. *)
Lemma fbp_filter_stage_empty n h circle op (input : tensor R) b c det ang :
  (1 <= n)%nat -> (1 <= h)%nat ->
  fbp.init n h circle true = Ok op ->
  shape input = [b; c; det; ang] ->
  (b = 0 \/ c = 0 \/ ang = 0)%nat ->
  (padded_input <- pad2 input 0 0 0 (fbp.pad_width op) 0 ;;
   spectrum <- fft padded_input 2 ;;
   projection <- map2 cmul_real spectrum (unsqueeze (fbp.filter op) 1) ;;
   back <- ifft projection 2 ;;
   narrow (real back) 2 det) = Err RuntimeError.
Proof.
  intros Hn Hh Hinit Hin Hz.
  destruct (fbp_init_spec n h circle true Hn Hh)
    as (op' & Hop & _ & _ & _ & _ & _ & Hpw & _ & Hfs & _).
  rewrite Hinit in Hop. injection Hop as <-.
  rewrite Hpw.
  set (P := fbp.projection_size_padded h) in *.
  destruct (pad2_shape input b c det ang (P - h) 0 Hin) as (pi & Hpi & Hpis).
  rewrite Hpi. cbn [bind].
  rewrite (fft_empty pi b c (det + (P - h)) ang Hpis) by tauto.
  reflexivity.
Qed.

Lemma fbp_filter_stage_mismatch n h circle op (input : tensor R) b c det ang :
  (1 <= n)%nat -> (1 <= h)%nat ->
  fbp.init n h circle true = Ok op ->
  shape input = [b; c; det; ang] -> det <> h ->
  (padded_input <- pad2 input 0 0 0 (fbp.pad_width op) 0 ;;
   spectrum <- fft padded_input 2 ;;
   projection <- map2 cmul_real spectrum (unsqueeze (fbp.filter op) 1) ;;
   back <- ifft projection 2 ;;
   narrow (real back) 2 det) = Err RuntimeError.
Proof.
  intros Hn Hh Hinit Hin Hdet.
  destruct (Nat.eq_dec b 0) as [Hb | Hb];
    [apply (fbp_filter_stage_empty n h circle op input b c det ang); tauto|].
  destruct (Nat.eq_dec c 0) as [Hc | Hc];
    [apply (fbp_filter_stage_empty n h circle op input b c det ang); tauto|].
  destruct (Nat.eq_dec ang 0) as [Hang | Hang];
    [apply (fbp_filter_stage_empty n h circle op input b c det ang); tauto|].
  destruct (fbp_init_spec n h circle true Hn Hh)
    as (op' & Hop & _ & _ & _ & _ & _ & Hpw & _ & Hfs & _).
  rewrite Hinit in Hop. injection Hop as <-.
  destruct (padded_pad h Hh) as [HP Hpad]. rewrite Hpw.
  set (P := fbp.projection_size_padded h) in *.
  destruct (pad2_shape input b c det ang (P - h) 0 Hin) as (pi & Hpi & Hpis).
  rewrite Hpi. cbn [bind].
  destruct (fft_shape pi b c (det + (P - h)) ang Hpis
              ltac:(lia) ltac:(lia) ltac:(lia) ltac:(lia)) as (sp & Hsp & Hsps).
  rewrite Hsp. cbn [bind].
  assert (Hfu : shape (unsqueeze (fbp.filter op) 1) = [P; 1%nat]).
  { unfold unsqueeze. cbn [shape]. now rewrite Hfs. }
  rewrite (map2_4_2_mismatch cmul_real sp (unsqueeze (fbp.filter op) 1)
             b c (det + (P - h)) ang P Hsps Hfu) by lia.
  reflexivity.
Qed.

Lemma fbp_forward_spec n h circle filtered op input b det ang :
  (1 <= n)%nat -> (1 <= h)%nat -> (1 <= det)%nat -> (1 <= ang)%nat ->
  fbp.init n h circle filtered = Ok op ->
  shape input = [b; 1%nat; det; ang] ->
  (filtered = true -> det = h) ->
  (filtered = true -> (1 <= b)%nat) ->
  exists rf out,
    shape rf = [b; 1%nat; det; ang] /\
    (filtered = false -> rf = input) /\
    fbp.forward op input = Ok out /\
    shape out = [b; 1%nat; h; h] /\
    forall b0 i j, (b0 < b)%nat -> (i < h)%nat -> (j < h)%nat ->
      get out [b0; 0%nat; i; j]
      = (if circle && negb (get (fbp.reconstruction_circle op) [i; j]) then 0
         else backprojection n h det ang (fun y x => get rf [b0; 0%nat; y; x]) i j
              / (INR h / INR h))
        * PI / INR (2 * n).
Proof.
  intros Hn Hh Hdet Hang Hinit Hin Hfd Hfb.
  destruct (fbp_init_spec n h circle filtered Hn Hh)
    as (op' & Hop & His & Hss & Hna & Hc & Hf & Hpw & _ & Hfs & Hgs & Hgg & Hrs).
  rewrite Hinit in Hop. injection Hop as <-.
  assert (Hstage : exists rf,
            (if fbp.filtered op
             then padded_input <- pad2 input 0 0 0 (fbp.pad_width op) 0 ;;
                  spectrum <- fft padded_input 2 ;;
                  projection <- map2 cmul_real spectrum (unsqueeze (fbp.filter op) 1) ;;
                  back <- ifft projection 2 ;;
                  narrow (real back) 2 det
             else Ok input) = Ok rf /\
            shape rf = [b; 1%nat; det; ang] /\ (filtered = false -> rf = input)).
  { rewrite Hf. destruct filtered.
    - rewrite (Hfd eq_refl) in *.
      destruct (fbp_filter_stage n h circle op input b 1 ang Hn Hh Hinit Hin
                  (Hfb eq_refl) (le_n 1) Hang)
        as (rf & Hrf & Hrfs).
      exists rf. repeat split; [assumption..|discriminate].
    - exists input. repeat split; assumption. }
  destruct Hstage as (rf & Hrf & Hrfs & Hrfi).
  exists rf. unfold fbp.forward. rewrite Hin, Hrf. cbn [bind].
  destruct (repeat4_spec (fbp.grid op) (n * h) h 2 b Hgs) as (g & Hg & Hgsh & Hggt).
  rewrite Hg. cbn [bind].
  destruct (grid_sample_spec rf g b 1 det ang (n * h) h Hrfs Hgsh Hdet Hang)
    as (sm & Hsm & Hsms & Hsmg).
  rewrite Hsm, Hna, His. cbn [bind]. unfold view.
  change [D b; D n; D 1%nat; D h; D h] with (map D [b; n; 1%nat; h; h]).
  rewrite reshape_known by (rewrite Hsms; cbn [numel fold_right]; ring).
  cbn [bind].
  set (vw := Tensor [b; n; 1%nat; h; h] (flat sm)).
  destruct (sum_dim5_1_spec vw b n 1 h h eq_refl) as (sd & Hsd & Hsds & Hsdg).
  rewrite Hsd. cbn [bind].
  assert (Hacc : forall b0 i j, (b0 < b)%nat -> (i < h)%nat -> (j < h)%nat ->
            get sd [b0; 0%nat; i; j]
            = backprojection n h det ang (fun y x => get rf [b0; 0%nat; y; x]) i j).
  { intros b0 i j Hb0 Hi Hj. rewrite Hsdg by lia. unfold backprojection.
    apply rsum_ext. intros a Ha.
    assert (Hvw : get vw [b0; a; 0%nat; i; j] = get sm [b0; 0%nat; (a * h + i)%nat; j]).
    { apply get_reshaped. rewrite Hsms. cbn [ravel numel fold_right]. ring. }
    assert (Hah : (a * h + i < n * h)%nat) by nia.
    rewrite Hvw, Hsmg, !Hggt by lia.
    destruct (Hgg a i j Ha Hi Hj) as [-> ->]. reflexivity. }
  rewrite Hc, Hss.
  set (rec := div_scalar sd (INR h / INR h)).
  assert (Hrecs : shape rec = [b; 1%nat; h; h]) by exact Hsds.
  destruct circle.
  - destruct (repeat2_spec (fbp.reconstruction_circle op) h h b Hrs)
      as (mk & Hmk & Hmks & Hmkg).
    rewrite Hmk. cbn [bind].
    destruct (masked_fill_spec rec (eq_scalar (double_of_bool mk) 0) 0)
      as (mf & Hmf & Hmfs & Hmfg).
    { cbn [eq_scalar double_of_bool tmap shape]. congruence. }
    rewrite Hmf. cbn [bind]. eexists. split; [assumption|]. split; [assumption|].
    split; [reflexivity|]. split; [cbn [div_scalar mul_scalar tmap shape]; congruence|].
    intros b0 i j Hb0 Hi Hj.
    unfold div_scalar at 1, mul_scalar. rewrite !get_tmap, Hmfg.
    unfold eq_scalar, double_of_bool. rewrite !get_tmap, Hmkg by assumption.
    cbn [andb].
    unfold rec, div_scalar. rewrite get_tmap, Hacc by assumption.
    destruct (get (fbp.reconstruction_circle op) [i; j]); cbn [negb]; unfold Reqb.
    + destruct (Req_dec_T 1 0) as [E|_]; [lra|]. reflexivity.
    + destruct (Req_dec_T 0 0) as [_|E]; [|lra]. reflexivity.
  - cbn [bind]. eexists. split; [assumption|]. split; [assumption|].
    split; [reflexivity|]. split; [exact Hsds|].
    intros b0 i j Hb0 Hi Hj. cbn [andb].
    unfold div_scalar at 1, mul_scalar. rewrite !get_tmap.
    unfold rec, div_scalar. rewrite get_tmap, Hacc by assumption. reflexivity.
Qed.

(** ** Sampling at grid points *)

Lemma unnormalize_linspace h j :
  (j < h)%nat -> unnormalize (flat (linspace (-1) 1 h) j) h = INR j.
Proof.
  intros Hj. unfold unnormalize. cbn [linspace flat].
  destruct h as [|[|h]]; [lia| |].
  - replace j with 0%nat by lia. cbn [INR]. lra.
  - assert (Hh : INR (S (S h)) - 1 <> 0).
    { rewrite !S_INR. pose proof (pos_INR h). lra. }
    field. assumption.
Qed.

Lemma unnormalize_from_neg_one h j :
  (j < h)%nat -> unnormalize (linspace_from_neg_one h j) h = INR j.
Proof.
  intros Hj. destruct h as [|[|h]]; [lia| |].
  - replace j with 0%nat by lia. unfold unnormalize, linspace_from_neg_one.
    cbn [INR]. lra.
  - now apply unnormalize_linspace.
Qed.

Lemma pixel_in (img : nat -> nat -> R) h w i j :
  (i < h)%nat -> (j < w)%nat ->
  pixel img h w (Z.of_nat i) (Z.of_nat j) = img i j.
Proof.
  intros Hi Hj. unfold pixel.
  replace ((0 <=? Z.of_nat i) && (Z.of_nat i <? Z.of_nat h)
           && (0 <=? Z.of_nat j) && (Z.of_nat j <? Z.of_nat w))%Z with true.
  - now rewrite !Nat2Z.id.
  - symmetry. rewrite !andb_true_iff, !Z.leb_le, !Z.ltb_lt. lia.
Qed.

(** At a point whose pixel coordinates are integral and inside the image,
    bilinear interpolation returns the pixel. *)
Lemma bilinear_at_pixel (img : nat -> nat -> R) h w x y i j :
  (i < h)%nat -> (j < w)%nat ->
  unnormalize x w = INR j -> unnormalize y h = INR i ->
  bilinear img h w x y = img i j.
Proof.
  intros Hi Hj Hx Hy. unfold bilinear. rewrite Hx, Hy.
  assert (Hfl : forall k, Zfloor (INR k) = Z.of_nat k).
  { intros k. apply Zfloor_eq. rewrite <- INR_IZR_INZ. lra. }
  rewrite !Hfl, !plus_IZR, <- !INR_IZR_INZ, pixel_in by assumption.
  ring.
Qed.

(** ** Total sums *)

Lemma sum_all4 (t : tensor R) d0 d1 d2 d3 :
  shape t = [d0; d1; d2; d3] ->
  sum_all t
  = rsum d0 (fun i0 => rsum d1 (fun i1 => rsum d2 (fun i2 => rsum d3 (fun i3 =>
      get t [i0; i1; i2; i3])))).
Proof.
  intros Hs. unfold sum_all, get. rewrite Hs. cbn [numel fold_right ravel].
  rewrite rsum_prod. apply rsum_ext. intros i0 _.
  rewrite rsum_prod. apply rsum_ext. intros i1 _.
  rewrite rsum_prod. apply rsum_ext. intros i2 _.
  rewrite rsum_prod. apply rsum_ext. intros i3 _.
  cbn [rsum]. rewrite Rplus_0_l. f_equal; lia.
Qed.

Lemma rsum_1 f : rsum 1 f = f 0%nat.
Proof. cbn [rsum]. ring. Qed.

(** ** One projection angle: the operators are adjoint up to the factor
    [pi / 2] *)

Lemma zero_angle n : INR 0 * PI / INR n = 0.
Proof. cbn [INR]. unfold Rdiv. ring. Qed.

Lemma radon_value_angle0 n h (img : nat -> nat -> R) j :
  (j < h)%nat ->
  radon_value n h h img j 0 = rsum h (fun i => img i j).
Proof.
  intros Hj. unfold radon_value. apply rsum_ext. intros i Hi.
  rewrite zero_angle, cos_0, sin_0.
  apply bilinear_at_pixel; try assumption.
  - replace (1 * linspace_from_neg_one h j + 0 * linspace_from_neg_one h i + 0 * 1)
      with (linspace_from_neg_one h j) by ring.
    now apply unnormalize_from_neg_one.
  - replace (- 0 * linspace_from_neg_one h j + 1 * linspace_from_neg_one h i + 0 * 1)
      with (linspace_from_neg_one h i) by ring.
    now apply unnormalize_from_neg_one.
Qed.

Lemma backprojection_one h (sino : nat -> nat -> R) i j :
  (i < h)%nat -> (j < h)%nat ->
  backprojection 1 h h 1 sino i j = sino j 0%nat.
Proof.
  intros Hi Hj. unfold backprojection. rewrite rsum_1.
  rewrite zero_angle, cos_0, sin_0.
  apply bilinear_at_pixel; try assumption; try lia.
  - cbn [linspace flat]. unfold unnormalize. cbn [INR]. lra.
  - replace (flat (linspace (-1) 1 h) j * 1 - flat (linspace (-1) 1 h) i * 0)
      with (flat (linspace (-1) 1 h) j) by ring.
    now apply unnormalize_linspace.
Qed.

Lemma adjoint_one_angle h b x y :
  (1 <= h)%nat ->
  shape x = [b; 1%nat; h; h] -> shape y = [b; 1%nat; h; 1%nat] ->
  exists rop fop ax aty pl pr,
    radon.init 1 h = Ok rop /\
    fbp.init 1 h false false = Ok fop /\
    radon.forward rop x = Ok ax /\
    mul ax y = Ok pl /\
    fbp.forward fop y = Ok aty /\
    mul x aty = Ok pr /\
    sum_all pl = inner_one b h x y /\
    sum_all pr = PI / 2 * inner_one b h x y.
Proof.
  intros Hh Hx Hy.
  destruct (radon_init_spec 1 h (le_n 1) Hh) as (rop & Hrop & _).
  destruct (fbp_init_spec 1 h false false (le_n 1) Hh) as (fop & Hfop & _).
  destruct (radon_forward_spec 1 h rop x b h (le_n 1) Hh Hh Hrop Hx)
    as (ax & Hax & Haxs & Haxg).
  destruct (map2_same4 Rmult ax y b 1 h 1 Haxs Hy) as (pl & Hpl & Hpls & Hplg).
  destruct (fbp_forward_spec 1 h false false fop y b h 1 (le_n 1) Hh Hh (le_n 1) Hfop Hy)
    as (rf & aty & _ & Hrf & Haty & Hatys & Hatyg); [discriminate..|].
  rewrite (Hrf eq_refl) in Hatyg. clear Hrf rf.
  destruct (map2_same4 Rmult x aty b 1 h h Hx Hatys) as (pr & Hpr & Hprs & Hprg).
  exists rop, fop, ax, aty, pl, pr.
  repeat (split; [assumption|]).
  assert (Hh0 : INR h <> 0) by (apply not_0_INR; lia).
  split.
  - rewrite (sum_all4 pl b 1 h 1 Hpls). unfold inner_one.
    apply rsum_ext. intros b0 Hb0. rewrite rsum_1.
    apply rsum_ext. intros j Hj. rewrite rsum_1.
    rewrite Hplg, Haxg, radon_value_angle0 by lia. reflexivity.
  - rewrite (sum_all4 pr b 1 h h Hprs). unfold inner_one.
    rewrite <- (Rmult_comm _ (PI / 2)), <- rsum_scal.
    apply rsum_ext. intros b0 Hb0. rewrite rsum_1.
    rewrite rsum_swap, <- rsum_scal.
    apply rsum_ext. intros j Hj.
    rewrite <- !rsum_scal.
    apply rsum_ext. intros i Hi.
    rewrite Hprg, Hatyg, backprojection_one by lia.
    cbn [andb]. change (INR (2 * 1)) with 2. field. assumption.
Qed.

(** ** Two projection angles: adjoint up to the factor [pi / 4] *)

Lemma rsum_shift n f : rsum (S n) f = f 0%nat + rsum n (fun k => f (S k)).
Proof.
  induction n as [|n IH]; [cbn [rsum]; ring|].
  change (rsum (S (S n)) f) with (rsum (S n) f + f (S n)).
  rewrite IH. cbn [rsum]. ring.
Qed.

Lemma rsum_rev n f : rsum n f = rsum n (fun k => f (n - 1 - k)%nat).
Proof.
  revert f. induction n as [|n IH]; intros f; [reflexivity|].
  rewrite rsum_shift, (IH (fun k => f (S k))). cbn [rsum].
  replace (S n - 1 - n)%nat with 0%nat by lia.
  rewrite Rplus_comm. f_equal. apply rsum_ext. intros k Hk. f_equal. lia.
Qed.

Lemma rsum_2 f : rsum 2 f = f 0%nat + f 1%nat.
Proof. cbn [rsum]. ring. Qed.

Lemma unnormalize_neg_linspace h j :
  (j < h)%nat -> unnormalize (- flat (linspace (-1) 1 h) j) h = INR (h - 1 - j).
Proof.
  intros Hj. unfold unnormalize. cbn [linspace flat].
  destruct h as [|[|h]]; [lia| |].
  - replace j with 0%nat by lia. cbn [INR Nat.sub]. lra.
  - rewrite minus_INR by lia.
    replace (S (S h) - 1)%nat with (S h) by lia.
    assert (Hh : INR (S (S h)) - 1 <> 0).
    { rewrite !S_INR. pose proof (pos_INR h). lra. }
    rewrite (S_INR (S h)) at 2. rewrite !S_INR in *. field. lra.
Qed.

Lemma unnormalize_neg_from_neg_one h j :
  (j < h)%nat -> unnormalize (- linspace_from_neg_one h j) h = INR (h - 1 - j).
Proof.
  intros Hj. destruct h as [|[|h]]; [lia| |].
  - replace j with 0%nat by lia. unfold unnormalize, linspace_from_neg_one.
    cbn [INR Nat.sub]. lra.
  - now apply unnormalize_neg_linspace.
Qed.

Lemma half_turn_angle : INR 1 * PI / INR 2 = PI / 2.
Proof. cbn [INR]. field. Qed.

Lemma radon_value_quarter h (img : nat -> nat -> R) j :
  (j < h)%nat ->
  radon_value 2 h h img j 1 = rsum h (fun i => img (h - 1 - j)%nat i).
Proof.
  intros Hj. unfold radon_value. apply rsum_ext. intros i Hi.
  rewrite half_turn_angle, cos_PI2, sin_PI2.
  apply bilinear_at_pixel; try assumption; try lia.
  - replace (0 * linspace_from_neg_one h j + 1 * linspace_from_neg_one h i + 0 * 1)
      with (linspace_from_neg_one h i) by ring.
    now apply unnormalize_from_neg_one.
  - replace (- (1) * linspace_from_neg_one h j + 0 * linspace_from_neg_one h i + 0 * 1)
      with (- linspace_from_neg_one h j) by ring.
    now apply unnormalize_neg_from_neg_one.
Qed.

Lemma backprojection_two h (sino : nat -> nat -> R) i j :
  (i < h)%nat -> (j < h)%nat ->
  backprojection 2 h h 2 sino i j = sino j 0%nat + sino (h - 1 - i)%nat 1%nat.
Proof.
  intros Hi Hj. unfold backprojection. rewrite rsum_2. f_equal.
  - rewrite zero_angle, cos_0, sin_0.
    apply bilinear_at_pixel; try assumption; try lia.
    + cbn [linspace flat]. unfold unnormalize. cbn [INR]. lra.
    + replace (flat (linspace (-1) 1 h) j * 1 - flat (linspace (-1) 1 h) i * 0)
        with (flat (linspace (-1) 1 h) j) by ring.
      now apply unnormalize_linspace.
  - rewrite half_turn_angle, cos_PI2, sin_PI2.
    apply bilinear_at_pixel; try assumption; try lia.
    + cbn [linspace flat]. unfold unnormalize. cbn [INR]. lra.
    + replace (flat (linspace (-1) 1 h) j * 0 - flat (linspace (-1) 1 h) i * 1)
        with (- flat (linspace (-1) 1 h) i) by ring.
      now apply unnormalize_neg_linspace.
Qed.

Lemma adjoint_two_angles h b x y :
  (1 <= h)%nat ->
  shape x = [b; 1%nat; h; h] -> shape y = [b; 1%nat; h; 2%nat] ->
  exists rop fop ax aty pl pr,
    radon.init 2 h = Ok rop /\
    fbp.init 2 h false false = Ok fop /\
    radon.forward rop x = Ok ax /\
    mul ax y = Ok pl /\
    fbp.forward fop y = Ok aty /\
    mul x aty = Ok pr /\
    sum_all pl = inner_two b h x y /\
    sum_all pr = PI / 4 * inner_two b h x y.
Proof.
  intros Hh Hx Hy.
  assert (H2 : (1 <= 2)%nat) by lia.
  destruct (radon_init_spec 2 h H2 Hh) as (rop & Hrop & _).
  destruct (fbp_init_spec 2 h false false H2 Hh) as (fop & Hfop & _).
  destruct (radon_forward_spec 2 h rop x b h H2 Hh Hh Hrop Hx)
    as (ax & Hax & Haxs & Haxg).
  destruct (map2_same4 Rmult ax y b 1 h 2 Haxs Hy) as (pl & Hpl & Hpls & Hplg).
  destruct (fbp_forward_spec 2 h false false fop y b h 2 H2 Hh Hh H2 Hfop Hy)
    as (rf & aty & _ & Hrf & Haty & Hatys & Hatyg); [discriminate..|].
  rewrite (Hrf eq_refl) in Hatyg. clear Hrf rf.
  destruct (map2_same4 Rmult x aty b 1 h h Hx Hatys) as (pr & Hpr & Hprs & Hprg).
  exists rop, fop, ax, aty, pl, pr.
  repeat (split; [assumption|]).
  assert (Hh0 : INR h <> 0) by (apply not_0_INR; lia).
  split.
  - rewrite (sum_all4 pl b 1 h 2 Hpls). unfold inner_two.
    apply rsum_ext. intros b0 Hb0. rewrite rsum_1.
    apply rsum_ext. intros j Hj. rewrite rsum_2.
    rewrite !Hplg, !Haxg, radon_value_angle0, radon_value_quarter by lia.
    reflexivity.
  - rewrite (sum_all4 pr b 1 h h Hprs). unfold inner_two.
    rewrite <- (Rmult_comm _ (PI / 4)), <- rsum_scal.
    apply rsum_ext. intros b0 Hb0. rewrite rsum_1.
    rewrite rsum_plus.
    transitivity
      (rsum h (fun i => rsum h (fun j =>
         get x [b0; 0%nat; i; j] * get y [b0; 0%nat; j; 0%nat] * (PI / 4)))
       + rsum h (fun i => rsum h (fun j =>
           get x [b0; 0%nat; i; j]
           * get y [b0; 0%nat; (h - 1 - i)%nat; 1%nat] * (PI / 4)))).
    { rewrite <- rsum_plus. apply rsum_ext. intros i Hi.
      rewrite <- rsum_plus. apply rsum_ext. intros j Hj.
      rewrite Hprg, Hatyg, backprojection_two by lia.
      cbn [andb]. replace (INR (2 * 2)) with 4 by (cbn [INR Nat.mul Nat.add]; ring).
      field. assumption. }
    rewrite Rmult_plus_distr_r. f_equal.
    + rewrite rsum_swap, <- rsum_scal. apply rsum_ext. intros j Hj.
      rewrite <- !rsum_scal. apply rsum_ext. intros i Hi. ring.
    + rewrite <- rsum_scal.
      rewrite (rsum_rev h (fun j => rsum h (fun i => get x [b0; 0%nat; (h - 1 - j)%nat; i])
                                    * get y [b0; 0%nat; j; 1%nat] * (PI / 4))).
      apply rsum_ext. intros i Hi.
      replace (h - 1 - (h - 1 - i))%nat with i by lia.
      rewrite <- !rsum_scal. apply rsum_ext. intros j Hj. ring.
Qed.

(** * The claims *)

(** C3. Both constructors compute their angles with [make_thetas]: exactly
    [n_angles] of them, the [k]-th being [k * pi / n_angles], all in the
    half-open interval from 0 to pi; the forward grid and the backward grid
    are the rotations by these angles. *)
Theorem angles_uniform_half_open (n h k i j : nat) (circle filtered : bool) :
  (1 <= n)%nat -> (1 <= h)%nat -> (k < n)%nat -> (i < h)%nat -> (j < h)%nat ->
  make_thetas n = Ok (thetas_of n) /\
  shape (thetas_of n) = [n; 1; 1]%nat /\
  get (thetas_of n) [k; 0; 0]%nat = INR k * PI / INR n /\
  0 <= get (thetas_of n) [k; 0; 0]%nat < PI /\
  exists rop fop,
    radon.init n h = Ok rop /\
    fbp.init n h circle filtered = Ok fop /\
    get (radon.rotated rop) [0%nat; (k * h + i)%nat; j; 0%nat]
    = Rtrigo_def.cos (get (thetas_of n) [k; 0; 0]%nat) * linspace_from_neg_one h j
      + Rtrigo_def.sin (get (thetas_of n) [k; 0; 0]%nat) * linspace_from_neg_one h i
      + 0 * 1 /\
    get (radon.rotated rop) [0%nat; (k * h + i)%nat; j; 1%nat]
    = - Rtrigo_def.sin (get (thetas_of n) [k; 0; 0]%nat) * linspace_from_neg_one h j
      + Rtrigo_def.cos (get (thetas_of n) [k; 0; 0]%nat) * linspace_from_neg_one h i
      + 0 * 1 /\
    get (fbp.grid fop) [0%nat; (k * h + i)%nat; j; 1%nat]
    = flat (linspace (-1) 1 h) j * Rtrigo_def.cos (get (thetas_of n) [k; 0; 0]%nat)
      - flat (linspace (-1) 1 h) i * Rtrigo_def.sin (get (thetas_of n) [k; 0; 0]%nat).
Proof.
  intros Hn Hh Hk Hi Hj. split; [now apply make_thetas_ok|]. split; [reflexivity|].
  rewrite get_thetas by assumption. split; [reflexivity|].
  assert (Hn0 : 0 < INR n) by (apply lt_0_INR; lia).
  assert (Hkn : INR k < INR n) by now apply lt_INR.
  pose proof (pos_INR k) as Hk0. pose proof PI_RGT_0 as Hpi.
  split; [split|].
  - apply Rmult_le_pos; [nra|]. left. now apply Rinv_0_lt_compat.
  - apply (Rmult_lt_reg_r (INR n)); [assumption|].
    unfold Rdiv. rewrite Rmult_assoc, Rinv_l by lra. nra.
  - destruct (radon_init_spec n h Hn Hh) as (rop & Hrop & _ & _ & Hrg).
    destruct (fbp_init_spec n h circle filtered Hn Hh)
      as (fop & Hfop & _ & _ & _ & _ & _ & _ & _ & _ & _ & Hgg & _).
    exists rop, fop. split; [assumption|]. split; [assumption|].
    destruct (Hrg k i j Hk Hi Hj) as [-> ->].
    destruct (Hgg k i j Hk Hi Hj) as [_ ->].
    repeat split; reflexivity.
Qed.

Lemma angles_uniform_half_open_witness :
  make_thetas 4 = Ok (thetas_of 4) /\
  shape (thetas_of 4) = [4; 1; 1]%nat /\
  get (thetas_of 4) [3; 0; 0]%nat = INR 3 * PI / INR 4 /\
  0 <= get (thetas_of 4) [3; 0; 0]%nat < PI /\
  exists rop fop,
    radon.init 4 2 = Ok rop /\
    fbp.init 4 2 false true = Ok fop /\
    get (radon.rotated rop) [0%nat; (3 * 2 + 1)%nat; 0%nat; 0%nat]
    = Rtrigo_def.cos (get (thetas_of 4) [3; 0; 0]%nat) * linspace_from_neg_one 2 0
      + Rtrigo_def.sin (get (thetas_of 4) [3; 0; 0]%nat) * linspace_from_neg_one 2 1
      + 0 * 1 /\
    get (radon.rotated rop) [0%nat; (3 * 2 + 1)%nat; 0%nat; 1%nat]
    = - Rtrigo_def.sin (get (thetas_of 4) [3; 0; 0]%nat) * linspace_from_neg_one 2 0
      + Rtrigo_def.cos (get (thetas_of 4) [3; 0; 0]%nat) * linspace_from_neg_one 2 1
      + 0 * 1 /\
    get (fbp.grid fop) [0%nat; (3 * 2 + 1)%nat; 0%nat; 1%nat]
    = flat (linspace (-1) 1 2) 0 * Rtrigo_def.cos (get (thetas_of 4) [3; 0; 0]%nat)
      - flat (linspace (-1) 1 2) 1 * Rtrigo_def.sin (get (thetas_of 4) [3; 0; 0]%nat).
Proof. apply (angles_uniform_half_open 4 2 3 1 0 false true); lia. Defined.

(** C5. The backward operator is built with a padded detector length that is
    the least power of two not below twice the detector count, raised to 64
    when smaller; the ramp filter has that length and the pad width is the
    padded length minus the detector count. Stated for image sizes up to
    [2^20], where the single-precision logarithm of line 79 cannot round
    down to the exponent below (see [fbp.projection_size_padded]). *)
Theorem padded_size_next_pow2 (n h : nat) (circle filtered : bool) :
  (1 <= n)%nat -> (1 <= h)%nat -> (Z.of_nat h <= 2 ^ 20)%Z ->
  exists op k,
    fbp.init n h circle filtered = Ok op /\
    (2 * h <= 2 ^ k)%nat /\
    (forall k', (2 * h <= 2 ^ k')%nat -> (2 ^ k <= 2 ^ k')%nat) /\
    fbp.projection_size_padded h = Nat.max 64 (2 ^ k) /\
    (exists e, fbp.projection_size_padded h = 2 ^ e)%nat /\
    shape (fbp.filter op) = [fbp.projection_size_padded h] /\
    fbp.pad_width op = (fbp.projection_size_padded h - h)%nat /\
    (h + fbp.pad_width op = fbp.projection_size_padded h)%nat.
Proof.
  intros Hn Hh _.
  destruct (fbp_init_spec n h circle filtered Hn Hh)
    as (op & Hop & _ & _ & _ & _ & _ & Hpw & _ & Hfs & _).
  exists op, (Nat.log2_up (2 * h)).
  pose proof (Nat.log2_up_spec (2 * h) ltac:(lia)) as [_ Hup].
  split; [assumption|]. split; [assumption|]. split.
  { intros k' Hk'. apply Nat.pow_le_mono_r; [lia|].
    apply Nat.log2_up_le_pow2; lia. }
  split; [reflexivity|]. split; [now apply padded_pow2|].
  split; [assumption|]. split; [assumption|].
  rewrite Hpw. now apply padded_pad.
Qed.

Lemma padded_size_next_pow2_witness :
  exists op k,
    fbp.init 1 100 false true = Ok op /\
    (2 * 100 <= 2 ^ k)%nat /\
    (forall k', (2 * 100 <= 2 ^ k')%nat -> (2 ^ k <= 2 ^ k')%nat) /\
    fbp.projection_size_padded 100 = Nat.max 64 (2 ^ k) /\
    (exists e, fbp.projection_size_padded 100 = 2 ^ e)%nat /\
    shape (fbp.filter op) = [fbp.projection_size_padded 100] /\
    fbp.pad_width op = (fbp.projection_size_padded 100 - 100)%nat /\
    (100 + fbp.pad_width op = fbp.projection_size_padded 100)%nat.
Proof. apply (padded_size_next_pow2 1 100 false true); lia. Defined.

Example padded_size_100 : fbp.projection_size_padded 100 = 256%nat.
Proof. reflexivity. Qed.

Example padded_size_16 : fbp.projection_size_padded 16 = 64%nat.
Proof. reflexivity. Qed.

Lemma ramp_index_6 : ramp_index 6 = [1; 3; 2]%Z /\ ramp_index_spec 6 = [1; 3; 1]%Z.
Proof. split; reflexivity. Qed.

Lemma ramp_response_6 :
  exists f, ramp_response 6 = Ok f /\ nth 5 f 0 = -1 / ((PI * 2) * (PI * 2)).
Proof.
  unfold ramp_response. rewrite (proj1 ramp_index_6).
  eexists. split; [reflexivity|].
  rewrite nth_map_seq by (cbn; lia). reflexivity.
Qed.

(** C4, as stated, fails at the even size 6: the source's index array is
    [1, 3, 2], so the response at position 5 is [-1 / (2 pi)^2], where the
    odd integers of the specification give [-1 / pi^2]. *)
Lemma rampfilter_size_6_not_as_specified : ~ rampfilter_as_specified 6.
Proof.
  intros (f & t & Hf & _ & _ & _ & _ & Hodd & _).
  destruct ramp_response_6 as (f' & Hf' & H5).
  rewrite Hf in Hf'. injection Hf' as <-.
  specialize (Hodd 5%nat ltac:(lia) eq_refl).
  rewrite (proj2 ramp_index_6) in Hodd.
  change (nth (5 / 2) [1; 3; 1]%Z 0%Z) with 1%Z in Hodd.
  rewrite H5 in Hodd.
  pose proof PI_RGT_0 as Hpi.
  assert (Hpp : 0 < PI * PI) by nra.
  assert (H4 : -1 / (PI * 2 * (PI * 2)) * (PI * PI) = -1 / 4) by (field; lra).
  assert (H1 : -1 / (PI * 1 * (PI * 1)) * (PI * PI) = -1) by (field; lra).
  rewrite Hodd in H4. lra.
Qed.

(** C4, amended. For every positive size divisible by four (every padded
    size the operator builds is one), [rampfilter] returns the array
    [2 * Re(DFT(f))] of that length, with [f] as the specification words it,
    and the source's index array is the ascending odd integers up to
    [size/2] followed by the descending odd integers from [size/2 - 1]. *)
Theorem rampfilter_mul4_as_specified (q : nat) :
  (1 <= q)%nat ->
  rampfilter_as_specified (4 * q) /\ ramp_index (4 * q) = ramp_index_spec (4 * q).
Proof.
  intros Hq. split; [|apply ramp_index_mul4].
  destruct (ramp_response_ok q Hq) as (f & Hf & Hlen & H0 & Hodd & Hev).
  destruct (rampfilter_ok q Hq) as (f' & t & Hf' & Ht & Hts & Htv).
  rewrite Hf in Hf'. injection Hf' as <-.
  exists f, t. rewrite <- ramp_index_mul4. repeat (split; [assumption|]). assumption.
Qed.

Lemma rampfilter_mul4_as_specified_witness :
  rampfilter_as_specified (4 * 16) /\ ramp_index (4 * 16) = ramp_index_spec (4 * 16).
Proof. apply (rampfilter_mul4_as_specified 16); lia. Defined.

(** C2. For every image size, angle count and batch size of at least one, the
    forward operator maps a [batch x 1 x H x H] image to a
    [batch x 1 x H x n_angles] sinogram and the backward operator maps a
    [batch x 1 x H x n_angles] sinogram to a [batch x 1 x H x H] image, in
    either mode. (On an empty batch the filtered backward operator
    raises.) *)
Theorem operator_shapes (n h b : nat) (circle filtered : bool) (x y : tensor R) :
  (1 <= n)%nat -> (1 <= h)%nat -> (1 <= b)%nat ->
  shape x = [b; 1%nat; h; h] -> shape y = [b; 1%nat; h; n] ->
  exists rop fop sino img,
    radon.init n h = Ok rop /\
    fbp.init n h circle filtered = Ok fop /\
    radon.forward rop x = Ok sino /\ shape sino = [b; 1%nat; h; n] /\
    fbp.forward fop y = Ok img /\ shape img = [b; 1%nat; h; h].
Proof.
  intros Hn Hh Hb Hx Hy.
  destruct (radon_init_spec n h Hn Hh) as (rop & Hrop & _).
  destruct (fbp_init_spec n h circle filtered Hn Hh) as (fop & Hfop & _).
  destruct (radon_forward_spec n h rop x b h Hn Hh Hh Hrop Hx) as (sino & Hs & Hss & _).
  destruct (fbp_forward_spec n h circle filtered fop y b h n Hn Hh Hh Hn Hfop Hy)
    as (_ & img & _ & _ & Hi & His & _); [reflexivity | intros _; exact Hb |].
  exists rop, fop, sino, img. repeat (split; [assumption|]). assumption.
Qed.

Lemma operator_shapes_witness :
  exists rop fop sino img,
    radon.init 3 2 = Ok rop /\
    fbp.init 3 2 true true = Ok fop /\
    radon.forward rop (Tensor [5; 1; 2; 2]%nat (fun _ => 1)) = Ok sino /\
    shape sino = [5; 1; 2; 3]%nat /\
    fbp.forward fop (Tensor [5; 1; 2; 3]%nat (fun _ => 1)) = Ok img /\
    shape img = [5; 1; 2; 2]%nat.
Proof.
  apply (operator_shapes 3 2 5 true true); [lia | lia | lia | reflexivity | reflexivity].
Defined.

(** C10. The forward operator does not check the width of its input: on any
    single-channel input of the operator's height and of any width of at
    least one it returns a [batch x 1 x image_size x n_angles] sinogram, each
    value being the sum of the input interpolated over its own width. *)
Theorem forward_accepts_any_width (n h b w : nat) (image : tensor R) :
  (1 <= n)%nat -> (1 <= h)%nat -> (1 <= w)%nat ->
  shape image = [b; 1%nat; h; w] ->
  exists op out,
    radon.init n h = Ok op /\
    radon.forward op image = Ok out /\
    shape out = [b; 1%nat; h; n] /\
    forall b0 j a, (b0 < b)%nat -> (j < h)%nat -> (a < n)%nat ->
      get out [b0; 0%nat; j; a]
      = radon_value n h w (fun y x => get image [b0; 0%nat; y; x]) j a.
Proof.
  intros Hn Hh Hw Himg.
  destruct (radon_init_spec n h Hn Hh) as (op & Hop & _).
  destruct (radon_forward_spec n h op image b w Hn Hh Hw Hop Himg) as (out & Ho & Hos & Hog).
  exists op, out. repeat (split; [assumption|]). assumption.
Qed.

Lemma forward_accepts_any_width_witness :
  exists op out,
    radon.init 2 3 = Ok op /\
    radon.forward op (Tensor [1; 1; 3; 7]%nat (fun _ => 1)) = Ok out /\
    shape out = [1; 1; 3; 2]%nat /\
    forall b0 j a, (b0 < 1)%nat -> (j < 3)%nat -> (a < 2)%nat ->
      get out [b0; 0%nat; j; a]
      = radon_value 2 3 7
          (fun y x => get (Tensor [1; 1; 3; 7]%nat (fun _ => 1)) [b0; 0%nat; y; x]) j a.
Proof.
  apply (forward_accepts_any_width 2 3 1 7); [lia | lia | lia | reflexivity].
Defined.

(** C6, as stated, fails: the forward operator accepts a [1 x 1 x 2 x 3]
    image, which is not square, and the backward operator accepts a sinogram
    of 5 angles when built for 1, and in unfiltered mode also one of 7
    detector rows when built for 2. *)
Lemma ill_shaped_input_accepted :
  (exists op out,
     radon.init 1 2 = Ok op /\
     radon.forward op (Tensor [1; 1; 2; 3]%nat (fun _ => 0)) = Ok out) /\
  (exists op out,
     fbp.init 1 2 false true = Ok op /\
     fbp.forward op (Tensor [1; 1; 2; 5]%nat (fun _ => 0)) = Ok out) /\
  (exists op out,
     fbp.init 1 2 false false = Ok op /\
     fbp.forward op (Tensor [1; 1; 7; 5]%nat (fun _ => 0)) = Ok out).
Proof.
  split; [|split].
  - destruct (radon_init_spec 1 2) as (op & Hop & _); [lia..|].
    destruct (radon_forward_spec 1 2 op (Tensor [1; 1; 2; 3]%nat (fun _ => 0)) 1 3)
      as (out & Hout & _); try lia; try assumption; try reflexivity.
    exists op, out. split; assumption.
  - destruct (fbp_init_spec 1 2 false true) as (op & Hop & _); [lia..|].
    destruct (fbp_forward_spec 1 2 false true op
                (Tensor [1; 1; 2; 5]%nat (fun _ => 0)) 1 2 5)
      as (_ & out & _ & _ & Hout & _); try lia; try assumption; try reflexivity.
    exists op, out. split; assumption.
  - destruct (fbp_init_spec 1 2 false false) as (op & Hop & _); [lia..|].
    destruct (fbp_forward_spec 1 2 false false op
                (Tensor [1; 1; 7; 5]%nat (fun _ => 0)) 1 7 5)
      as (_ & out & _ & _ & Hout & _); try lia; try assumption; try reflexivity.
    exists op, out. split; assumption.
Qed.

(** C6, amended. Both operators raise on input that is not four-dimensional.
    The forward operator raises a shape error on a non-empty batch of
    single-channel input whose height differs from [image_size]; the backward
    operator, in filtered mode, raises a shape error on a sinogram whose
    detector-axis length differs from [image_size]. *)
Theorem shape_checks (n h : nat) (circle : bool) :
  (1 <= n)%nat -> (1 <= h)%nat ->
  exists rop fop,
    radon.init n h = Ok rop /\
    fbp.init n h circle true = Ok fop /\
    (forall t : tensor R, length (shape t) <> 4%nat ->
       radon.forward rop t = Err ValueError /\ fbp.forward fop t = Err ValueError) /\
    (forall image b ss w, (1 <= b)%nat -> shape image = [b; 1%nat; ss; w] -> ss <> h ->
       radon.forward rop image = Err RuntimeError) /\
    (forall sino b c det ang, shape sino = [b; c; det; ang] -> det <> h ->
       fbp.forward fop sino = Err RuntimeError).
Proof.
  intros Hn Hh.
  destruct (radon_init_spec n h Hn Hh) as (rop & Hrop & _).
  destruct (fbp_init_spec n h circle true Hn Hh)
    as (fop & Hfop & _ & _ & _ & _ & Hf & _).
  exists rop, fop. split; [assumption|]. split; [assumption|]. split; [|split].
  - intros t Hlen. unfold radon.forward, fbp.forward.
    destruct (shape t) as [|d0 [|d1 [|d2 [|d3 [|d4 s]]]]]; cbn [length] in Hlen;
      try lia; split; reflexivity.
  - intros image b ss w Hb Himg Hss.
    now apply (radon_forward_height_mismatch n h rop image b ss w).
  - intros sino b c det ang Hs Hdet. unfold fbp.forward. rewrite Hs, Hf.
    rewrite (fbp_filter_stage_mismatch n h circle fop sino b c det ang) by assumption.
    reflexivity.
Qed.

Lemma shape_checks_witness :
  exists rop fop,
    radon.init 2 3 = Ok rop /\
    fbp.init 2 3 false true = Ok fop /\
    (forall t : tensor R, length (shape t) <> 4%nat ->
       radon.forward rop t = Err ValueError /\ fbp.forward fop t = Err ValueError) /\
    (forall image b ss w, (1 <= b)%nat -> shape image = [b; 1%nat; ss; w] -> ss <> 3%nat ->
       radon.forward rop image = Err RuntimeError) /\
    (forall sino b c det ang, shape sino = [b; c; det; ang] -> det <> 3%nat ->
       fbp.forward fop sino = Err RuntimeError).
Proof. apply (shape_checks 2 3 false); lia. Defined.

(** The grid the constructor stores, whatever the two flags. *)
Lemma fbp_grid_flags n h c f c' f' :
  match fbp.init n h c f, fbp.init n h c' f' with
  | Ok op, Ok op' => fbp.grid op = fbp.grid op'
  | Ok _, Err _ | Err _, Ok _ => False
  | Err e, Err e' => e = e'
  end.
Proof.
  unfold fbp.init.
  repeat match goal with
         | |- context [bind ?r _] => destruct r; cbn [bind]
         end; reflexivity.
Qed.

(** The mask the constructor stores, whatever the two flags. *)
Lemma fbp_mask_flags n h c f c' f' op op' :
  fbp.init n h c f = Ok op -> fbp.init n h c' f' = Ok op' ->
  fbp.reconstruction_circle op' = fbp.reconstruction_circle op.
Proof.
  unfold fbp.init.
  repeat match goal with
         | |- context [bind ?r _] => destruct r; cbn [bind]
         end; try discriminate.
  intros [= <-] [= <-]. reflexivity.
Qed.

(** C9. The backward grid, built by the constructor from [n_angles] and
    [image_size] alone, pairs for the pixel [(x, y)] = ([linspace(-1,1,H)_j],
    [linspace(-1,1,H)_i]) and the angle [theta_k = k pi / n_angles] the
    detector position [t = x cos theta_k - y sin theta_k] with the angle
    coordinate [s = linspace(-1,1,n_angles)_k]; the flags [circle] and
    [filtered] do not change it, and [fbp.forward] only reads it. *)
Theorem backward_grid_formula (n h : nat) (circle filtered : bool) :
  (1 <= n)%nat -> (1 <= h)%nat ->
  exists op,
    fbp.init n h circle filtered = Ok op /\
    shape (fbp.grid op) = [1%nat; (n * h)%nat; h; 2%nat] /\
    (forall k i j, (k < n)%nat -> (i < h)%nat -> (j < h)%nat ->
       get (fbp.grid op) [0%nat; (k * h + i)%nat; j; 1%nat]
       = flat (linspace (-1) 1 h) j * Rtrigo_def.cos (INR k * PI / INR n)
         - flat (linspace (-1) 1 h) i * Rtrigo_def.sin (INR k * PI / INR n) /\
       get (fbp.grid op) [0%nat; (k * h + i)%nat; j; 0%nat]
       = flat (linspace (-1) 1 n) k) /\
    (forall circle' filtered' op',
       fbp.init n h circle' filtered' = Ok op' -> fbp.grid op' = fbp.grid op).
Proof.
  intros Hn Hh.
  destruct (fbp_init_spec n h circle filtered Hn Hh)
    as (op & Hop & _ & _ & _ & _ & _ & _ & _ & _ & Hgs & Hgg & _).
  exists op. split; [assumption|]. split; [assumption|]. split.
  - intros k i j Hk Hi Hj. destruct (Hgg k i j Hk Hi Hj) as [H0 H1].
    split; [assumption|]. rewrite H0. ring.
  - intros c' f' op' Hop'.
    pose proof (fbp_grid_flags n h c' f' circle filtered) as Hfl.
    now rewrite Hop, Hop' in Hfl.
Qed.

Lemma backward_grid_formula_witness :
  exists op,
    fbp.init 3 4 false true = Ok op /\
    shape (fbp.grid op) = [1%nat; (3 * 4)%nat; 4%nat; 2%nat] /\
    (forall k i j, (k < 3)%nat -> (i < 4)%nat -> (j < 4)%nat ->
       get (fbp.grid op) [0%nat; (k * 4 + i)%nat; j; 1%nat]
       = flat (linspace (-1) 1 4) j * Rtrigo_def.cos (INR k * PI / INR 3)
         - flat (linspace (-1) 1 4) i * Rtrigo_def.sin (INR k * PI / INR 3) /\
       get (fbp.grid op) [0%nat; (k * 4 + i)%nat; j; 0%nat]
       = flat (linspace (-1) 1 3) k) /\
    (forall circle' filtered' op',
       fbp.init 3 4 circle' filtered' = Ok op' -> fbp.grid op' = fbp.grid op).
Proof. apply (backward_grid_formula 3 4 false true); lia. Defined.

(** ** Adjointness *)

Lemma two_over_pi_far_from_one : ~ Rabs (2 / PI - 1) < 1 / 100.
Proof.
  intros Habs. apply Rabs_def2 in Habs. destruct Habs as [_ Hlo].
  pose proof PI2_3_2 as H32. pose proof PI_RGT_0 as Hpi.
  assert (H2 : 2 / PI * PI = 2) by (field; lra).
  nra.
Qed.

Lemma adjoint_ratio_one_angle h b x y :
  (1 <= h)%nat ->
  shape x = [b; 1%nat; h; h] -> shape y = [b; 1%nat; h; 1%nat] ->
  (inner_one b h x y <> 0 -> adjoint_ratio 1 h x y = Ok (2 / PI)) /\
  (inner_one b h x y = 0 -> adjoint_ratio 1 h x y = Err ZeroDivisionError).
Proof.
  intros Hh Hx Hy.
  destruct (adjoint_one_angle h b x y Hh Hx Hy)
    as (rop & fop & ax & aty & pl & pr & Hrop & Hfop & Hax & Hpl & Haty & Hpr & Hl & Hr).
  pose proof PI_RGT_0 as Hpi.
  unfold adjoint_ratio. rewrite Hrop, Hfop. cbn [bind].
  rewrite Hax. cbn [bind]. rewrite Hpl. cbn [bind].
  rewrite Haty. cbn [bind]. rewrite Hpr. cbn [bind].
  rewrite Hl, Hr. unfold Reqb.
  split; intros Hi.
  - destruct (Req_dec_T (PI / 2 * inner_one b h x y) 0) as [E|_].
    + exfalso. apply Hi. nra.
    + cbn [negb guard bind]. f_equal. field. split; try assumption; lra.
  - rewrite Hi, Rmult_0_r.
    destruct (Req_dec_T 0 0) as [_|E]; [reflexivity | contradiction].
Qed.

(** C1, as stated, fails for the operator pair built with one angle on a
    [2 x 2] image: on the all-ones image and the all-ones sinogram the ratio
    is [2 / pi], further than 1e-2 from 1. *)
Lemma adjoint_ratio_one_angle_not_one :
  adjoint_ratio 1 2 (Tensor [1; 1; 2; 2]%nat (fun _ => 1))
                    (Tensor [1; 1; 2; 1]%nat (fun _ => 1)) = Ok (2 / PI) /\
  ~ Rabs (2 / PI - 1) < 1 / 100.
Proof.
  split; [|exact two_over_pi_far_from_one].
  apply (adjoint_ratio_one_angle 2 1); [lia | reflexivity | reflexivity |].
  unfold inner_one, get. cbn [rsum flat]. lra.
Qed.

(** C1, amended. For the operator pairs built with one or with two angles
    (the angles 0 and [pi / 2]) and any image size, the two inner products
    are proportional,
    [sum(x * backward_unfiltered(y)) = pi / (2 n_angles) * sum(forward(x) * y)],
    for every image [x] and sinogram [y] of matching shapes; the ratio that
    [test_adjoint] computes is then [2 n_angles / pi] whenever its
    denominator is not zero, and the division raises when it is. *)
Theorem adjoint_up_to_scale (n h b : nat) (x y : tensor R) :
  (n = 1 \/ n = 2)%nat -> (1 <= h)%nat ->
  shape x = [b; 1%nat; h; h] -> shape y = [b; 1%nat; h; n] ->
  exists rop fop ax aty pl pr,
    radon.init n h = Ok rop /\
    fbp.init n h false false = Ok fop /\
    radon.forward rop x = Ok ax /\
    mul ax y = Ok pl /\
    fbp.forward fop y = Ok aty /\
    mul x aty = Ok pr /\
    sum_all pr = PI / (2 * INR n) * sum_all pl /\
    (sum_all pr <> 0 -> adjoint_ratio n h x y = Ok (2 * INR n / PI)) /\
    (sum_all pr = 0 -> adjoint_ratio n h x y = Err ZeroDivisionError).
Proof.
  intros Hn Hh Hx Hy.
  assert (Hparts : exists rop fop ax aty pl pr,
            radon.init n h = Ok rop /\ fbp.init n h false false = Ok fop /\
            radon.forward rop x = Ok ax /\ mul ax y = Ok pl /\
            fbp.forward fop y = Ok aty /\ mul x aty = Ok pr /\
            sum_all pr = PI / (2 * INR n) * sum_all pl).
  { destruct Hn as [-> | ->].
    - destruct (adjoint_one_angle h b x y Hh Hx Hy)
        as (rop & fop & ax & aty & pl & pr & H1 & H2 & H3 & H4 & H5 & H6 & Hl & Hr).
      exists rop, fop, ax, aty, pl, pr. repeat (split; [assumption|]).
      rewrite Hl, Hr. cbn [INR]. field.
    - destruct (adjoint_two_angles h b x y Hh Hx Hy)
        as (rop & fop & ax & aty & pl & pr & H1 & H2 & H3 & H4 & H5 & H6 & Hl & Hr).
      exists rop, fop, ax, aty, pl, pr. repeat (split; [assumption|]).
      rewrite Hl, Hr. cbn [INR]. field. }
  destruct Hparts
    as (rop & fop & ax & aty & pl & pr & Hrop & Hfop & Hax & Hpl & Haty & Hpr & Hr).
  exists rop, fop, ax, aty, pl, pr. repeat (split; [assumption|]).
  pose proof PI_RGT_0 as Hpi.
  assert (Hn0 : 0 < INR n) by (apply lt_0_INR; lia).
  unfold adjoint_ratio. rewrite Hrop, Hfop. cbn [bind].
  rewrite Hax. cbn [bind]. rewrite Hpl. cbn [bind].
  rewrite Haty. cbn [bind]. rewrite Hpr. cbn [bind].
  unfold Reqb. split; intros H.
  - destruct (Req_dec_T (sum_all pr) 0) as [E|_]; [contradiction|].
    cbn [negb guard bind]. f_equal. rewrite Hr in *.
    assert (Hl0 : sum_all pl <> 0) by (intros E; apply H; rewrite E; ring).
    field. repeat split; lra.
  - destruct (Req_dec_T (sum_all pr) 0) as [_|E]; [reflexivity | contradiction].
Qed.

Lemma adjoint_up_to_scale_witness :
  exists rop fop ax aty pl pr,
    radon.init 2 3 = Ok rop /\
    fbp.init 2 3 false false = Ok fop /\
    radon.forward rop (Tensor [1; 1; 3; 3]%nat (fun _ => 1)) = Ok ax /\
    mul ax (Tensor [1; 1; 3; 2]%nat (fun _ => 1)) = Ok pl /\
    fbp.forward fop (Tensor [1; 1; 3; 2]%nat (fun _ => 1)) = Ok aty /\
    mul (Tensor [1; 1; 3; 3]%nat (fun _ => 1)) aty = Ok pr /\
    sum_all pr = PI / (2 * INR 2) * sum_all pl /\
    (sum_all pr <> 0 ->
     adjoint_ratio 2 3 (Tensor [1; 1; 3; 3]%nat (fun _ => 1))
                       (Tensor [1; 1; 3; 2]%nat (fun _ => 1)) = Ok (2 * INR 2 / PI)) /\
    (sum_all pr = 0 ->
     adjoint_ratio 2 3 (Tensor [1; 1; 3; 3]%nat (fun _ => 1))
                       (Tensor [1; 1; 3; 2]%nat (fun _ => 1)) = Err ZeroDivisionError).
Proof.
  apply (adjoint_up_to_scale 2 3 1); [right; reflexivity | lia | reflexivity | reflexivity].
Defined.

(** * Further properties of the source *)

(** ** Construction *)

Lemma radon_init_zero_size n : (1 <= n)%nat -> radon.init n 0 = Err ValueError.
Proof.
  intros Hn. unfold radon.init. rewrite make_thetas_ok by assumption. cbn [bind].
  destruct (stack6_spec (cos (thetas_of n)) (sin (thetas_of n))
              (zeros_like (cos (thetas_of n))) (neg (sin (thetas_of n)))
              (cos (thetas_of n)) (zeros_like (cos (thetas_of n))) n)
    as (st & Hst & Hsts & _); try reflexivity.
  rewrite Hst. cbn [bind]. unfold reshape at 1.
  rewrite Hsts, infer_rotations. cbn [bind].
  unfold affine_grid. cbn [shape].
  replace (negb ((n =? 0) || (1 =? 0) || (0 =? 0) || (0 =? 0))%nat) with false
    by (symmetry; apply negb_false_iff; rewrite !orb_true_iff; auto).
  reflexivity.
Qed.

(** X1. [radon.__init__] succeeds exactly for positive sizes: it raises
    [ZeroDivisionError] for no angles (in [np.pi/n_angles]) and [ValueError]
    for an empty image (in [affine_grid]); the grid it stores has
    [n_angles * image_size] rows of [image_size] points. *)
Theorem radon_init_domain (n h : nat) :
  match radon.init n h with
  | Ok op =>
      (1 <= n)%nat /\ (1 <= h)%nat /\ radon.n_angles op = n /\
      shape (radon.rotated op) = [1%nat; (n * h)%nat; h; 2%nat]
  | Err e =>
      (n = 0%nat /\ e = ZeroDivisionError) \/
      ((1 <= n)%nat /\ h = 0%nat /\ e = ValueError)
  end.
Proof.
  destruct n as [|n]; [left; auto|].
  destruct h as [|h].
  - rewrite radon_init_zero_size by lia. right. repeat split; lia.
  - destruct (radon_init_spec (S n) (S h)) as (op & -> & Hna & Hs & _); try lia.
    repeat split; try lia; assumption.
Qed.

(** X2. [fbp.__init__] succeeds exactly for positive sizes and raises
    [ZeroDivisionError] otherwise (in [image_size/det_count] or in
    [np.pi/n_angles]); it stores its arguments, a step size of one, a filter
    of the padded length and a mask of the image's shape. *)
Theorem fbp_init_domain (n h : nat) (circle filtered : bool) :
  match fbp.init n h circle filtered with
  | Ok op =>
      (1 <= n)%nat /\ (1 <= h)%nat /\
      fbp.n_angles op = n /\ fbp.image_size op = h /\
      fbp.circle op = circle /\ fbp.filtered op = filtered /\
      fbp.step_size op = 1 /\
      shape (fbp.filter op) = [fbp.projection_size_padded h] /\
      shape (fbp.grid op) = [1%nat; (n * h)%nat; h; 2%nat] /\
      shape (fbp.reconstruction_circle op) = [h; h]
  | Err e => (n = 0%nat \/ h = 0%nat) /\ e = ZeroDivisionError
  end.
Proof.
  destruct h as [|h]; [split; auto|].
  destruct n as [|n].
  - unfold fbp.init.
    replace (negb (S h =? 0)%nat) with true by reflexivity. cbn [guard bind].
    destruct (padded_mul4 (S h)) as (q & Hq & HP).
    destruct (rampfilter_ok q Hq) as (f & flt & _ & Hflt & _).
    rewrite HP, Hflt. cbn [bind make_thetas Nat.eqb negb guard]. split; auto.
  - destruct (fbp_init_spec (S n) (S h) circle filtered)
      as (op & -> & His & Hss & Hna & Hc & Hf & _ & _ & Hfs & Hgs & _ & Hrs); try lia.
    repeat split; try lia; try assumption.
    rewrite Hss. field. apply not_0_INR. lia.
Qed.

(** X3. [get_operators] builds a matched pair, the backward operator filtered;
    it fails exactly when a size is zero, with the error of the first
    constructor that raises. *)
Theorem get_operators_pair (n h : nat) (circle : bool) :
  match get_operators n h circle with
  | Ok (radon_op, fbp_op) =>
      (1 <= n)%nat /\ (1 <= h)%nat /\
      radon.init n h = Ok radon_op /\
      fbp.init n h circle true = Ok fbp_op /\
      radon.n_angles radon_op = n /\ fbp.n_angles fbp_op = n /\
      fbp.image_size fbp_op = h /\
      fbp.filtered fbp_op = true /\ fbp.circle fbp_op = circle
  | Err e =>
      (n = 0%nat /\ e = ZeroDivisionError) \/
      ((1 <= n)%nat /\ h = 0%nat /\ e = ValueError)
  end.
Proof.
  unfold get_operators.
  pose proof (radon_init_domain n h) as Hr.
  pose proof (fbp_init_domain n h circle true) as Hf.
  destruct (radon.init n h) as [rop|e]; cbn [bind]; [|assumption].
  destruct (fbp.init n h circle true) as [fop|e]; cbn [bind].
  - destruct Hr as (Hn & Hh & Hna & _).
    destruct Hf as (_ & _ & Hfn & Hfi & Hfc & Hff & _).
    repeat split; assumption.
  - destruct Hr as (Hn & Hh & _). destruct Hf as [[-> | ->] _]; lia.
Qed.

(** ** Which inputs the operators accept *)

Lemma radon_forward_accept n h op image b c ss w :
  (1 <= n)%nat -> (1 <= h)%nat -> (1 <= b)%nat ->
  radon.init n h = Ok op ->
  shape image = [b; c; ss; w] ->
  match radon.forward op image with
  | Ok out =>
      (1 <= ss)%nat /\ (1 <= w)%nat /\ (c * (h * h) = ss * ss)%nat /\
      shape out = [b; 1%nat; ss; n]
  | Err e =>
      e = RuntimeError /\ (ss = 0 \/ w = 0 \/ c * (h * h) <> ss * ss)%nat
  end.
Proof.
  intros Hn Hh Hb Hinit Himg.
  destruct (radon_init_spec n h Hn Hh) as (op' & Hop & Hna & Hrs & _).
  rewrite Hinit in Hop. injection Hop as <-.
  unfold radon.forward. rewrite Himg.
  destruct (repeat4_spec (radon.rotated op) (n * h) h 2 b Hrs) as (g & Hg & Hgs & _).
  rewrite Hg. cbn [bind].
  destruct (Nat.eq_dec ss 0) as [->|Hss0].
  { rewrite (grid_sample_empty image g b c 0 w) by auto. cbn [bind]. auto. }
  destruct (Nat.eq_dec w 0) as [->|Hw0].
  { rewrite (grid_sample_empty image g b c ss 0) by auto. cbn [bind]. auto. }
  destruct (grid_sample_spec image g b c ss w (n * h) h Himg Hgs)
    as (sm & Hsm & Hsms & _); try lia.
  rewrite Hsm, Hna. cbn [bind].
  change [D b; D 1%nat; D n; D ss; D ss] with (map D [b; 1%nat; n; ss; ss]).
  assert (Hnum : numel (shape sm) = numel [b; 1%nat; n; ss; ss]
                 <-> (c * (h * h) = ss * ss)%nat).
  { rewrite Hsms. cbn [numel fold_right].
    replace (b * (c * (n * h * (h * 1))))%nat with (b * n * (c * (h * h)))%nat by ring.
    replace (b * (1 * (n * (ss * (ss * 1)))))%nat with (b * n * (ss * ss))%nat by ring.
    assert (Hbn : (b * n <> 0)%nat) by nia.
    split; [apply (Nat.mul_cancel_l _ _ _ Hbn) | congruence]. }
  destruct (Nat.eq_dec (c * (h * h)) (ss * ss)) as [Heq|Hne].
  - rewrite reshape_known by now apply Hnum. cbn [bind].
    destruct (sum_dim5_3_spec (Tensor [b; 1%nat; n; ss; ss] (flat sm)) b 1 n ss ss eq_refl)
      as (sd & Hsd & Hsds & _).
    rewrite Hsd. cbn [bind].
    destruct (permute_0132_spec sd b 1 n ss Hsds) as (out & Hout & Houts & _).
    rewrite Hout. repeat split; try lia; assumption.
  - rewrite reshape_mismatch by (intros E; apply Hne, Hnum, E).
    cbn [bind]. auto.
Qed.

(** X4. On a non-empty batch the forward operator accepts a four-dimensional
    input exactly when its height and width are positive and
    [channels * image_size^2 = height^2]; it then returns
    [batch x 1 x height x n_angles], and otherwise it raises a
    [RuntimeError]. A single channel of the operator's height is the usual
    case, but four channels of twice the height pass as well. *)
Theorem radon_forward_acceptance (n h b c ss w : nat) (image : tensor R) :
  (1 <= n)%nat -> (1 <= h)%nat -> (1 <= b)%nat ->
  shape image = [b; c; ss; w] ->
  exists op,
    radon.init n h = Ok op /\
    match radon.forward op image with
    | Ok out =>
        (1 <= ss)%nat /\ (1 <= w)%nat /\ (c * (h * h) = ss * ss)%nat /\
        shape out = [b; 1%nat; ss; n]
    | Err e =>
        e = RuntimeError /\ (ss = 0 \/ w = 0 \/ c * (h * h) <> ss * ss)%nat
    end.
Proof.
  intros Hn Hh Hb Himg.
  destruct (radon_init_spec n h Hn Hh) as (op & Hop & _).
  exists op. split; [assumption|].
  now apply (radon_forward_accept n h op image b c ss w).
Qed.

Lemma radon_forward_acceptance_witness :
  exists op,
    radon.init 3 2 = Ok op /\
    match radon.forward op (Tensor [1; 4; 4; 5]%nat (fun _ => 1)) with
    | Ok out =>
        (1 <= 4)%nat /\ (1 <= 5)%nat /\ (4 * (2 * 2) = 4 * 4)%nat /\
        shape out = [1; 1; 4; 3]%nat
    | Err e =>
        e = RuntimeError /\ (4 = 0 \/ 5 = 0 \/ 4 * (2 * 2) <> 4 * 4)%nat
    end.
Proof.
  apply (radon_forward_acceptance 3 2 1 4 4 5); [lia | lia | lia | reflexivity].
Defined.

Lemma fbp_forward_accept n h circle filtered op input b c det ang :
  (1 <= n)%nat -> (1 <= h)%nat -> (1 <= b)%nat ->
  fbp.init n h circle filtered = Ok op ->
  shape input = [b; c; det; ang] ->
  match fbp.forward op input with
  | Ok out =>
      c = 1%nat /\ (1 <= det)%nat /\ (1 <= ang)%nat /\
      (filtered = true -> det = h) /\ shape out = [b; 1%nat; h; h]
  | Err e =>
      e = RuntimeError /\
      (c <> 1 \/ det = 0 \/ ang = 0 \/ (filtered = true /\ det <> h))%nat
  end.
Proof.
  intros Hn Hh Hb Hinit Hin.
  destruct (fbp_init_spec n h circle filtered Hn Hh)
    as (op' & Hop & His & _ & Hna & _ & Hf & _ & _ & _ & Hgs & _).
  rewrite Hinit in Hop. injection Hop as <-.
  (* a wrong detector count stops the filtered mode at the filter *)
  destruct (Bool.bool_dec filtered true) as [->|Hunf].
  - destruct (Nat.eq_dec det h) as [->|Hdet].
    + destruct (Nat.eq_dec c 1) as [->|Hc].
      * destruct (Nat.eq_dec ang 0) as [->|Hang].
        -- unfold fbp.forward. rewrite Hin, Hf.
           rewrite (fbp_filter_stage_empty n h circle op input b 1 h 0) by auto.
           cbn [bind]. auto.
        -- destruct (fbp_forward_spec n h circle true op input b h ang)
             as (_ & out & _ & _ & -> & Hs & _); try assumption; try lia; auto.
           repeat split; try lia; auto.
      * unfold fbp.forward. rewrite Hin, Hf.
        destruct (Nat.eq_dec ang 0) as [->|Hang];
          [rewrite (fbp_filter_stage_empty n h circle op input b c h 0) by auto;
           cbn [bind]; auto|].
        destruct (Nat.eq_dec c 0) as [->|Hc0];
          [rewrite (fbp_filter_stage_empty n h circle op input b 0 h ang) by auto;
           cbn [bind]; auto|].
        destruct (fbp_filter_stage n h circle op input b c ang Hn Hh Hinit Hin)
          as (rf & Hrf & Hrfs); [lia..|].
        rewrite Hrf. cbn [bind].
        destruct (repeat4_spec (fbp.grid op) (n * h) h 2 b Hgs) as (g & Hg & Hgsh & _).
        rewrite Hg. cbn [bind].
        destruct (grid_sample_spec rf g b c h ang (n * h) h Hrfs Hgsh)
          as (sm & Hsm & Hsms & _); try lia.
        rewrite Hsm, Hna, His. cbn [bind]. unfold view.
        change [D b; D n; D 1%nat; D h; D h] with (map D [b; n; 1%nat; h; h]).
        rewrite reshape_mismatch; [cbn [bind]; auto|].
        rewrite Hsms. cbn [numel fold_right]. intros E. apply Hc.
        assert (Hk : (b * n * h * h <> 0)%nat)
          by (apply Nat.neq_0_lt_0; repeat apply Nat.mul_pos_pos; lia).
        apply (Nat.mul_cancel_l _ _ _ Hk). lia.
    + unfold fbp.forward. rewrite Hin, Hf.
      rewrite (fbp_filter_stage_mismatch n h circle op input b c det ang) by assumption.
      cbn [bind]. auto 6.
  - assert (filtered = false) as -> by (destruct filtered; congruence).
    unfold fbp.forward. rewrite Hin, Hf. cbn [bind].
    destruct (repeat4_spec (fbp.grid op) (n * h) h 2 b Hgs) as (g & Hg & Hgsh & _).
    destruct (Nat.eq_dec det 0) as [->|Hdet];
      [rewrite Hg; cbn [bind];
       rewrite (grid_sample_empty input g b c 0 ang) by auto; cbn [bind]; auto|].
    destruct (Nat.eq_dec ang 0) as [->|Hang];
      [rewrite Hg; cbn [bind];
       rewrite (grid_sample_empty input g b c det 0) by auto; cbn [bind]; auto|].
    destruct (Nat.eq_dec c 1) as [->|Hc].
    + destruct (fbp_forward_spec n h circle false op input b det ang)
        as (_ & out & _ & _ & Hout & Hs & _); try assumption; try lia; try discriminate.
      unfold fbp.forward in Hout. rewrite Hin, Hf in Hout. cbn [bind] in Hout.
      rewrite Hout. repeat split; try lia; try discriminate; assumption.
    + rewrite Hg. cbn [bind].
      destruct (grid_sample_spec input g b c det ang (n * h) h Hin Hgsh)
        as (sm & Hsm & Hsms & _); try lia.
      rewrite Hsm, Hna, His. cbn [bind]. unfold view.
      change [D b; D n; D 1%nat; D h; D h] with (map D [b; n; 1%nat; h; h]).
      rewrite reshape_mismatch; [cbn [bind]; auto|].
      rewrite Hsms. cbn [numel fold_right]. intros E. apply Hc.
      assert (Hk : (b * n * h * h <> 0)%nat)
          by (apply Nat.neq_0_lt_0; repeat apply Nat.mul_pos_pos; lia).
      apply (Nat.mul_cancel_l _ _ _ Hk). lia.
Qed.

(** X5. On a non-empty batch the backward operator accepts a four-dimensional
    input exactly when it has one channel and positive detector and angle
    counts and, in filtered mode, the operator's detector count; it then
    returns [batch x 1 x image_size x image_size], and otherwise it raises a
    [RuntimeError]. The angle count is never compared with [n_angles], and
    in unfiltered mode neither is the detector count with [image_size]. *)
Theorem fbp_forward_acceptance (n h b c det ang : nat) (circle filtered : bool)
    (input : tensor R) :
  (1 <= n)%nat -> (1 <= h)%nat -> (1 <= b)%nat ->
  shape input = [b; c; det; ang] ->
  exists op,
    fbp.init n h circle filtered = Ok op /\
    match fbp.forward op input with
    | Ok out =>
        c = 1%nat /\ (1 <= det)%nat /\ (1 <= ang)%nat /\
        (filtered = true -> det = h) /\ shape out = [b; 1%nat; h; h]
    | Err e =>
        e = RuntimeError /\
        (c <> 1 \/ det = 0 \/ ang = 0 \/ (filtered = true /\ det <> h))%nat
    end.
Proof.
  intros Hn Hh Hb Hin.
  destruct (fbp_init_spec n h circle filtered Hn Hh) as (op & Hop & _).
  exists op. split; [assumption|].
  now apply (fbp_forward_accept n h circle filtered op input b c det ang).
Qed.

Lemma fbp_forward_acceptance_witness :
  exists op,
    fbp.init 3 2 true true = Ok op /\
    match fbp.forward op (Tensor [2; 3; 2; 5]%nat (fun _ => 1)) with
    | Ok out =>
        3%nat = 1%nat /\ (1 <= 2)%nat /\ (1 <= 5)%nat /\
        (true = true -> 2%nat = 2%nat) /\ shape out = [2; 1; 2; 2]%nat
    | Err e =>
        e = RuntimeError /\
        (3 <> 1 \/ 2 = 0 \/ 5 = 0 \/ (true = true /\ 2 <> 2))%nat
    end.
Proof.
  apply (fbp_forward_acceptance 3 2 2 3 2 5 true true); [lia | lia | lia | reflexivity].
Defined.

(** ** Linearity and locality of the forward operator *)

Lemma pixel_ext (f g : nat -> nat -> R) h w iy ix :
  (forall y x, (y < h)%nat -> (x < w)%nat -> f y x = g y x) ->
  pixel f h w iy ix = pixel g h w iy ix.
Proof.
  intros Hfg. unfold pixel.
  destruct ((0 <=? iy) && (iy <? Z.of_nat h) && (0 <=? ix) && (ix <? Z.of_nat w))%Z eqn:E;
    [|reflexivity].
  rewrite !andb_true_iff, !Z.leb_le, !Z.ltb_lt in E.
  apply Hfg; lia.
Qed.

Lemma pixel_linear (f g : nat -> nat -> R) c h w iy ix :
  pixel (fun y x => c * f y x + g y x) h w iy ix
  = c * pixel f h w iy ix + pixel g h w iy ix.
Proof.
  unfold pixel.
  destruct ((0 <=? iy) && (iy <? Z.of_nat h) && (0 <=? ix) && (ix <? Z.of_nat w))%Z;
    ring.
Qed.

Lemma bilinear_ext (f g : nat -> nat -> R) h w px py :
  (forall y x, (y < h)%nat -> (x < w)%nat -> f y x = g y x) ->
  bilinear f h w px py = bilinear g h w px py.
Proof.
  intros Hfg. unfold bilinear. now rewrite !(pixel_ext f g h w) by assumption.
Qed.

Lemma bilinear_linear (f g : nat -> nat -> R) c h w px py :
  bilinear (fun y x => c * f y x + g y x) h w px py
  = c * bilinear f h w px py + bilinear g h w px py.
Proof. unfold bilinear. rewrite !pixel_linear. ring. Qed.

Lemma rsum_linear n f g c :
  rsum n (fun k => c * f k + g k) = c * rsum n f + rsum n g.
Proof. induction n as [|n IH]; cbn [rsum]; [ring|]. rewrite IH. ring. Qed.

Lemma radon_value_ext n h w (f g : nat -> nat -> R) j a :
  (forall y x, (y < h)%nat -> (x < w)%nat -> f y x = g y x) ->
  radon_value n h w f j a = radon_value n h w g j a.
Proof.
  intros Hfg. unfold radon_value. apply rsum_ext. intros i _.
  now apply bilinear_ext.
Qed.

Lemma radon_value_linear n h w (f g : nat -> nat -> R) c j a :
  radon_value n h w (fun y x => c * f y x + g y x) j a
  = c * radon_value n h w f j a + radon_value n h w g j a.
Proof.
  unfold radon_value. rewrite <- rsum_linear. apply rsum_ext. intros i _.
  apply bilinear_linear.
Qed.

(** X6. The forward operator is linear: the sinogram of [c * x1 + x2] is [c]
    times the sinogram of [x1] plus the sinogram of [x2], for images of any
    width. *)
Theorem radon_forward_linear (n h b w : nat) (c : R) (x1 x2 : tensor R) :
  (1 <= n)%nat -> (1 <= h)%nat -> (1 <= w)%nat ->
  shape x1 = [b; 1%nat; h; w] -> shape x2 = [b; 1%nat; h; w] ->
  exists op z s1 s2 sz,
    radon.init n h = Ok op /\
    add (mul_scalar x1 c) x2 = Ok z /\
    radon.forward op x1 = Ok s1 /\
    radon.forward op x2 = Ok s2 /\
    radon.forward op z = Ok sz /\
    forall b0 j a, (b0 < b)%nat -> (j < h)%nat -> (a < n)%nat ->
      get sz [b0; 0%nat; j; a]
      = c * get s1 [b0; 0%nat; j; a] + get s2 [b0; 0%nat; j; a].
Proof.
  intros Hn Hh Hw H1 H2.
  destruct (radon_init_spec n h Hn Hh) as (op & Hop & _).
  destruct (map2_same4 Rplus (mul_scalar x1 c) x2 b 1 h w H1 H2) as (z & Hz & Hzs & Hzg).
  destruct (radon_forward_spec n h op x1 b w Hn Hh Hw Hop H1) as (s1 & Hs1 & _ & Hg1).
  destruct (radon_forward_spec n h op x2 b w Hn Hh Hw Hop H2) as (s2 & Hs2 & _ & Hg2).
  destruct (radon_forward_spec n h op z b w Hn Hh Hw Hop Hzs) as (sz & Hsz & _ & Hgz).
  exists op, z, s1, s2, sz. repeat (split; [assumption|]).
  intros b0 j a Hb0 Hj Ha. rewrite Hgz, Hg1, Hg2 by assumption.
  rewrite <- radon_value_linear. apply radon_value_ext.
  intros y x Hy Hx. rewrite Hzg by lia. unfold mul_scalar. rewrite get_tmap. ring.
Qed.

Lemma radon_forward_linear_witness :
  exists op z s1 s2 sz,
    radon.init 3 2 = Ok op /\
    add (mul_scalar (Tensor [1; 1; 2; 5]%nat (fun k => INR k)) 7)
        (Tensor [1; 1; 2; 5]%nat (fun _ => 1)) = Ok z /\
    radon.forward op (Tensor [1; 1; 2; 5]%nat (fun k => INR k)) = Ok s1 /\
    radon.forward op (Tensor [1; 1; 2; 5]%nat (fun _ => 1)) = Ok s2 /\
    radon.forward op z = Ok sz /\
    forall b0 j a, (b0 < 1)%nat -> (j < 2)%nat -> (a < 3)%nat ->
      get sz [b0; 0%nat; j; a]
      = 7 * get s1 [b0; 0%nat; j; a] + get s2 [b0; 0%nat; j; a].
Proof.
  apply (radon_forward_linear 3 2 1 5 7); [lia | lia | lia | reflexivity | reflexivity].
Defined.

(** X7. The forward operator works batch item by batch item and reads only the
    pixels of the image: two inputs that agree on one batch item give
    sinograms that agree on it, and an all-zero item gives an all-zero
    sinogram. *)
Theorem radon_forward_local (n h b w b0 : nat) (x1 x2 : tensor R) :
  (1 <= n)%nat -> (1 <= h)%nat -> (1 <= w)%nat -> (b0 < b)%nat ->
  shape x1 = [b; 1%nat; h; w] -> shape x2 = [b; 1%nat; h; w] ->
  exists op s1 s2,
    radon.init n h = Ok op /\
    radon.forward op x1 = Ok s1 /\
    radon.forward op x2 = Ok s2 /\
    ((forall y x, (y < h)%nat -> (x < w)%nat ->
        get x1 [b0; 0%nat; y; x] = get x2 [b0; 0%nat; y; x]) ->
     forall j a, (j < h)%nat -> (a < n)%nat ->
       get s1 [b0; 0%nat; j; a] = get s2 [b0; 0%nat; j; a]) /\
    ((forall y x, (y < h)%nat -> (x < w)%nat -> get x1 [b0; 0%nat; y; x] = 0) ->
     forall j a, (j < h)%nat -> (a < n)%nat -> get s1 [b0; 0%nat; j; a] = 0).
Proof.
  intros Hn Hh Hw Hb0 H1 H2.
  destruct (radon_init_spec n h Hn Hh) as (op & Hop & _).
  destruct (radon_forward_spec n h op x1 b w Hn Hh Hw Hop H1) as (s1 & Hs1 & _ & Hg1).
  destruct (radon_forward_spec n h op x2 b w Hn Hh Hw Hop H2) as (s2 & Hs2 & _ & Hg2).
  exists op, s1, s2. repeat (split; [assumption|]). split.
  - intros Heq j a Hj Ha. rewrite Hg1, Hg2 by assumption.
    now apply radon_value_ext.
  - intros Hz j a Hj Ha. rewrite Hg1 by assumption.
    rewrite (radon_value_ext n h w _ (fun _ _ => 0)) by assumption.
    unfold radon_value. apply rsum_zero. intros i _.
    unfold bilinear, pixel.
    repeat match goal with |- context [if ?c then _ else _] => destruct c end; ring.
Qed.

Lemma radon_forward_local_witness :
  exists op s1 s2,
    radon.init 3 2 = Ok op /\
    radon.forward op (Tensor [2; 1; 2; 2]%nat (fun _ => 0)) = Ok s1 /\
    radon.forward op (Tensor [2; 1; 2; 2]%nat (fun k => if (k <? 4)%nat then 0 else 1)) = Ok s2 /\
    ((forall y x, (y < 2)%nat -> (x < 2)%nat ->
        get (Tensor [2; 1; 2; 2]%nat (fun _ => 0)) [0%nat; 0%nat; y; x]
        = get (Tensor [2; 1; 2; 2]%nat (fun k => if (k <? 4)%nat then 0 else 1))
              [0%nat; 0%nat; y; x]) ->
     forall j a, (j < 2)%nat -> (a < 3)%nat ->
       get s1 [0%nat; 0%nat; j; a] = get s2 [0%nat; 0%nat; j; a]) /\
    ((forall y x, (y < 2)%nat -> (x < 2)%nat ->
        get (Tensor [2; 1; 2; 2]%nat (fun _ => 0)) [0%nat; 0%nat; y; x] = 0) ->
     forall j a, (j < 2)%nat -> (a < 3)%nat -> get s1 [0%nat; 0%nat; j; a] = 0).
Proof.
  apply (radon_forward_local 3 2 2 2 0);
    [lia | lia | lia | lia | reflexivity | reflexivity].
Defined.

(** ** The filtering stage of the backward operator *)

Lemma pad2_value {A : Type} (t : tensor A) b c d a p (v : A) :
  shape t = [b; c; d; a] ->
  exists r, pad2 t 0 0 0 p v = Ok r /\ shape r = [b; c; (d + p)%nat; a] /\
    forall b0 c0 i j, (b0 < b)%nat -> (c0 < c)%nat -> (i < d + p)%nat -> (j < a)%nat ->
      get r [b0; c0; i; j] = if (i <? d)%nat then get t [b0; c0; i; j] else v.
Proof.
  intros Hs. unfold pad2. rewrite Hs. list_step.
  eexists. split; [reflexivity|]. split.
  - cbn [shape build]. now rewrite !Nat.add_0_l, Nat.add_0_r.
  - intros b0 c0 i j Hb Hc Hi Hj. rewrite get_build by bounds. list_step.
    rewrite !Nat.add_0_l, !Nat.sub_0_r.
    change (0 <=? i)%nat with true. change (0 <=? j)%nat with true.
    rewrite (ltb_true j a) by assumption. cbn [andb]. now rewrite !andb_true_r.
Qed.

Lemma fft_value (t : tensor R) b c d a :
  shape t = [b; c; d; a] ->
  (1 <= b)%nat -> (1 <= c)%nat -> (1 <= d)%nat -> (1 <= a)%nat ->
  exists r, fft t 2 = Ok r /\ shape r = [b; c; d; a] /\
    forall b0 c0 k j, (b0 < b)%nat -> (c0 < c)%nat -> (k < d)%nat -> (j < a)%nat ->
      get r [b0; c0; k; j]
      = (rsum d (fun m => get t [b0; c0; m; j] * Rtrigo_def.cos (twiddle k m d)),
         - rsum d (fun m => get t [b0; c0; m; j] * Rtrigo_def.sin (twiddle k m d))).
Proof.
  intros Hs Hb Hc Hd Ha. unfold fft. rewrite Hs. list_step.
  rewrite !ltb_true by (cbn; lia). rewrite numel4_pos by assumption. list_step.
  eexists. split; [reflexivity|]. split; [reflexivity|].
  intros. rewrite get_build by bounds. reflexivity.
Qed.

Lemma ifft_value (t : tensor complex) b c d a :
  shape t = [b; c; d; a] ->
  (1 <= b)%nat -> (1 <= c)%nat -> (1 <= d)%nat -> (1 <= a)%nat ->
  exists r, ifft t 2 = Ok r /\ shape r = [b; c; d; a] /\
    forall b0 c0 i j, (b0 < b)%nat -> (c0 < c)%nat -> (i < d)%nat -> (j < a)%nat ->
      fst (get r [b0; c0; i; j])
      = rsum d (fun k => fst (get t [b0; c0; k; j]) * Rtrigo_def.cos (twiddle k i d)
                         - snd (get t [b0; c0; k; j]) * Rtrigo_def.sin (twiddle k i d))
        / INR d.
Proof.
  intros Hs Hb Hc Hd Ha. unfold ifft. rewrite Hs. list_step.
  rewrite !ltb_true by (cbn; lia). rewrite numel4_pos by assumption. list_step.
  eexists. split; [reflexivity|]. split; [reflexivity|].
  intros. rewrite get_build by bounds. reflexivity.
Qed.

Lemma map2_4_2_value {A B C : Type} (f : A -> B -> C) x y b c d a :
  shape x = [b; c; d; a] -> shape y = [d; 1%nat] ->
  exists r, map2 f x y = Ok r /\ shape r = [b; c; d; a] /\
    forall b0 c0 k j, (b0 < b)%nat -> (c0 < c)%nat -> (k < d)%nat -> (j < a)%nat ->
      get r [b0; c0; k; j] = f (get x [b0; c0; k; j]) (get y [k; 0%nat]).
Proof.
  intros Ha Hb. eexists. split; [|split].
  - apply map2_spec. rewrite Ha, Hb. bcast. reflexivity.
  - reflexivity.
  - intros b0 c0 k j Hb0 Hc0 Hk Hj. rewrite get_build by bounds.
    rewrite Ha, Hb. bcast. now rewrite !bsel by assumption.
Qed.

Lemma narrow_value {A : Type} (t : tensor A) b c d a len :
  shape t = [b; c; d; a] -> (len <= d)%nat ->
  exists r, narrow t 2 len = Ok r /\ shape r = [b; c; len; a] /\
    forall b0 c0 i j, (b0 < b)%nat -> (c0 < c)%nat -> (i < len)%nat -> (j < a)%nat ->
      get r [b0; c0; i; j] = get t [b0; c0; i; j].
Proof.
  intros Hs Hl. unfold narrow. rewrite Hs. list_step.
  rewrite !ltb_true by (cbn; lia). list_step.
  eexists. split; [reflexivity|]. split.
  - cbn [shape build]. now rewrite Nat.min_l.
  - intros. rewrite get_build by (rewrite Nat.min_l by assumption; bounds). reflexivity.
Qed.

Lemma fbp_filter_stage_value n h circle op (input : tensor R) b c ang :
  (1 <= n)%nat -> (1 <= h)%nat ->
  fbp.init n h circle true = Ok op ->
  shape input = [b; c; h; ang] ->
  (1 <= b)%nat -> (1 <= c)%nat -> (1 <= ang)%nat ->
  exists rf,
    (padded_input <- pad2 input 0 0 0 (fbp.pad_width op) 0 ;;
     spectrum <- fft padded_input 2 ;;
     projection <- map2 cmul_real spectrum (unsqueeze (fbp.filter op) 1) ;;
     back <- ifft projection 2 ;;
     narrow (real back) 2 h) = Ok rf /\
    shape rf = [b; c; h; ang] /\
    forall b0 c0 i j, (b0 < b)%nat -> (c0 < c)%nat -> (i < h)%nat -> (j < ang)%nat ->
      get rf [b0; c0; i; j]
      = filtered_value (h + fbp.pad_width op) (flat (fbp.filter op)) h
          (fun m => get input [b0; c0; m; j]) i.
Proof.
  intros Hn Hh Hinit Hin Hb Hc Hang.
  destruct (fbp_init_spec n h circle true Hn Hh)
    as (op' & Hop & _ & _ & _ & _ & _ & Hpw & _ & Hfs & _).
  rewrite Hinit in Hop. injection Hop as <-.
  destruct (padded_pad h Hh) as [HP Hpad]. rewrite Hpw.
  set (P := fbp.projection_size_padded h) in *.
  destruct (pad2_value input b c h ang (P - h) 0 Hin) as (pi & Hpi & Hpis & Hpig).
  rewrite Hpi. rewrite HP in Hpis, Hpig. rewrite HP. cbn [bind].
  destruct (fft_value pi b c P ang Hpis Hb Hc ltac:(lia) Hang)
    as (sp & Hsp & Hsps & Hspg).
  rewrite Hsp. cbn [bind].
  assert (Hfu : shape (unsqueeze (fbp.filter op) 1) = [P; 1%nat]).
  { unfold unsqueeze. cbn [shape]. now rewrite Hfs. }
  assert (Hfg : forall k, get (unsqueeze (fbp.filter op) 1) [k; 0%nat] = flat (fbp.filter op) k).
  { intros k. unfold get. rewrite Hfu. cbn [unsqueeze flat ravel numel fold_right].
    f_equal; lia. }
  destruct (map2_4_2_value cmul_real sp (unsqueeze (fbp.filter op) 1) b c P ang Hsps Hfu)
    as (pr & Hpr & Hprs & Hprg).
  rewrite Hpr. cbn [bind].
  destruct (ifft_value pr b c P ang Hprs Hb Hc ltac:(lia) Hang)
    as (bk & Hbk & Hbks & Hbkg).
  rewrite Hbk. cbn [bind].
  destruct (narrow_value (real bk) b c P ang h Hbks ltac:(lia)) as (rf & Hrf & Hrfs & Hrfg).
  rewrite Hrf. exists rf. split; [reflexivity|]. split; [assumption|].
  intros b0 c0 i j Hb0 Hc0 Hi Hj.
  rewrite Hrfg by assumption. unfold real. rewrite get_tmap, Hbkg by lia.
  unfold filtered_value. f_equal. apply rsum_ext. intros k Hk.
  rewrite Hprg, Hfg, Hspg by lia. unfold cmul_real. cbn [fst snd].
  assert (Hpv : forall m, (m < P)%nat ->
            get pi [b0; c0; m; j] = padded_value h (fun m => get input [b0; c0; m; j]) m).
  { intros m Hm. rewrite Hpig by lia. reflexivity. }
  rewrite (rsum_ext P (fun m => get pi [b0; c0; m; j] * Rtrigo_def.cos (twiddle k m P))
             (fun m => padded_value h (fun m => get input [b0; c0; m; j]) m
                       * Rtrigo_def.cos (twiddle k m P)))
    by (intros m Hm; now rewrite Hpv).
  rewrite (rsum_ext P (fun m => get pi [b0; c0; m; j] * Rtrigo_def.sin (twiddle k m P))
             (fun m => padded_value h (fun m => get input [b0; c0; m; j]) m
                       * Rtrigo_def.sin (twiddle k m P)))
    by (intros m Hm; now rewrite Hpv).
  reflexivity.
Qed.

(** ** What the backward operator returns *)

Lemma backprojection_ext n h det ang (f g : nat -> nat -> R) i j :
  (forall y x, (y < det)%nat -> (x < ang)%nat -> f y x = g y x) ->
  backprojection n h det ang f i j = backprojection n h det ang g i j.
Proof.
  intros Hfg. unfold backprojection. apply rsum_ext. intros a _.
  now apply bilinear_ext.
Qed.

Lemma backprojection_linear n h det ang (f g : nat -> nat -> R) c i j :
  backprojection n h det ang (fun y x => c * f y x + g y x) i j
  = c * backprojection n h det ang f i j + backprojection n h det ang g i j.
Proof.
  unfold backprojection. rewrite <- rsum_linear. apply rsum_ext. intros a _.
  apply bilinear_linear.
Qed.

Lemma fbp_forward_value n h circle filtered op input b det ang :
  (1 <= n)%nat -> (1 <= h)%nat -> (1 <= det)%nat -> (1 <= ang)%nat ->
  fbp.init n h circle filtered = Ok op ->
  shape input = [b; 1%nat; det; ang] ->
  (filtered = true -> det = h) ->
  (filtered = true -> (1 <= b)%nat) ->
  exists out,
    fbp.forward op input = Ok out /\
    shape out = [b; 1%nat; h; h] /\
    forall b0 i j, (b0 < b)%nat -> (i < h)%nat -> (j < h)%nat ->
      get out [b0; 0%nat; i; j]
      = (if circle && negb (get (fbp.reconstruction_circle op) [i; j]) then 0
         else backprojection n h det ang (fbp_sinogram op input b0) i j
              / (INR h / INR h))
        * PI / INR (2 * n).
Proof.
  intros Hn Hh Hdet Hang Hinit Hin Hfd Hfb.
  destruct (fbp_init_spec n h circle filtered Hn Hh)
    as (op' & Hop & His & Hss & Hna & Hc & Hf & Hpw & _ & Hfs & Hgs & Hgg & Hrs).
  rewrite Hinit in Hop. injection Hop as <-.
  assert (Hstage : exists rf,
            (if fbp.filtered op
             then padded_input <- pad2 input 0 0 0 (fbp.pad_width op) 0 ;;
                  spectrum <- fft padded_input 2 ;;
                  projection <- map2 cmul_real spectrum (unsqueeze (fbp.filter op) 1) ;;
                  back <- ifft projection 2 ;;
                  narrow (real back) 2 det
             else Ok input) = Ok rf /\
            shape rf = [b; 1%nat; det; ang] /\
            forall b0 y x, (b0 < b)%nat -> (y < det)%nat -> (x < ang)%nat ->
              get rf [b0; 0%nat; y; x] = fbp_sinogram op input b0 y x).
  { unfold fbp_sinogram. rewrite Hf, His. destruct filtered.
    - rewrite (Hfd eq_refl) in *.
      destruct (fbp_filter_stage_value n h circle op input b 1 ang Hn Hh Hinit Hin
                  (Hfb eq_refl) (le_n 1) Hang)
        as (rf & Hrf & Hrfs & Hrfg).
      exists rf. split; [assumption|]. split; [assumption|].
      intros b0 y x Hb0 Hy Hx. apply Hrfg; lia.
    - exists input. split; [reflexivity|]. split; [assumption|]. reflexivity. }
  destruct Hstage as (rf & Hrf & Hrfs & Hrfg).
  unfold fbp.forward. rewrite Hin, Hrf. cbn [bind].
  destruct (repeat4_spec (fbp.grid op) (n * h) h 2 b Hgs) as (g & Hg & Hgsh & Hggt).
  rewrite Hg. cbn [bind].
  destruct (grid_sample_spec rf g b 1 det ang (n * h) h Hrfs Hgsh Hdet Hang)
    as (sm & Hsm & Hsms & Hsmg).
  rewrite Hsm, Hna, His. cbn [bind]. unfold view.
  change [D b; D n; D 1%nat; D h; D h] with (map D [b; n; 1%nat; h; h]).
  rewrite reshape_known by (rewrite Hsms; cbn [numel fold_right]; ring).
  cbn [bind].
  set (vw := Tensor [b; n; 1%nat; h; h] (flat sm)).
  destruct (sum_dim5_1_spec vw b n 1 h h eq_refl) as (sd & Hsd & Hsds & Hsdg).
  rewrite Hsd. cbn [bind].
  assert (Hacc : forall b0 i j, (b0 < b)%nat -> (i < h)%nat -> (j < h)%nat ->
            get sd [b0; 0%nat; i; j]
            = backprojection n h det ang (fbp_sinogram op input b0) i j).
  { intros b0 i j Hb0 Hi Hj. rewrite Hsdg by lia.
    rewrite <- (backprojection_ext n h det ang (fun y x => get rf [b0; 0%nat; y; x]))
      by (intros y x Hy Hx; now apply Hrfg).
    unfold backprojection. apply rsum_ext. intros a Ha.
    assert (Hvw : get vw [b0; a; 0%nat; i; j] = get sm [b0; 0%nat; (a * h + i)%nat; j]).
    { apply get_reshaped. rewrite Hsms. cbn [ravel numel fold_right]. ring. }
    assert (Hah : (a * h + i < n * h)%nat) by nia.
    rewrite Hvw, Hsmg, !Hggt by lia.
    destruct (Hgg a i j Ha Hi Hj) as [-> ->]. reflexivity. }
  rewrite Hc, Hss.
  set (rec := div_scalar sd (INR h / INR h)).
  assert (Hrecs : shape rec = [b; 1%nat; h; h]) by exact Hsds.
  destruct circle.
  - destruct (repeat2_spec (fbp.reconstruction_circle op) h h b Hrs)
      as (mk & Hmk & Hmks & Hmkg).
    rewrite Hmk. cbn [bind].
    destruct (masked_fill_spec rec (eq_scalar (double_of_bool mk) 0) 0)
      as (mf & Hmf & Hmfs & Hmfg).
    { cbn [eq_scalar double_of_bool tmap shape]. congruence. }
    rewrite Hmf. cbn [bind]. eexists. split; [reflexivity|].
    split; [cbn [div_scalar mul_scalar tmap shape]; congruence|].
    intros b0 i j Hb0 Hi Hj.
    unfold div_scalar at 1, mul_scalar. rewrite !get_tmap, Hmfg.
    unfold eq_scalar, double_of_bool. rewrite !get_tmap, Hmkg by assumption.
    cbn [andb].
    unfold rec, div_scalar. rewrite get_tmap, Hacc by assumption.
    destruct (get (fbp.reconstruction_circle op) [i; j]); cbn [negb]; unfold Reqb.
    + destruct (Req_dec_T 1 0) as [E|_]; [lra|]. reflexivity.
    + destruct (Req_dec_T 0 0) as [_|E]; [|lra]. reflexivity.
  - cbn [bind]. eexists. split; [reflexivity|]. split; [exact Hsds|].
    intros b0 i j Hb0 Hi Hj. cbn [andb].
    unfold div_scalar at 1, mul_scalar. rewrite !get_tmap.
    unfold rec, div_scalar. rewrite get_tmap, Hacc by assumption. reflexivity.
Qed.

(** C8. The backward operator returns the angle-summed accumulation divided
    by the step size, which is [image_size / det_count = 1], and scaled by
    [pi / (2 n_angles)]: at every pixel that the stored circle mask keeps
    (every pixel without the circle option), the result is the accumulation
    of the sinogram, filtered in filtered mode, times
    [pi / (2 n_angles step_size)]. *)
Theorem backprojection_scaling (n h b det ang : nat) (circle filtered : bool)
    (input : tensor R) :
  (1 <= n)%nat -> (1 <= h)%nat -> (1 <= b)%nat -> (1 <= det)%nat -> (1 <= ang)%nat ->
  shape input = [b; 1%nat; det; ang] ->
  (filtered = true -> det = h) ->
  exists op out,
    fbp.init n h circle filtered = Ok op /\
    fbp.forward op input = Ok out /\
    fbp.step_size op = INR h / INR h /\
    fbp.step_size op = 1 /\
    forall b0 i j, (b0 < b)%nat -> (i < h)%nat -> (j < h)%nat ->
      circle = false \/ get (fbp.reconstruction_circle op) [i; j] = true ->
      get out [b0; 0%nat; i; j]
      = backprojection n h det ang (fbp_sinogram op input b0) i j
        * (PI / (2 * INR n * fbp.step_size op)).
Proof.
  intros Hn Hh Hb Hdet Hang Hin Hfd.
  destruct (fbp_init_spec n h circle filtered Hn Hh) as (op & Hop & _ & Hss & _).
  destruct (fbp_forward_value n h circle filtered op input b det ang
              Hn Hh Hdet Hang Hop Hin Hfd (fun _ => Hb)) as (out & Hout & _ & Hg).
  assert (Hh0 : INR h <> 0) by (apply not_0_INR; lia).
  assert (Hn0 : INR n <> 0) by (apply not_0_INR; lia).
  exists op, out. repeat (split; [assumption|]).
  split; [rewrite Hss; now field|].
  intros b0 i j Hb0 Hi Hj Hkeep. rewrite Hg, Hss by assumption.
  replace (circle && negb (get (fbp.reconstruction_circle op) [i; j])) with false.
  - rewrite mult_INR. change (INR 2) with 2. field. split; assumption.
  - symmetry. destruct Hkeep as [-> | ->]; [reflexivity | apply andb_false_r].
Qed.

Lemma backprojection_scaling_witness :
  exists op out,
    fbp.init 2 2 false true = Ok op /\
    fbp.forward op (Tensor [1; 1; 2; 2]%nat (fun _ => 1)) = Ok out /\
    fbp.step_size op = INR 2 / INR 2 /\
    fbp.step_size op = 1 /\
    forall b0 i j, (b0 < 1)%nat -> (i < 2)%nat -> (j < 2)%nat ->
      false = false \/ get (fbp.reconstruction_circle op) [i; j] = true ->
      get out [b0; 0%nat; i; j]
      = backprojection 2 2 2 2
          (fbp_sinogram op (Tensor [1; 1; 2; 2]%nat (fun _ => 1)) b0) i j
        * (PI / (2 * INR 2 * fbp.step_size op)).
Proof.
  apply (backprojection_scaling 2 2 1 2 2 false true);
    [lia | lia | lia | lia | lia | reflexivity | reflexivity].
Defined.

Lemma padded_value_linear det (f g : nat -> R) c m :
  padded_value det (fun k => c * f k + g k) m
  = c * padded_value det f m + padded_value det g m.
Proof. unfold padded_value. destruct (m <? det)%nat; ring. Qed.

Lemma filtered_value_linear p flt det (f g : nat -> R) c i :
  filtered_value p flt det (fun k => c * f k + g k) i
  = c * filtered_value p flt det f i + filtered_value p flt det g i.
Proof.
  unfold filtered_value.
  assert (Hc : forall (tr : R -> R) k,
            rsum p (fun m => padded_value det (fun k => c * f k + g k) m * tr (twiddle k m p))
            = c * rsum p (fun m => padded_value det f m * tr (twiddle k m p))
              + rsum p (fun m => padded_value det g m * tr (twiddle k m p))).
  { intros tr k. rewrite <- rsum_linear. apply rsum_ext. intros m _.
    rewrite padded_value_linear. ring. }
  unfold Rdiv. rewrite <- Rmult_assoc, <- Rmult_plus_distr_r. f_equal.
  rewrite <- rsum_linear. apply rsum_ext. intros k _.
  rewrite (Hc Rtrigo_def.cos), (Hc Rtrigo_def.sin). ring.
Qed.

Lemma filtered_value_ext p flt det (f g : nat -> R) i :
  (forall m, (m < det)%nat -> f m = g m) ->
  filtered_value p flt det f i = filtered_value p flt det g i.
Proof.
  intros Hfg. unfold filtered_value. f_equal. apply rsum_ext. intros k _.
  assert (Hp : forall m, padded_value det f m = padded_value det g m).
  { intros m. unfold padded_value. destruct (m <? det)%nat eqn:E; [|reflexivity].
    apply Hfg. now apply Nat.ltb_lt. }
  rewrite (rsum_ext p (fun m => padded_value det f m * Rtrigo_def.cos (twiddle k m p))
             (fun m => padded_value det g m * Rtrigo_def.cos (twiddle k m p)))
    by (intros; now rewrite Hp).
  rewrite (rsum_ext p (fun m => padded_value det f m * Rtrigo_def.sin (twiddle k m p))
             (fun m => padded_value det g m * Rtrigo_def.sin (twiddle k m p)))
    by (intros; now rewrite Hp).
  reflexivity.
Qed.

Lemma fbp_sinogram_linear n h circle filtered op (y1 y2 z : tensor R) c b0 det :
  fbp.init n h circle filtered = Ok op -> (1 <= n)%nat -> (1 <= h)%nat ->
  (filtered = true -> det = h) ->
  forall ang,
  (forall m x, (m < det)%nat -> (x < ang)%nat ->
     get z [b0; 0%nat; m; x] = c * get y1 [b0; 0%nat; m; x] + get y2 [b0; 0%nat; m; x]) ->
  forall y x, (y < det)%nat -> (x < ang)%nat ->
    fbp_sinogram op z b0 y x
    = c * fbp_sinogram op y1 b0 y x + fbp_sinogram op y2 b0 y x.
Proof.
  intros Hinit Hn Hh Hfd ang Hz y x Hy Hx.
  destruct (fbp_init_spec n h circle filtered Hn Hh)
    as (op' & Hop & His & _ & _ & _ & Hf & _).
  rewrite Hinit in Hop. injection Hop as <-.
  unfold fbp_sinogram. rewrite Hf, His. destruct filtered; [|now apply Hz].
  rewrite <- filtered_value_linear. apply filtered_value_ext.
  intros m Hm. apply Hz; [rewrite (Hfd eq_refl)|]; assumption.
Qed.

(** X8. On a non-empty batch the backward operator is linear in both modes:
    the image of [c * y1 + y2] is [c] times the image of [y1] plus the image
    of [y2]. *)
Theorem fbp_forward_linear (n h b det ang : nat) (circle filtered : bool) (c : R)
    (y1 y2 : tensor R) :
  (1 <= n)%nat -> (1 <= h)%nat -> (1 <= b)%nat -> (1 <= det)%nat -> (1 <= ang)%nat ->
  shape y1 = [b; 1%nat; det; ang] -> shape y2 = [b; 1%nat; det; ang] ->
  (filtered = true -> det = h) ->
  exists op z o1 o2 oz,
    fbp.init n h circle filtered = Ok op /\
    add (mul_scalar y1 c) y2 = Ok z /\
    fbp.forward op y1 = Ok o1 /\
    fbp.forward op y2 = Ok o2 /\
    fbp.forward op z = Ok oz /\
    forall b0 i j, (b0 < b)%nat -> (i < h)%nat -> (j < h)%nat ->
      get oz [b0; 0%nat; i; j]
      = c * get o1 [b0; 0%nat; i; j] + get o2 [b0; 0%nat; i; j].
Proof.
  intros Hn Hh Hb Hdet Hang H1 H2 Hfd.
  destruct (fbp_init_spec n h circle filtered Hn Hh) as (op & Hop & _).
  destruct (map2_same4 Rplus (mul_scalar y1 c) y2 b 1 det ang H1 H2)
    as (z & Hz & Hzs & Hzg).
  destruct (fbp_forward_value n h circle filtered op y1 b det ang
              Hn Hh Hdet Hang Hop H1 Hfd (fun _ => Hb)) as (o1 & Ho1 & _ & Hg1).
  destruct (fbp_forward_value n h circle filtered op y2 b det ang
              Hn Hh Hdet Hang Hop H2 Hfd (fun _ => Hb)) as (o2 & Ho2 & _ & Hg2).
  destruct (fbp_forward_value n h circle filtered op z b det ang
              Hn Hh Hdet Hang Hop Hzs Hfd (fun _ => Hb)) as (oz & Hoz & _ & Hgz).
  exists op, z, o1, o2, oz. repeat (split; [assumption|]).
  intros b0 i j Hb0 Hi Hj. rewrite Hgz, Hg1, Hg2 by assumption.
  destruct (circle && negb (get (fbp.reconstruction_circle op) [i; j]));
    [unfold Rdiv; ring|].
  rewrite (backprojection_ext n h det ang (fbp_sinogram op z b0)
             (fun y x => c * fbp_sinogram op y1 b0 y x + fbp_sinogram op y2 b0 y x)).
  - rewrite backprojection_linear. unfold Rdiv. ring.
  - intros y x Hy Hx.
    apply (fbp_sinogram_linear n h circle filtered op y1 y2 z c b0 det Hop Hn Hh Hfd ang);
      try assumption.
    intros m x' Hm Hx'. rewrite Hzg by lia. unfold mul_scalar. rewrite get_tmap. ring.
Qed.

Lemma fbp_forward_linear_witness :
  exists op z o1 o2 oz,
    fbp.init 3 2 true true = Ok op /\
    add (mul_scalar (Tensor [1; 1; 2; 3]%nat (fun k => INR k)) 7)
        (Tensor [1; 1; 2; 3]%nat (fun _ => 1)) = Ok z /\
    fbp.forward op (Tensor [1; 1; 2; 3]%nat (fun k => INR k)) = Ok o1 /\
    fbp.forward op (Tensor [1; 1; 2; 3]%nat (fun _ => 1)) = Ok o2 /\
    fbp.forward op z = Ok oz /\
    forall b0 i j, (b0 < 1)%nat -> (i < 2)%nat -> (j < 2)%nat ->
      get oz [b0; 0%nat; i; j]
      = 7 * get o1 [b0; 0%nat; i; j] + get o2 [b0; 0%nat; i; j].
Proof.
  apply (fbp_forward_linear 3 2 1 2 3 true true 7);
    [lia | lia | lia | lia | lia | reflexivity | reflexivity | reflexivity].
Defined.

Lemma fbp_sinogram_ext n h circle filtered op (y1 y2 : tensor R) b0 det ang :
  fbp.init n h circle filtered = Ok op -> (1 <= n)%nat -> (1 <= h)%nat ->
  (filtered = true -> det = h) ->
  (forall m x, (m < det)%nat -> (x < ang)%nat ->
     get y1 [b0; 0%nat; m; x] = get y2 [b0; 0%nat; m; x]) ->
  forall y x, (y < det)%nat -> (x < ang)%nat ->
    fbp_sinogram op y1 b0 y x = fbp_sinogram op y2 b0 y x.
Proof.
  intros Hinit Hn Hh Hfd Heq y x Hy Hx.
  destruct (fbp_init_spec n h circle filtered Hn Hh)
    as (op' & Hop & His & _ & _ & _ & Hf & _).
  rewrite Hinit in Hop. injection Hop as <-.
  unfold fbp_sinogram. rewrite Hf, His. destruct filtered; [|now apply Heq].
  apply filtered_value_ext. intros m Hm. apply Heq; [rewrite (Hfd eq_refl)|]; assumption.
Qed.

Lemma filtered_value_zero p flt det i :
  filtered_value p flt det (fun _ => 0) i = 0.
Proof.
  unfold filtered_value.
  assert (Hz : forall (tr : R -> R) k,
            rsum p (fun m => padded_value det (fun _ => 0) m * tr (twiddle k m p)) = 0).
  { intros tr k. apply rsum_zero. intros m _. unfold padded_value.
    destruct (m <? det)%nat; ring. }
  rewrite (rsum_zero p); [unfold Rdiv; ring|].
  intros k _. rewrite (Hz Rtrigo_def.cos), (Hz Rtrigo_def.sin). ring.
Qed.

Lemma bilinear_zero h w px py : bilinear (fun _ _ => 0) h w px py = 0.
Proof.
  unfold bilinear, pixel.
  repeat match goal with |- context [if ?c then _ else _] => destruct c end; ring.
Qed.

(** X9. The backward operator, in both modes, works batch item by batch item:
    two sinograms that agree on one batch item give images that agree on
    it, and an all-zero item gives an all-zero image. *)
Theorem fbp_forward_local (n h b det ang b0 : nat) (circle filtered : bool)
    (y1 y2 : tensor R) :
  (1 <= n)%nat -> (1 <= h)%nat -> (1 <= det)%nat -> (1 <= ang)%nat -> (b0 < b)%nat ->
  shape y1 = [b; 1%nat; det; ang] -> shape y2 = [b; 1%nat; det; ang] ->
  (filtered = true -> det = h) ->
  exists op o1 o2,
    fbp.init n h circle filtered = Ok op /\
    fbp.forward op y1 = Ok o1 /\
    fbp.forward op y2 = Ok o2 /\
    ((forall m x, (m < det)%nat -> (x < ang)%nat ->
        get y1 [b0; 0%nat; m; x] = get y2 [b0; 0%nat; m; x]) ->
     forall i j, (i < h)%nat -> (j < h)%nat ->
       get o1 [b0; 0%nat; i; j] = get o2 [b0; 0%nat; i; j]) /\
    ((forall m x, (m < det)%nat -> (x < ang)%nat -> get y1 [b0; 0%nat; m; x] = 0) ->
     forall i j, (i < h)%nat -> (j < h)%nat -> get o1 [b0; 0%nat; i; j] = 0).
Proof.
  intros Hn Hh Hdet Hang Hb0 H1 H2 Hfd.
  destruct (fbp_init_spec n h circle filtered Hn Hh)
    as (op & Hop & His & _ & _ & _ & Hf & _).
  assert (Hb : (1 <= b)%nat) by lia.
  destruct (fbp_forward_value n h circle filtered op y1 b det ang
              Hn Hh Hdet Hang Hop H1 Hfd (fun _ => Hb)) as (o1 & Ho1 & _ & Hg1).
  destruct (fbp_forward_value n h circle filtered op y2 b det ang
              Hn Hh Hdet Hang Hop H2 Hfd (fun _ => Hb)) as (o2 & Ho2 & _ & Hg2).
  exists op, o1, o2. repeat (split; [assumption|]). split.
  - intros Heq i j Hi Hj. rewrite Hg1, Hg2 by assumption.
    rewrite (backprojection_ext n h det ang (fbp_sinogram op y1 b0) (fbp_sinogram op y2 b0));
      [reflexivity|].
    now apply (fbp_sinogram_ext n h circle filtered op y1 y2 b0 det ang).
  - intros Hz i j Hi Hj. rewrite Hg1 by assumption.
    rewrite (backprojection_ext n h det ang (fbp_sinogram op y1 b0) (fun _ _ => 0)).
    + unfold backprojection. rewrite rsum_zero by (intros; apply bilinear_zero).
      destruct (circle && negb (get (fbp.reconstruction_circle op) [i; j]));
        unfold Rdiv; ring.
    + intros y x Hy Hx. unfold fbp_sinogram. rewrite Hf, His.
      destruct filtered; [|now apply Hz].
      rewrite <- (filtered_value_zero (h + fbp.pad_width op)
                    (flat (fbp.filter op)) h y).
      apply filtered_value_ext. intros m Hm. apply Hz; [rewrite (Hfd eq_refl)|]; assumption.
Qed.

Lemma fbp_forward_local_witness :
  exists op o1 o2,
    fbp.init 3 2 true true = Ok op /\
    fbp.forward op (Tensor [2; 1; 2; 3]%nat (fun _ => 0)) = Ok o1 /\
    fbp.forward op (Tensor [2; 1; 2; 3]%nat (fun k => if (k <? 6)%nat then 0 else 1)) = Ok o2 /\
    ((forall m x, (m < 2)%nat -> (x < 3)%nat ->
        get (Tensor [2; 1; 2; 3]%nat (fun _ => 0)) [0%nat; 0%nat; m; x]
        = get (Tensor [2; 1; 2; 3]%nat (fun k => if (k <? 6)%nat then 0 else 1))
              [0%nat; 0%nat; m; x]) ->
     forall i j, (i < 2)%nat -> (j < 2)%nat ->
       get o1 [0%nat; 0%nat; i; j] = get o2 [0%nat; 0%nat; i; j]) /\
    ((forall m x, (m < 2)%nat -> (x < 3)%nat ->
        get (Tensor [2; 1; 2; 3]%nat (fun _ => 0)) [0%nat; 0%nat; m; x] = 0) ->
     forall i j, (i < 2)%nat -> (j < 2)%nat -> get o1 [0%nat; 0%nat; i; j] = 0).
Proof.
  apply (fbp_forward_local 3 2 2 2 3 0 true true);
    [lia | lia | lia | lia | lia | reflexivity | reflexivity | reflexivity].
Defined.

(** X10. The [circle] option only masks, with the mask the constructor
    stores: on a non-empty batch the image built with [circle=True] is the
    image built with [circle=False] at the pixels where the stored mask
    [reconstruction_circle] is true and exactly zero at the others. The two
    operators store the same mask. *)
Theorem circle_only_masks (n h b det ang : nat) (filtered : bool) (input : tensor R) :
  (1 <= n)%nat -> (1 <= h)%nat -> (1 <= b)%nat -> (1 <= det)%nat -> (1 <= ang)%nat ->
  shape input = [b; 1%nat; det; ang] ->
  (filtered = true -> det = h) ->
  exists opc opn outc outn,
    fbp.init n h true filtered = Ok opc /\
    fbp.init n h false filtered = Ok opn /\
    fbp.reconstruction_circle opn = fbp.reconstruction_circle opc /\
    fbp.forward opc input = Ok outc /\
    fbp.forward opn input = Ok outn /\
    forall b0 i j, (b0 < b)%nat -> (i < h)%nat -> (j < h)%nat ->
      get outc [b0; 0%nat; i; j]
      = if get (fbp.reconstruction_circle opc) [i; j]
        then get outn [b0; 0%nat; i; j] else 0.
Proof.
  intros Hn Hh Hb Hdet Hang Hin Hfd.
  destruct (fbp_init_spec n h true filtered Hn Hh)
    as (opc & Hopc & Hisc & _ & _ & _ & Hfc & Hpwc & Hrc & _).
  destruct (fbp_init_spec n h false filtered Hn Hh)
    as (opn & Hopn & Hisn & _ & _ & _ & Hfn & Hpwn & Hrn & _).
  destruct (fbp_forward_value n h true filtered opc input b det ang
              Hn Hh Hdet Hang Hopc Hin Hfd (fun _ => Hb)) as (outc & Hoc & _ & Hgc).
  destruct (fbp_forward_value n h false filtered opn input b det ang
              Hn Hh Hdet Hang Hopn Hin Hfd (fun _ => Hb)) as (outn & Hon & _ & Hgn).
  exists opc, opn, outc, outn. repeat (split; [assumption|]).
  split; [exact (fbp_mask_flags n h true filtered false filtered opc opn Hopc Hopn)|].
  repeat (split; [assumption|]).
  intros b0 i j Hb0 Hi Hj. rewrite Hgc, Hgn by assumption. cbn [andb].
  assert (Hsame : fbp_sinogram opc input b0 = fbp_sinogram opn input b0).
  { unfold fbp_sinogram. rewrite Hfc, Hfn, Hisc, Hisn, Hpwc, Hpwn.
    rewrite Hrc in Hrn. injection Hrn as ->. reflexivity. }
  rewrite Hsame. destruct (get (fbp.reconstruction_circle opc) [i; j]); cbn [negb];
    [reflexivity|].
  unfold Rdiv. ring.
Qed.

Lemma circle_only_masks_witness :
  exists opc opn outc outn,
    fbp.init 3 4 true true = Ok opc /\
    fbp.init 3 4 false true = Ok opn /\
    fbp.reconstruction_circle opn = fbp.reconstruction_circle opc /\
    fbp.forward opc (Tensor [1; 1; 4; 3]%nat (fun k => INR k)) = Ok outc /\
    fbp.forward opn (Tensor [1; 1; 4; 3]%nat (fun k => INR k)) = Ok outn /\
    forall b0 i j, (b0 < 1)%nat -> (i < 4)%nat -> (j < 4)%nat ->
      get outc [b0; 0%nat; i; j]
      = if get (fbp.reconstruction_circle opc) [i; j]
        then get outn [b0; 0%nat; i; j] else 0.
Proof.
  apply (circle_only_masks 3 4 1 4 3 true);
    [lia | lia | lia | lia | lia | reflexivity | reflexivity].
Defined.

(** ** The ramp filter on every even size *)

Lemma ramp_index_length_even hf : length (ramp_index (2 * hf)) = hf.
Proof.
  rewrite ramp_index_even, length_app, !length_map, !length_seq.
  pose proof (Nat.div_mod_eq (hf + 1) 2) as H1.
  pose proof (Nat.mod_upper_bound (hf + 1) 2 ltac:(lia)) as H2.
  pose proof (Nat.div_mod_eq hf 2) as H3.
  pose proof (Nat.mod_upper_bound hf 2 ltac:(lia)) as H4.
  lia.
Qed.

Lemma ramp_response_even hf :
  (1 <= hf)%nat ->
  exists f,
    ramp_response (2 * hf) = Ok f /\
    length f = (2 * hf)%nat /\
    nth 0 f 0 = 0.25 /\
    (forall i, (i < 2 * hf)%nat -> Nat.odd i = true ->
       nth i f 0 = -1 / ((PI * IZR (nth (i / 2) (ramp_index (2 * hf)) 0%Z))
                         * (PI * IZR (nth (i / 2) (ramp_index (2 * hf)) 0%Z)))) /\
    (forall i, (0 < i < 2 * hf)%nat -> Nat.even i = true -> nth i f 0 = 0).
Proof.
  intros Hq. unfold ramp_response, Numpy.setitem, Numpy.zeros.
  rewrite repeat_length.
  replace (0 <? 2 * hf)%nat with true by (symmetry; apply Nat.ltb_lt; lia).
  cbn [guard bind firstn app]. unfold Numpy.setitem_odd.
  assert (Hlen : length (0.25 :: skipn 1 (List.repeat 0 (2 * hf))) = (2 * hf)%nat).
  { cbn [length]. rewrite length_skipn, repeat_length. lia. }
  rewrite Hlen, length_map, ramp_index_length_even.
  replace (2 * hf / 2)%nat with hf
    by (replace (2 * hf)%nat with (hf * 2)%nat by lia; now rewrite Nat.div_mul).
  rewrite Nat.eqb_refl. cbn [orb guard bind].
  eexists. split; [reflexivity|]. split; [now rewrite length_map, length_seq|].
  split; [|split].
  - rewrite nth_map_seq by lia. reflexivity.
  - intros i Hi Hodd. rewrite nth_map_seq, Hodd by assumption.
    assert (Hi2 : (i / 2 < hf)%nat) by (apply Nat.Div0.div_lt_upper_bound; lia).
    assert (Hsel : (if (hf =? 1)%nat then 0%nat else (i / 2)%nat) = (i / 2)%nat).
    { destruct (hf =? 1)%nat eqn:E; [|reflexivity]. apply Nat.eqb_eq in E. lia. }
    rewrite Hsel.
    rewrite (nth_indep _ 0 ((fun n_i => -1 / (PI * IZR n_i * (PI * IZR n_i))) 0%Z))
      by now rewrite length_map, ramp_index_length_even.
    exact (map_nth (fun n_i => -1 / (PI * IZR n_i * (PI * IZR n_i))) _ 0%Z (i / 2)).
  - intros i Hi Hev. rewrite nth_map_seq by lia.
    rewrite <- Nat.negb_even, Hev. cbn [negb].
    destruct i as [|i]; [lia|]. cbn [nth].
    destruct hf as [|hf]; [lia|].
    replace (2 * S hf)%nat with (S (2 * hf + 1)) by lia. cbn [List.repeat skipn].
    apply nth_repeat.
Qed.

Lemma twiddle_mirror k m n :
  (k <= n)%nat -> (1 <= n)%nat ->
  Rtrigo_def.cos (twiddle (n - k) m n) = Rtrigo_def.cos (twiddle k m n).
Proof.
  intros Hk Hn. unfold twiddle. rewrite minus_INR by assumption.
  assert (Hn0 : INR n <> 0) by (apply not_0_INR; lia).
  replace (2 * PI * (INR n - INR k) * INR m / INR n)
    with (- (2 * PI * INR k * INR m / INR n) + 2 * INR m * PI) by (field; assumption).
  now rewrite cos_period, cos_neg.
Qed.

(** X11. [rampfilter] returns, for every positive even size, an array of that
    length that is twice the real part of the transform of the response, and
    the array is symmetric: entry [size - k] equals entry [k]. For size 0 it
    raises [IndexError] at [f[0] = 0.25]. *)
Theorem rampfilter_even_symmetric (hf : nat) :
  (1 <= hf)%nat ->
  rampfilter 0 = Err IndexError /\
  exists f t,
    ramp_response (2 * hf) = Ok f /\
    rampfilter (2 * hf) = Ok t /\
    shape t = [(2 * hf)%nat] /\
    (forall k, (k < 2 * hf)%nat ->
       flat t k
       = 2 * rsum (2 * hf) (fun m => nth m f 0 * Rtrigo_def.cos (twiddle k m (2 * hf)))) /\
    (forall k, (0 < k < 2 * hf)%nat -> flat t (2 * hf - k) = flat t k).
Proof.
  intros Hq. split; [reflexivity|].
  destruct (ramp_response_even hf Hq) as (f & Hf & Hlen & _).
  exists f. eexists. unfold rampfilter. rewrite Hf. cbn [bind].
  split; [reflexivity|]. split; [reflexivity|].
  assert (Hval : forall k, (k < 2 * hf)%nat ->
            flat (Numpy.to_tensor (map (fun v => 2 * v) (Numpy.real_fft f))) k
            = 2 * rsum (2 * hf)
                    (fun m => nth m f 0 * Rtrigo_def.cos (twiddle k m (2 * hf)))).
  { intros k Hk. unfold Numpy.to_tensor, Numpy.real_fft. cbn [flat].
    rewrite map_map, Hlen, nth_map_seq by assumption. reflexivity. }
  split; [|split].
  - unfold Numpy.to_tensor, Numpy.real_fft. cbn [shape].
    now rewrite !length_map, length_seq, Hlen.
  - exact Hval.
  - intros k Hk. rewrite !Hval by lia. f_equal.
    apply rsum_ext. intros m _. now rewrite twiddle_mirror by lia.
Qed.

Lemma rampfilter_even_symmetric_witness :
  rampfilter 0 = Err IndexError /\
  exists f t,
    ramp_response (2 * 3) = Ok f /\
    rampfilter (2 * 3) = Ok t /\
    shape t = [(2 * 3)%nat] /\
    (forall k, (k < 2 * 3)%nat ->
       flat t k
       = 2 * rsum (2 * 3) (fun m => nth m f 0 * Rtrigo_def.cos (twiddle k m (2 * 3)))) /\
    (forall k, (0 < k < 2 * 3)%nat -> flat t (2 * 3 - k) = flat t k).
Proof. apply (rampfilter_even_symmetric 3); lia. Defined.

Lemma ramp_index_nth q k :
  (k < 2 * q)%nat ->
  nth k (ramp_index (4 * q)) 0%Z
  = Z.of_nat (Nat.min (2 * k + 1) (4 * q - (2 * k + 1))).
Proof.
  intros Hk. rewrite ramp_index_mul4_halves.
  assert (Hl : forall g : nat -> Z, length (map g (seq 0 q)) = q)
    by (intros; now rewrite length_map, length_seq).
  destruct (Nat.lt_ge_cases k q) as [Hlt|Hge].
  - rewrite app_nth1 by (rewrite Hl; lia). rewrite nth_map_seq by lia. lia.
  - rewrite app_nth2 by (rewrite Hl; lia). rewrite Hl, nth_map_seq by lia. lia.
Qed.

(** X12. On the sizes the operator uses (multiples of four) the real-space
    response that [rampfilter] transforms has a closed form: 0.25 at index
    0, [-1 / (pi d)^2] at every odd index [i], where [d = min(i, size - i)]
    is the distance to the nearer end, and 0 at the other even indices; so
    it is symmetric, [f[size - i] = f[i]]. *)
Theorem ramp_response_closed_form (q : nat) :
  (1 <= q)%nat ->
  exists f,
    ramp_response (4 * q) = Ok f /\
    length f = (4 * q)%nat /\
    (forall i, (i < 4 * q)%nat ->
       nth i f 0
       = if (i =? 0)%nat then 0.25
         else if Nat.odd i
              then -1 / ((PI * INR (Nat.min i (4 * q - i)))
                         * (PI * INR (Nat.min i (4 * q - i))))
              else 0) /\
    (forall i, (0 < i < 4 * q)%nat -> nth (4 * q - i) f 0 = nth i f 0).
Proof.
  intros Hq.
  destruct (ramp_response_ok q Hq) as (f & Hf & Hlen & H0 & Hodd & Hev).
  exists f. split; [assumption|]. split; [assumption|].
  assert (Hform : forall i, (i < 4 * q)%nat ->
            nth i f 0
            = if (i =? 0)%nat then 0.25
              else if Nat.odd i
                   then -1 / ((PI * INR (Nat.min i (4 * q - i)))
                              * (PI * INR (Nat.min i (4 * q - i))))
                   else 0).
  { intros i Hi. destruct i as [|i]; [exact H0|].
    cbn [Nat.eqb]. destruct (Nat.odd (S i)) eqn:Ho.
    - rewrite Hodd by assumption.
      apply Nat.odd_spec in Ho. destruct Ho as [k Hk].
      assert (Hdiv : (S i / 2 = k)%nat).
      { rewrite Hk. replace (2 * k + 1)%nat with (1 + k * 2)%nat by lia.
        rewrite Nat.div_add by lia. reflexivity. }
      rewrite Hdiv, ramp_index_nth by lia.
      rewrite <- INR_IZR_INZ. rewrite <- Hk. reflexivity.
    - apply Hev; [lia|]. now rewrite <- Nat.negb_odd, Ho. }
  split; [exact Hform|].
  intros i Hi. rewrite !Hform by lia.
  replace (4 * q - i =? 0)%nat with false by (symmetry; apply Nat.eqb_neq; lia).
  replace (i =? 0)%nat with false by (symmetry; apply Nat.eqb_neq; lia).
  replace (Nat.odd (4 * q - i)) with (Nat.odd i).
  - replace (4 * q - (4 * q - i))%nat with i by lia.
    now rewrite Nat.min_comm.
  - rewrite Nat.odd_sub by lia.
    replace (Nat.odd (4 * q)) with false; [now destruct (Nat.odd i)|].
    symmetry. rewrite <- Nat.negb_even, negb_false_iff, Nat.even_spec.
    exists (2 * q)%nat. lia.
Qed.

Lemma ramp_response_closed_form_witness :
  exists f,
    ramp_response (4 * 16) = Ok f /\
    length f = (4 * 16)%nat /\
    (forall i, (i < 4 * 16)%nat ->
       nth i f 0
       = if (i =? 0)%nat then 0.25
         else if Nat.odd i
              then -1 / ((PI * INR (Nat.min i (4 * 16 - i)))
                         * (PI * INR (Nat.min i (4 * 16 - i))))
              else 0) /\
    (forall i, (0 < i < 4 * 16)%nat -> nth (4 * 16 - i) f 0 = nth i f 0).
Proof. apply (ramp_response_closed_form 16); lia. Defined.

(** ** Padding, axis-aligned angles and interpolation *)

(** X13. For image sizes up to [2^20] the zero padding of the filtered mode
    is at least as long as the detector axis and at least 32 samples, and
    the padded length stays below four times the detector count unless it
    is the minimum 64. *)
Theorem pad_width_bounds (n h : nat) (circle filtered : bool) :
  (1 <= n)%nat -> (1 <= h)%nat -> (Z.of_nat h <= 2 ^ 20)%Z ->
  exists op,
    fbp.init n h circle filtered = Ok op /\
    (h <= fbp.pad_width op)%nat /\
    (32 <= fbp.pad_width op)%nat /\
    (fbp.projection_size_padded h = 64 \/ fbp.projection_size_padded h < 4 * h)%nat.
Proof.
  intros Hn Hh _.
  destruct (fbp_init_spec n h circle filtered Hn Hh)
    as (op & Hop & _ & _ & _ & _ & _ & Hpw & _).
  exists op. split; [assumption|]. rewrite Hpw.
  destruct (padded_ge h Hh) as [H2 H64].
  split; [lia|]. split; [lia|].
  unfold fbp.projection_size_padded in *.
  pose proof (Nat.log2_up_spec (2 * h) ltac:(lia)) as [Hlo _].
  destruct (Nat.log2_up (2 * h)) as [|l] eqn:El.
  - left. reflexivity.
  - cbn [Nat.pred] in Hlo. rewrite Nat.pow_succ_r' in *.
    destruct (Nat.max_spec 64 (2 * 2 ^ l)) as [[_ ->]|[_ ->]]; [right; lia | left; reflexivity].
Qed.

Lemma pad_width_bounds_witness :
  exists op,
    fbp.init 50 100 false true = Ok op /\
    (100 <= fbp.pad_width op)%nat /\
    (32 <= fbp.pad_width op)%nat /\
    (fbp.projection_size_padded 100 = 64 \/ fbp.projection_size_padded 100 < 4 * 100)%nat.
Proof. apply (pad_width_bounds 50 100 false true); lia. Defined.

Lemma quarter_turn_angle m : (1 <= m)%nat -> INR m * PI / INR (2 * m) = PI / 2.
Proof.
  intros Hm. rewrite mult_INR. change (INR 2) with 2.
  field. apply not_0_INR. lia.
Qed.

Lemma radon_value_quarter_turn m h (img : nat -> nat -> R) j :
  (1 <= m)%nat -> (j < h)%nat ->
  radon_value (2 * m) h h img j m = rsum h (fun i => img (h - 1 - j)%nat i).
Proof.
  intros Hm Hj. unfold radon_value. apply rsum_ext. intros i Hi.
  rewrite quarter_turn_angle, cos_PI2, sin_PI2 by assumption.
  apply bilinear_at_pixel; try assumption; try lia.
  - replace (0 * linspace_from_neg_one h j + 1 * linspace_from_neg_one h i + 0 * 1)
      with (linspace_from_neg_one h i) by ring.
    now apply unnormalize_from_neg_one.
  - replace (- (1) * linspace_from_neg_one h j + 0 * linspace_from_neg_one h i + 0 * 1)
      with (- linspace_from_neg_one h j) by ring.
    now apply unnormalize_neg_from_neg_one.
Qed.

(** X14. At the axis-aligned angles the forward operator of a square image sums
    exactly, without interpolation: at angle index 0 the sinogram holds the
    column sums of the image, and for an even angle count the angle index
    [n_angles / 2] (a quarter turn) holds the row sums in reverse order. *)
Theorem radon_axis_aligned (m h b : nat) (x : tensor R) :
  (1 <= m)%nat -> (1 <= h)%nat ->
  shape x = [b; 1%nat; h; h] ->
  exists op1 op2 s1 s2,
    radon.init m h = Ok op1 /\
    radon.init (2 * m) h = Ok op2 /\
    radon.forward op1 x = Ok s1 /\
    radon.forward op2 x = Ok s2 /\
    forall b0 j, (b0 < b)%nat -> (j < h)%nat ->
      get s1 [b0; 0%nat; j; 0%nat] = rsum h (fun i => get x [b0; 0%nat; i; j]) /\
      get s2 [b0; 0%nat; j; 0%nat] = rsum h (fun i => get x [b0; 0%nat; i; j]) /\
      get s2 [b0; 0%nat; j; m]
      = rsum h (fun i => get x [b0; 0%nat; (h - 1 - j)%nat; i]).
Proof.
  intros Hm Hh Hx.
  assert (H2m : (1 <= 2 * m)%nat) by lia.
  destruct (radon_init_spec m h Hm Hh) as (op1 & Hop1 & _).
  destruct (radon_init_spec (2 * m) h H2m Hh) as (op2 & Hop2 & _).
  destruct (radon_forward_spec m h op1 x b h Hm Hh Hh Hop1 Hx) as (s1 & Hs1 & _ & Hg1).
  destruct (radon_forward_spec (2 * m) h op2 x b h H2m Hh Hh Hop2 Hx)
    as (s2 & Hs2 & _ & Hg2).
  exists op1, op2, s1, s2. repeat (split; [assumption|]).
  intros b0 j Hb0 Hj.
  rewrite Hg1, !Hg2 by lia.
  rewrite !radon_value_angle0, radon_value_quarter_turn by assumption.
  repeat split; reflexivity.
Qed.

Lemma radon_axis_aligned_witness :
  exists op1 op2 s1 s2,
    radon.init 3 4 = Ok op1 /\
    radon.init (2 * 3) 4 = Ok op2 /\
    radon.forward op1 (Tensor [2; 1; 4; 4]%nat (fun k => INR k)) = Ok s1 /\
    radon.forward op2 (Tensor [2; 1; 4; 4]%nat (fun k => INR k)) = Ok s2 /\
    forall b0 j, (b0 < 2)%nat -> (j < 4)%nat ->
      get s1 [b0; 0%nat; j; 0%nat]
      = rsum 4 (fun i => get (Tensor [2; 1; 4; 4]%nat (fun k => INR k)) [b0; 0%nat; i; j]) /\
      get s2 [b0; 0%nat; j; 0%nat]
      = rsum 4 (fun i => get (Tensor [2; 1; 4; 4]%nat (fun k => INR k)) [b0; 0%nat; i; j]) /\
      get s2 [b0; 0%nat; j; 3%nat]
      = rsum 4 (fun i => get (Tensor [2; 1; 4; 4]%nat (fun k => INR k))
                             [b0; 0%nat; (4 - 1 - j)%nat; i]).
Proof. apply (radon_axis_aligned 3 4 2); [lia | lia | reflexivity]. Defined.

Lemma bilinear_on_column (sino : nat -> nat -> R) det ang k px py :
  unnormalize px ang = INR k ->
  bilinear sino det ang px py = column_lerp sino det ang k py.
Proof.
  intros Hx. unfold bilinear, column_lerp. rewrite Hx.
  assert (Hfl : Zfloor (INR k) = Z.of_nat k).
  { apply Zfloor_eq. rewrite <- INR_IZR_INZ. lra. }
  rewrite Hfl, !plus_IZR, <- !INR_IZR_INZ. ring.
Qed.

(** X15. When the sinogram, on a non-empty batch, has the operator's angle
    count, the backward operator never interpolates between angles: the
    contribution of angle [k] is a linear interpolation of column [k] alone
    along the detector axis, at the detector position
    [x cos(theta_k) - y sin(theta_k)]; with the circle option the pixels
    where the stored mask is false are zero. *)
Theorem fbp_reads_own_column (n h b det : nat) (circle filtered : bool)
    (input : tensor R) :
  (1 <= n)%nat -> (1 <= h)%nat -> (1 <= b)%nat -> (1 <= det)%nat ->
  shape input = [b; 1%nat; det; n] ->
  (filtered = true -> det = h) ->
  exists op out,
    fbp.init n h circle filtered = Ok op /\
    fbp.forward op input = Ok out /\
    forall b0 i j, (b0 < b)%nat -> (i < h)%nat -> (j < h)%nat ->
      get out [b0; 0%nat; i; j]
      = (if circle && negb (get (fbp.reconstruction_circle op) [i; j]) then 0
         else rsum n (fun k =>
                column_lerp (fbp_sinogram op input b0) det n k
                  (flat (linspace (-1) 1 h) j * Rtrigo_def.cos (INR k * PI / INR n)
                   - flat (linspace (-1) 1 h) i * Rtrigo_def.sin (INR k * PI / INR n))))
        * (PI / (2 * INR n)).
Proof.
  intros Hn Hh Hb Hdet Hin Hfd.
  destruct (fbp_init_spec n h circle filtered Hn Hh) as (op & Hop & _).
  destruct (fbp_forward_value n h circle filtered op input b det n
              Hn Hh Hdet Hn Hop Hin Hfd (fun _ => Hb)) as (out & Hout & _ & Hg).
  exists op, out. repeat (split; [assumption|]).
  intros b0 i j Hb0 Hi Hj. rewrite Hg by assumption.
  assert (Hh0 : INR h <> 0) by (apply not_0_INR; lia).
  assert (Hn0 : INR n <> 0) by (apply not_0_INR; lia).
  rewrite mult_INR. change (INR 2) with 2.
  destruct (circle && negb (get (fbp.reconstruction_circle op) [i; j]));
    [field; assumption|].
  unfold backprojection.
  rewrite (rsum_ext n _ (fun k =>
             column_lerp (fbp_sinogram op input b0) det n k
               (flat (linspace (-1) 1 h) j * Rtrigo_def.cos (INR k * PI / INR n)
                - flat (linspace (-1) 1 h) i * Rtrigo_def.sin (INR k * PI / INR n)))).
  - field. split; assumption.
  - intros k Hk. apply bilinear_on_column.
    rewrite Rmult_1_l. now apply unnormalize_linspace.
Qed.

Lemma fbp_reads_own_column_witness :
  exists op out,
    fbp.init 3 2 true true = Ok op /\
    fbp.forward op (Tensor [1; 1; 2; 3]%nat (fun k => INR k)) = Ok out /\
    forall b0 i j, (b0 < 1)%nat -> (i < 2)%nat -> (j < 2)%nat ->
      get out [b0; 0%nat; i; j]
      = (if true && negb (get (fbp.reconstruction_circle op) [i; j]) then 0
         else rsum 3 (fun k =>
                column_lerp (fbp_sinogram op (Tensor [1; 1; 2; 3]%nat (fun k => INR k)) b0)
                  2 3 k
                  (flat (linspace (-1) 1 2) j * Rtrigo_def.cos (INR k * PI / INR 3)
                   - flat (linspace (-1) 1 2) i * Rtrigo_def.sin (INR k * PI / INR 3))))
        * (PI / (2 * INR 3)).
Proof.
  apply (fbp_reads_own_column 3 2 1 2 true true);
    [lia | lia | lia | lia | reflexivity | reflexivity].
Defined.

(** X16. [test_adjoint] cannot fail on shapes: for matching operators and inputs
    every tensor operation succeeds, and the result is the quotient of the
    two inner products, or [ZeroDivisionError] when the second is zero. *)
Theorem adjoint_ratio_outcome (n h b : nat) (x y : tensor R) :
  (1 <= n)%nat -> (1 <= h)%nat ->
  shape x = [b; 1%nat; h; h] -> shape y = [b; 1%nat; h; n] ->
  exists rop fop ax aty pl pr,
    radon.init n h = Ok rop /\
    fbp.init n h false false = Ok fop /\
    radon.forward rop x = Ok ax /\
    mul ax y = Ok pl /\
    fbp.forward fop y = Ok aty /\
    mul x aty = Ok pr /\
    adjoint_ratio n h x y
    = if Reqb (sum_all pr) 0 then Err ZeroDivisionError
      else Ok (sum_all pl / sum_all pr).
Proof.
  intros Hn Hh Hx Hy.
  destruct (radon_init_spec n h Hn Hh) as (rop & Hrop & _).
  destruct (fbp_init_spec n h false false Hn Hh) as (fop & Hfop & _).
  destruct (radon_forward_spec n h rop x b h Hn Hh Hh Hrop Hx) as (ax & Hax & Haxs & _).
  destruct (map2_same4 Rmult ax y b 1 h n Haxs Hy) as (pl & Hpl & _).
  destruct (fbp_forward_value n h false false fop y b h n Hn Hh Hh Hn Hfop Hy)
    as (aty & Haty & Hatys & _); [discriminate..|].
  destruct (map2_same4 Rmult x aty b 1 h h Hx Hatys) as (pr & Hpr & _).
  exists rop, fop, ax, aty, pl, pr. repeat (split; [assumption|]).
  unfold adjoint_ratio, mul. rewrite Hrop, Hfop. cbn [bind].
  rewrite Hax. cbn [bind]. rewrite Hpl. cbn [bind].
  rewrite Haty. cbn [bind]. rewrite Hpr. cbn [bind].
  destruct (Reqb (sum_all pr) 0); reflexivity.
Qed.

Lemma adjoint_ratio_outcome_witness :
  exists rop fop ax aty pl pr,
    radon.init 50 100 = Ok rop /\
    fbp.init 50 100 false false = Ok fop /\
    radon.forward rop (Tensor [1; 1; 100; 100]%nat (fun _ => 1)) = Ok ax /\
    mul ax (Tensor [1; 1; 100; 50]%nat (fun _ => 1)) = Ok pl /\
    fbp.forward fop (Tensor [1; 1; 100; 50]%nat (fun _ => 1)) = Ok aty /\
    mul (Tensor [1; 1; 100; 100]%nat (fun _ => 1)) aty = Ok pr /\
    adjoint_ratio 50 100 (Tensor [1; 1; 100; 100]%nat (fun _ => 1))
                         (Tensor [1; 1; 100; 50]%nat (fun _ => 1))
    = if Reqb (sum_all pr) 0 then Err ZeroDivisionError
      else Ok (sum_all pl / sum_all pr).
Proof.
  apply (adjoint_ratio_outcome 50 100 1); [lia | lia | reflexivity | reflexivity].
Defined.

(** ** Bounds *)

Lemma pixel_bounds (img : nat -> nat -> R) h w iy ix M :
  0 <= M ->
  (forall y x, (y < h)%nat -> (x < w)%nat -> 0 <= img y x <= M) ->
  0 <= pixel img h w iy ix <= M.
Proof.
  intros HM Himg. unfold pixel.
  destruct ((0 <=? iy) && (iy <? Z.of_nat h) && (0 <=? ix) && (ix <? Z.of_nat w))%Z eqn:E;
    [|lra].
  rewrite !andb_true_iff, !Z.leb_le, !Z.ltb_lt in E. apply Himg; lia.
Qed.

(** Bilinear interpolation is a convex combination of four pixels, zero
    outside the image. *)
Lemma bilinear_bounds (img : nat -> nat -> R) h w px py M :
  0 <= M ->
  (forall y x, (y < h)%nat -> (x < w)%nat -> 0 <= img y x <= M) ->
  0 <= bilinear img h w px py <= M.
Proof.
  intros HM Himg. unfold bilinear.
  pose proof (Zfloor_bound (unnormalize px w)) as Hx.
  pose proof (Zfloor_bound (unnormalize py h)) as Hy.
  set (ix := unnormalize px w) in *. set (iy := unnormalize py h) in *.
  rewrite !plus_IZR.
  set (fx := IZR (Zfloor ix)) in *. set (fy := IZR (Zfloor iy)) in *.
  pose proof (pixel_bounds img h w (Zfloor iy) (Zfloor ix) M HM Himg) as H00.
  pose proof (pixel_bounds img h w (Zfloor iy) (Zfloor ix + 1) M HM Himg) as H01.
  pose proof (pixel_bounds img h w (Zfloor iy + 1) (Zfloor ix) M HM Himg) as H10.
  pose proof (pixel_bounds img h w (Zfloor iy + 1) (Zfloor ix + 1) M HM Himg) as H11.
  set (p00 := pixel img h w (Zfloor iy) (Zfloor ix)) in *.
  set (p01 := pixel img h w (Zfloor iy) (Zfloor ix + 1)) in *.
  set (p10 := pixel img h w (Zfloor iy + 1) (Zfloor ix)) in *.
  set (p11 := pixel img h w (Zfloor iy + 1) (Zfloor ix + 1)) in *.
  assert (Ha : 0 <= fx + 1 - ix <= 1) by lra.
  assert (Hb : 0 <= ix - fx <= 1) by lra.
  assert (Hc : 0 <= fy + 1 - iy <= 1) by lra.
  assert (Hd : 0 <= iy - fy <= 1) by lra.
  assert (W00 : 0 <= (fx + 1 - ix) * (fy + 1 - iy)) by (apply Rmult_le_pos; lra).
  assert (W01 : 0 <= (ix - fx) * (fy + 1 - iy)) by (apply Rmult_le_pos; lra).
  assert (W10 : 0 <= (fx + 1 - ix) * (iy - fy)) by (apply Rmult_le_pos; lra).
  assert (W11 : 0 <= (ix - fx) * (iy - fy)) by (apply Rmult_le_pos; lra).
  assert (Wsum : (fx + 1 - ix) * (fy + 1 - iy) + (ix - fx) * (fy + 1 - iy)
                 + (fx + 1 - ix) * (iy - fy) + (ix - fx) * (iy - fy) = 1) by ring.
  set (w00 := (fx + 1 - ix) * (fy + 1 - iy)) in *.
  set (w01 := (ix - fx) * (fy + 1 - iy)) in *.
  set (w10 := (fx + 1 - ix) * (iy - fy)) in *.
  set (w11 := (ix - fx) * (iy - fy)) in *.
  assert (L00 : 0 <= p00 * w00 <= M * w00) by (split; [apply Rmult_le_pos|apply Rmult_le_compat_r]; lra).
  assert (L01 : 0 <= p01 * w01 <= M * w01) by (split; [apply Rmult_le_pos|apply Rmult_le_compat_r]; lra).
  assert (L10 : 0 <= p10 * w10 <= M * w10) by (split; [apply Rmult_le_pos|apply Rmult_le_compat_r]; lra).
  assert (L11 : 0 <= p11 * w11 <= M * w11) by (split; [apply Rmult_le_pos|apply Rmult_le_compat_r]; lra).
  assert (HMsum : M * w00 + M * w01 + M * w10 + M * w11 = M)
    by (rewrite <- !Rmult_plus_distr_l, Wsum; ring).
  lra.
Qed.

Lemma rsum_bounds n f M :
  (forall k, (k < n)%nat -> 0 <= f k <= M) -> 0 <= rsum n f <= INR n * M.
Proof.
  induction n as [|n IH]; intros Hf.
  - cbn [rsum INR]. lra.
  - rewrite S_INR. cbn [rsum].
    specialize (IH (fun k Hk => Hf k (Nat.lt_lt_succ_r _ _ Hk))).
    specialize (Hf n (Nat.lt_succ_diag_r n)). lra.
Qed.

(** X17. The forward operator preserves bounds: if every pixel of the image lies
    between 0 and [M], every sinogram value lies between 0 and
    [image_size * M] (a sum of [image_size] interpolated samples). *)
Theorem radon_forward_bounds (n h b w : nat) (M : R) (x : tensor R) :
  (1 <= n)%nat -> (1 <= h)%nat -> (1 <= w)%nat ->
  shape x = [b; 1%nat; h; w] ->
  (forall b0 i j, (b0 < b)%nat -> (i < h)%nat -> (j < w)%nat ->
     0 <= get x [b0; 0%nat; i; j] <= M) ->
  0 <= M ->
  exists op s,
    radon.init n h = Ok op /\
    radon.forward op x = Ok s /\
    forall b0 j a, (b0 < b)%nat -> (j < h)%nat -> (a < n)%nat ->
      0 <= get s [b0; 0%nat; j; a] <= INR h * M.
Proof.
  intros Hn Hh Hw Hx Hbnd HM.
  destruct (radon_init_spec n h Hn Hh) as (op & Hop & _).
  destruct (radon_forward_spec n h op x b w Hn Hh Hw Hop Hx) as (s & Hs & _ & Hg).
  exists op, s. repeat (split; [assumption|]).
  intros b0 j a Hb0 Hj Ha. rewrite Hg by assumption.
  unfold radon_value. apply rsum_bounds. intros i Hi.
  apply bilinear_bounds; [assumption|]. intros y x' Hy Hx'. now apply Hbnd.
Qed.

Lemma radon_forward_bounds_witness :
  exists op s,
    radon.init 3 2 = Ok op /\
    radon.forward op (Tensor [1; 1; 2; 2]%nat (fun _ => 1)) = Ok s /\
    forall b0 j a, (b0 < 1)%nat -> (j < 2)%nat -> (a < 3)%nat ->
      0 <= get s [b0; 0%nat; j; a] <= INR 2 * 1.
Proof.
  apply (radon_forward_bounds 3 2 1 2 1);
    [lia | lia | lia | reflexivity | | lra].
  intros b0 i j _ _ _. unfold get. cbn [flat]. lra.
Defined.

(** X18. The unfiltered backward operator preserves bounds: if every sinogram
    value lies between 0 and [M], every pixel of the image lies between 0
    and [M * pi / 2], whatever the number of angles. *)
Theorem fbp_unfiltered_bounds (n h b det ang : nat) (circle : bool) (M : R)
    (y : tensor R) :
  (1 <= n)%nat -> (1 <= h)%nat -> (1 <= det)%nat -> (1 <= ang)%nat ->
  shape y = [b; 1%nat; det; ang] ->
  (forall b0 i j, (b0 < b)%nat -> (i < det)%nat -> (j < ang)%nat ->
     0 <= get y [b0; 0%nat; i; j] <= M) ->
  0 <= M ->
  exists op out,
    fbp.init n h circle false = Ok op /\
    fbp.forward op y = Ok out /\
    forall b0 i j, (b0 < b)%nat -> (i < h)%nat -> (j < h)%nat ->
      0 <= get out [b0; 0%nat; i; j] <= M * PI / 2.
Proof.
  intros Hn Hh Hdet Hang Hy Hbnd HM.
  destruct (fbp_init_spec n h circle false Hn Hh) as (op & Hop & _).
  destruct (fbp_forward_spec n h circle false op y b det ang Hn Hh Hdet Hang Hop Hy)
    as (rf & out & _ & Hrf & Hout & _ & Hg); [discriminate..|].
  rewrite (Hrf eq_refl) in Hg. clear Hrf rf.
  exists op, out. repeat (split; [assumption|]).
  intros b0 i j Hb0 Hi Hj. rewrite Hg by assumption.
  assert (Hh0 : 0 < INR h) by (apply lt_0_INR; lia).
  assert (Hn0 : 0 < INR n) by (apply lt_0_INR; lia).
  pose proof PI_RGT_0 as Hpi.
  assert (Hbp : 0 <= backprojection n h det ang (fun y0 x => get y [b0; 0%nat; y0; x]) i j
                <= INR n * M).
  { unfold backprojection. apply rsum_bounds. intros a Ha.
    apply bilinear_bounds; [assumption|]. intros y0 x Hy0 Hx. now apply Hbnd. }
  rewrite mult_INR. change (INR 2) with 2.
  destruct (circle && negb (get (fbp.reconstruction_circle op) [i; j])).
  - replace (0 * PI / (2 * INR n)) with 0 by (field; lra).
    split; [lra|]. apply Rmult_le_pos; [|lra]. apply Rmult_le_pos; lra.
  - set (bp := backprojection n h det ang (fun y0 x => get y [b0; 0%nat; y0; x]) i j) in *.
    replace (bp / (INR h / INR h) * PI / (2 * INR n))
      with (bp / INR n * (PI / 2)) by (field; lra).
    replace (M * PI / 2) with (M * (PI / 2)) by field.
    assert (Hq : 0 <= bp / INR n <= M).
    { split.
      - apply Rmult_le_pos; [lra|]. left. now apply Rinv_0_lt_compat.
      - apply (Rmult_le_reg_r (INR n)); [assumption|].
        unfold Rdiv. rewrite Rmult_assoc, Rinv_l by lra. lra. }
    split; [apply Rmult_le_pos; lra|].
    apply Rmult_le_compat_r; lra.
Qed.

Lemma fbp_unfiltered_bounds_witness :
  exists op out,
    fbp.init 3 2 true false = Ok op /\
    fbp.forward op (Tensor [1; 1; 4; 5]%nat (fun _ => 1)) = Ok out /\
    forall b0 i j, (b0 < 1)%nat -> (i < 2)%nat -> (j < 2)%nat ->
      0 <= get out [b0; 0%nat; i; j] <= 1 * PI / 2.
Proof.
  apply (fbp_unfiltered_bounds 3 2 1 4 5 true 1);
    [lia | lia | lia | lia | reflexivity | | lra].
  intros b0 i j _ _ _. unfold get. cbn [flat]. lra.
Defined.

(** ** Inputs outside the usual domain *)

(** X19. In filtered mode the backward operator raises on an empty batch:
    the transform of line 109 does not accept a tensor without elements. *)
Theorem fbp_filtered_empty_batch (n h c det ang : nat) (circle : bool)
    (input : tensor R) :
  (1 <= n)%nat -> (1 <= h)%nat ->
  shape input = [0%nat; c; det; ang] ->
  exists op,
    fbp.init n h circle true = Ok op /\
    fbp.forward op input = Err RuntimeError.
Proof.
  intros Hn Hh Hin.
  destruct (fbp_init_spec n h circle true Hn Hh)
    as (op & Hop & _ & _ & _ & _ & Hf & _).
  exists op. split; [assumption|].
  unfold fbp.forward. rewrite Hin, Hf.
  rewrite (fbp_filter_stage_empty n h circle op input 0 c det ang) by auto.
  reflexivity.
Qed.

Lemma fbp_filtered_empty_batch_witness :
  exists op,
    fbp.init 2 3 false true = Ok op /\
    fbp.forward op (Tensor [0; 1; 3; 2]%nat (fun _ => 0)) = Err RuntimeError.
Proof.
  apply (fbp_filtered_empty_batch 2 3 1 3 2 false); [lia | lia | reflexivity].
Defined.

Lemma arange_length start stop step :
  length (Numpy.arange start stop step) = Z.to_nat (Qceiling ((stop - start) / step)).
Proof. unfold Numpy.arange. now rewrite length_map, length_seq. Qed.

Lemma ramp_index_length_odd m : length (ramp_index (2 * m + 1)) = (m + 1)%nat.
Proof.
  unfold ramp_index. rewrite length_app, !arange_length.
  assert (Hs : Z.of_nat (2 * m + 1) = (2 * Z.of_nat m + 1)%Z) by lia.
  revert Hs. generalize (Z.of_nat (2 * m + 1)). intros s ->.
  set (a := Z.of_nat m). assert (Ha : (0 <= a)%Z) by lia.
  apply Nat2Z.inj. rewrite Nat2Z.inj_add, Nat2Z.inj_add. fold a.
  change (Z.of_nat 1) with 1%Z. clearbody a.
  unfold Qceiling, Qfloor, Qdiv, Qminus, Qplus, Qmult, Qinv, Qopp, inject_Z.
  cbn [Qnum Qden Z.opp Pos.mul].
  rewrite !Z2Nat.id; Z.div_mod_to_equations; lia.
Qed.

(** X20. [rampfilter] raises on every odd size from 3 on: [size / 2] is then a
    fraction, the index array gets [(size + 1) / 2] entries and the
    assignment to the [(size - 1) / 2] odd positions of [f] fails. On size
    1 the single value is broadcast to no position, and the filter is the
    one-element array [0.5]. *)
Theorem rampfilter_odd_size (m : nat) :
  (1 <= m)%nat ->
  length (ramp_index (2 * m + 1)) = (m + 1)%nat /\
  rampfilter (2 * m + 1) = Err ValueError /\
  exists t, rampfilter 1 = Ok t /\ shape t = [1%nat] /\ flat t 0 = 0.5.
Proof.
  intros Hm. split; [apply ramp_index_length_odd|]. split.
  - unfold rampfilter, ramp_response, Numpy.setitem, Numpy.zeros.
    rewrite repeat_length.
    rewrite (ltb_true 0 (2 * m + 1)) by lia. cbn [guard bind].
    unfold Numpy.setitem_odd.
    rewrite length_map, ramp_index_length_odd.
    assert (Hlen : length (firstn 0 (List.repeat 0 (2 * m + 1))
                           ++ 0.25 :: skipn 1 (List.repeat 0 (2 * m + 1)))
                   = (2 * m + 1)%nat).
    { cbn [firstn app length]. rewrite length_skipn, repeat_length. lia. }
    rewrite Hlen.
    replace ((2 * m + 1) / 2)%nat with m by (apply (Nat.div_unique _ 2 m 1); lia).
    replace (m + 1 =? m)%nat with false by (symmetry; apply Nat.eqb_neq; lia).
    replace (m + 1 =? 1)%nat with false by (symmetry; apply Nat.eqb_neq; lia).
    reflexivity.
  - eexists. split; [reflexivity|]. split; [reflexivity|].
    cbn. unfold twiddle. cbn.
    replace (2 * PI * 0 * 0 / 1) with 0 by field.
    rewrite cos_0. lra.
Qed.

Lemma rampfilter_odd_size_witness :
  length (ramp_index (2 * 2 + 1)) = (2 + 1)%nat /\
  rampfilter (2 * 2 + 1) = Err ValueError /\
  exists t, rampfilter 1 = Ok t /\ shape t = [1%nat] /\ flat t 0 = 0.5.
Proof. apply (rampfilter_odd_size 2); lia. Defined.
